(** * KFSortProgram: the store sorter of [KFsort6.py]

    A shallow embedding of the document-understanding core of
    [src/KFsort6.py] (canonicalisation, header detection, column detection,
    store indexing, item extraction, envelope fit, wobbler-kit grouping and
    the orchestration guard) and of its packaging and rendering steps (the
    header fields and the classification of a store, store numbers,
    special signage, the order of the stores, the blackout of rows and the
    layout of a group of stores), the properties of it that the
    specification states, and further properties that the code has.

    Conventions.
    - A Python [str] is a Rocq [string]; a character is a code point in the
      Latin-1 range U+0000..U+00FF (what [ascii] can hold).  The character
      classes below are Python's ([str.isspace], [str.isdigit], the decimal
      digits of [int()] and of [\d], [str.lower]) restricted to that range.
    - A Python [int] is a [Z] (sizes and indices, which are never negative,
      are [nat]); a Python [float] is a binary64 [float].
    - A [dict] used as a map is a [gmap], a [set] is a [gset], an
      [OrderedDict] whose iteration order matters is an association list.
    - A [try/except] that swallows an exception is modelled by an [option]
      or by a result that carries what had been accumulated. *)

From Stdlib Require Import ZArith Floats Ascii.
From stdpp Require Import gmap strings list sorting pretty.

#[local] Set Warnings "-inexact-float".

Open Scope string_scope.
Open Scope list_scope.
Open Scope nat_scope.

(** ** Characters and strings, as Python sees them *)

Module Py.

Definition code (c : ascii) : N := Ascii.N_of_ascii c.

Definition in_range (lo hi : N) (c : ascii) : bool :=
  ((lo <=? code c) && (code c <=? hi))%N.

(** [str.isspace] on one character, which is also [\s] of [re] on [str]
    patterns and what [str.strip] removes: TAB..CR, FS..US, SPACE, NEL and
    NBSP. *)
Definition is_space (c : ascii) : bool :=
  in_range 9 13 c || in_range 28 32 c || (code c =? 133)%N || (code c =? 160)%N.

(** [\d] of [re] and the digits [int()] accepts: the decimal digits. *)
Definition is_decimal (c : ascii) : bool := in_range 48 57 c.

(** [str.isdigit] on one character: the decimal digits and the
    superscripts U+00B2, U+00B3 and U+00B9. *)
Definition is_digit (c : ascii) : bool :=
  is_decimal c || (code c =? 178)%N || (code c =? 179)%N || (code c =? 185)%N.

(** [[A-Z]] of [re] (no flag). *)
Definition is_upper_AZ (c : ascii) : bool := in_range 65 90 c.

(** [[a-z]] of [re] under [re.I]. *)
Definition is_letter_i (c : ascii) : bool := in_range 65 90 c || in_range 97 122 c.

(** [str.lower] on one character: A..Z, and U+00C0..U+00DE but the
    multiplication sign U+00D7, move 32 up. *)
Definition lower_char (c : ascii) : ascii :=
  if in_range 65 90 c || (in_range 192 222 c && negb (code c =? 215)%N)
  then Ascii.ascii_of_N (code c + 32)
  else c.

Fixpoint lower (s : string) : string :=
  match s with
  | "" => ""
  | String c s' => String (lower_char c) (lower s')
  end.

(** Removal of the longest prefix, and of the longest suffix, of characters
    satisfying [p]. *)
Fixpoint ldrop (p : ascii → bool) (s : string) : string :=
  match s with
  | "" => ""
  | String c s' => if p c then ldrop p s' else s
  end.

Fixpoint rdrop (p : ascii → bool) (s : string) : string :=
  match s with
  | "" => ""
  | String c s' =>
      match rdrop p s' with
      | "" => if p c then "" else String c ""
      | r => String c r
      end
  end.

(** [s.strip()] *)
Definition strip (s : string) : string := rdrop is_space (ldrop is_space s).

(** [re.sub(r'\s+', ' ', s)]: every maximal run of whitespace becomes one
    space.  [in_run] says that the previous character was whitespace. *)
Fixpoint collapse_from (in_run : bool) (s : string) : string :=
  match s with
  | "" => ""
  | String c s' =>
      if is_space c
      then (if in_run then collapse_from true s'
            else String " " (collapse_from true s'))
      else String c (collapse_from false s')
  end.

Definition collapse_ws (s : string) : string := collapse_from false s.

Definition is_star (c : ascii) : bool := (code c =? 42)%N.

(** [re.sub(r'^\*+|\*+$', '', s)] on a string without line breaks: the
    leading run of asterisks and the trailing run of asterisks are
    removed. *)
Definition trim_stars (s : string) : string := rdrop is_star (ldrop is_star s).

(** [needle in s] *)
Fixpoint contains (needle s : string) : bool :=
  String.prefix needle s ||
  match s with
  | "" => false
  | String _ s' => contains needle s'
  end.

(** [s.isdigit()]: non-empty and every character a digit. *)
Fixpoint all_chars (p : ascii → bool) (s : string) : bool :=
  match s with
  | "" => true
  | String c s' => p c && all_chars p s'
  end.

Definition isdigit (s : string) : bool :=
  negb (String.eqb s "") && all_chars is_digit s.

(** [int(s)] for a string that passed [isdigit]: the value of a string of
    decimal digits; a superscript digit raises [ValueError] ([None]). *)
Fixpoint int_from (acc : Z) (s : string) : option Z :=
  match s with
  | "" => Some acc
  | String c s' =>
      if is_decimal c
      then int_from (10 * acc + Z.of_N (code c - 48)) s'
      else None
  end.

Definition int (s : string) : option Z :=
  match s with
  | "" => None
  | _ => int_from 0 s
  end.

(** [' '.join(l)] *)
Fixpoint join_sp (l : list string) : string :=
  match l with
  | [] => ""
  | [s] => s
  | s :: l' => s +:+ " " +:+ join_sp l'
  end.

(** [sorted(l)], and [l.sort(...)]: a stable sort that only asks whether
    one element is strictly below another.  [x] is put after the elements
    strictly below it and before everything else, so that elements none of
    which is below the other keep their order. *)
Section sorted.
Context {A : Type} (lt : A → A → bool).

Fixpoint insert_sorted (x : A) (l : list A) : list A :=
  match l with
  | [] => [x]
  | y :: l' => if lt y x then y :: insert_sorted x l' else x :: l
  end.

Fixpoint sorted (l : list A) : list A :=
  match l with
  | [] => []
  | x :: l' => insert_sorted x (sorted l')
  end.
End sorted.

(** [<] on [str] (code point order) and on tuples [(str, int)]. *)
Definition str_lt (a b : string) : bool := String.ltb a b.

Definition pair_lt (a b : string * Z) : bool :=
  match String.compare a.1 b.1 with
  | Lt => true
  | Eq => (a.2 <? b.2)%Z
  | Gt => false
  end.

End Py.

(** ** Canonicalisation and constants *)

(** [canon], lines 61-66. *)
Definition canon (s : string) : string :=
  if String.eqb s "" then ""
  else Py.lower (Py.trim_stars (Py.collapse_ws (Py.strip s))).

(** [_PREDETERMINED_WOBBLERS_CANON], lines 71-76. *)
Definition _PREDETERMINED_WOBBLERS_CANON : gset string :=
  {[ "shelf wobbler kit; alcohol version";
     "candy; counter kit";
     "shelf wobbler kit; non-alcohol version";
     "candy; shipper kit" ]}.

Definition PROMO_WOBBLER_ALC_CANON : string := canon "Shelf Wobbler Kit; Alcohol Version".
Definition PROMO_WOBBLER_NONALC_CANON : string := canon "Shelf Wobbler Kit; Non-Alcohol Version".
Definition TYPE_SHELF_WOBBLER_CANON : string := canon "Shelf Wobbler".

(** ** Header pages *)

(** [[A-Z]\d{4}] at the head of [s]. *)
Definition store_number_here (s : string) : bool :=
  match s with
  | String c (String d1 (String d2 (String d3 (String d4 _)))) =>
      Py.is_upper_AZ c && Py.is_decimal d1 && Py.is_decimal d2
      && Py.is_decimal d3 && Py.is_decimal d4
  | _ => false
  end.

(** [\s?[A-Z]\d{4}] at the head of [s]: the optional whitespace character is
    tried first, then its absence. *)
Definition after_store_colon (s : string) : bool :=
  match s with
  | String c s' => (Py.is_space c && store_number_here s') || store_number_here s
  | "" => false
  end.

(** [Store:\s?[A-Z]\d{4}] at the head of [s]. *)
Definition header_here (s : string) : bool :=
  match s with
  | String "S" (String "t" (String "o" (String "r" (String "e" (String ":" s'))))) =>
      after_store_colon s'
  | _ => false
  end.

(** [HEADER_STORE_RE.search(text)], line 87: a match at some offset. *)
Fixpoint header_search (text : string) : bool :=
  header_here text ||
  match text with
  | "" => false
  | String _ text' => header_search text'
  end.

(** [is_header_page], lines 393-394. *)
Definition is_header_page (text : string) : bool := header_search text.

(** ** Geometry: column detection *)

(** [fitz.Rect]: four binary64 coordinates. *)
Record Rect := mkRect { x0 : float; y0 : float; x1 : float; y1 : float }.

(** [max] and [min] of Python over a non-empty sequence: the first element
    is kept until a later one is strictly greater (smaller). *)
Definition py_max (x : float) (l : list float) : float :=
  fold_left (λ m y, if PrimFloat.ltb m y then y else m) l x.
Definition py_min (x : float) (l : list float) : float :=
  fold_left (λ m y, if PrimFloat.ltb y m then y else m) l x.

(** The truth value of a rectangle, which PyMuPDF defines as
    [not (max(self) == min(self) == 0)]: every rectangle but the all-zero
    one is true. *)
Definition rect_truthy (r : Rect) : bool :=
  let mx := py_max (x0 r) [y0 r; x1 r; y1 r] in
  let mn := py_min (x0 r) [y0 r; x1 r; y1 r] in
  negb (PrimFloat.eqb mx mn && PrimFloat.eqb mn 0).

(** The truth value of [r] for [r] a [Rect] or [None]. *)
Definition opt_rect_truthy (r : option Rect) : bool :=
  match r with
  | Some r => rect_truthy r
  | None => false
  end.

(** One row as [iter_rows] yields it (its bounding rectangle, which the
    extraction of items does not read, is left out). *)
Record Row := mkRow { type_text : string; promo_text : string; qty_text : string }.

(** A page of the source document, as far as the core reads it:
    - [page_text]: [page.get_text('text')], [None] when that call raises;
    - [page_rows]: the rows that [iter_rows(page, y_min, y_max)] yields for
      the band that [extract_items_from_pages] computes;
    - [page_width]: [page.rect.width];
    - [search_for]: [page.search_for(needle)], [None] when that call
      raises. *)
Record Page := mkPage {
  page_text : option string;
  page_rows : list Row;
  page_width : float;
  search_for : string → option (list Rect)
}.

(** The dictionary [detect_columns] returns. *)
Record Columns := mkColumns {
  x_promo_left : float;
  x_qty_left : float;
  header_bottom : float
}.

(** [rs[0] if rs else None], then the fallback of lines 462-465: a missing
    (or all-zero, hence false) rectangle is replaced by [fallback]. *)
Definition first_or (hits : list Rect) (fallback : Rect) : Rect :=
  match head hits with
  | Some r => if rect_truthy r then r else fallback
  | None => fallback
  end.

(** [detect_columns], lines 453-474.  [None] from [search_for] is the
    exception, which takes the [except] branch. *)
Definition detect_columns (page : Page) : Columns :=
  let w := page_width page in
  match search_for page "Sign Type",
        search_for page "Promotion Name",
        search_for page "Qty Ordered" with
  | Some rs, Some rp, Some rq =>
      let rect_sign := head rs in
      let rect_promo := first_or rp (mkRect (w * 0.25) 0 (w * 0.55) 20) in
      let rect_qty := first_or rq (mkRect (w * 0.80) 0 (w * 0.95) 20) in
      let found :=
        filter (λ r, opt_rect_truthy r) [rect_sign; Some rect_promo; Some rect_qty] in
      let header_bottom :=
        match omap (fmap y1) found with
        | [] => 0%float
        | y :: ys => py_max y ys
        end in
      mkColumns (x0 rect_promo) (x0 rect_qty) header_bottom
  | _, _, _ => mkColumns (w * 0.25) (w * 0.80) 0
  end.

(** ** Stores and items *)

(** An item, line 692: [{'type': ..., 'promo': ..., 'qty': ...}].  (The
    keys ['promo'], ['qty'], ['items'] and ['stores'] occur in several of
    the dictionaries; the fields carry a prefix to tell them apart.) *)
Record ItemRecord := mkItem { it_type : string; it_promo : string; it_qty : Z }.

(** A store dictionary.  The first seven keys are set by [index_stores];
    [items] and [drop_nonalc_wobbler] by the orchestrator and
    [fits_envelope] by [compute_envelope_fit] (an absent [items] reads as
    the empty list, as [s.get('items', [])] does; an absent flag is
    [None]). *)
Record StoreRecord := mkStore {
  store_id : string;
  store_name : string;
  store_type : string;
  location : string;
  class : string;
  pages : list nat;
  meta : gmap string string;
  items : list ItemRecord;
  drop_nonalc_wobbler : option bool;
  fits_envelope : option bool
}.

Definition set_items (its : list ItemRecord) (s : StoreRecord) : StoreRecord :=
  mkStore (store_id s) (store_name s) (store_type s) (location s) (class s)
          (pages s) (meta s) its (drop_nonalc_wobbler s) (fits_envelope s).

Definition set_drop_nonalc_wobbler (b : bool) (s : StoreRecord) : StoreRecord :=
  mkStore (store_id s) (store_name s) (store_type s) (location s) (class s)
          (pages s) (meta s) (items s) (Some b) (fits_envelope s).

Definition set_fits_envelope (b : bool) (s : StoreRecord) : StoreRecord :=
  mkStore (store_id s) (store_name s) (store_type s) (location s) (class s)
          (pages s) (meta s) (items s) (drop_nonalc_wobbler s) (Some b).

(** A source document: its pages, in order. *)
Abbreviation Document := (list Page).

(** *** Store indexing *)

Section Indexing.

(** The two text analyses that [index_stores] calls are pure functions of
    the text that cannot raise; what they compute fills the descriptive
    fields of a store and never its pages, so they are left as
    parameters: [extract_store_info] (lines 396-416) gives the [meta]
    dictionary, [classify_store] (lines 426-449) the ['store_type']
    entry of its result. *)
Variable extract_store_info : string → gmap string string.
Variable classify_store : string → string.

(** The loop state of [index_stores]: [stores], [current] ([None], or the
    ['pages'] list of the open store), [accum] and [meta]. *)
Record IndexState := mkIndexState {
  ix_stores : list StoreRecord;
  ix_current : option (list nat);
  ix_accum : string;
  ix_meta : gmap string string
}.

(** Lines 631-642 and 652-663: the store that is appended when the open
    store is closed; [unknown] is the name used when [meta] has no
    ['store']. *)
Definition close_store (unknown : string) (st : IndexState) (pgs : list nat)
  : StoreRecord :=
  let store_name := default unknown (ix_meta st !! "store") in
  let store_cls := default "" (ix_meta st !! "class") in
  mkStore (store_name +:+ "|" +:+ store_cls) store_name
          (classify_store (ix_accum st))
          (default "" (ix_meta st !! "location")) store_cls
          pgs (ix_meta st) [] None None.

(** One iteration of the loop of lines 620-649, at page index [i]. *)
Definition index_step (st : IndexState) (i : nat) (page : Page) : IndexState :=
  match page_text page with
  | None => st
  | Some text =>
      if String.eqb (Py.strip text) "" then st
      else if is_header_page text then
        let stores :=
          match ix_current st with
          | Some pgs => ix_stores st ++ [close_store ("UNKNOWN_" +:+ pretty i) st pgs]
          | None => ix_stores st
          end in
        mkIndexState stores (Some [i]) (text +:+ " ") (extract_store_info text)
      else
        mkIndexState (ix_stores st)
                     ((λ pgs, pgs ++ [i]) <$> ix_current st)
                     (ix_accum st +:+ text +:+ " ")
                     (ix_meta st)
  end.

(** [for i, page in enumerate(doc)], started at index [i]. *)
Fixpoint index_loop (st : IndexState) (i : nat) (doc : list Page) : IndexState :=
  match doc with
  | [] => st
  | page :: doc' => index_loop (index_step st i page) (S i) doc'
  end.

(** [index_stores], lines 613-667. *)
Definition index_stores (doc : Document) : list StoreRecord :=
  let st := index_loop (mkIndexState [] None "" ∅) 0 doc in
  match ix_current st with
  | Some pgs => ix_stores st ++ [close_store "UNKNOWN_END" st pgs]
  | None => ix_stores st
  end.

End Indexing.

(** *** Item extraction *)

(** [re.search(r'[a-z]+://|www\.', pr, re.I)], line 695: a letter directly
    before [://], or [www.] in any case. *)
Definition www_here (s : string) : bool :=
  match s with
  | String a (String b (String c (String "." _))) =>
      (Py.code (Py.lower_char a) =? 119)%N && (Py.code (Py.lower_char b) =? 119)%N
      && (Py.code (Py.lower_char c) =? 119)%N
  | _ => false
  end.

Fixpoint looks_like_url (s : string) : bool :=
  match s with
  | "" => false
  | String c s' =>
      (Py.is_letter_i c && String.prefix "://" s') || www_here s || looks_like_url s'
  end.

(** The loop state of [extract_items_from_pages]: [items], [last_type] and
    [promo_buf]. *)
Record ExtractState := mkExtractState {
  ex_items : list ItemRecord;
  ex_last_type : option string;
  ex_promo_buf : list string
}.

(** The body of the row loop, lines 680-696.  [inr] is an exception ([int]
    refuses a superscript digit, and, in recent versions of Python, a
    literal of more than 4300 digits, which is not modelled); the handler
    returns the items appended before it, so that is all [inr] carries. *)
Definition extract_row (st : ExtractState) (row : Row) : ExtractState + list ItemRecord :=
  let t := Py.strip (type_text row) in
  let pr := Py.strip (promo_text row) in
  let qt := Py.strip (qty_text row) in
  let last_type := if String.eqb t "" then ex_last_type st else Some t in
  if Py.contains "Sign Type Total" (t +:+ " " +:+ pr) then
    inl (mkExtractState (ex_items st) None [])
  else
    match (if Py.isdigit qt then last_type else None) with
    | Some ty =>
        let full_promo :=
          Py.strip (Py.join_sp (filter (λ p, p ≠ "") (ex_promo_buf st ++ [pr]))) in
        if String.eqb full_promo "" then
          inl (mkExtractState (ex_items st) last_type [])
        else
          match Py.int qt with
          | Some q =>
              inl (mkExtractState (ex_items st ++ [mkItem ty full_promo q]) last_type [])
          | None => inr (ex_items st)
          end
    | None =>
        if negb (String.eqb pr "") && negb (looks_like_url pr) then
          inl (mkExtractState (ex_items st) last_type (ex_promo_buf st ++ [pr]))
        else inl (mkExtractState (ex_items st) last_type (ex_promo_buf st))
    end.

(** [for row in iter_rows(...)], stopping at the first exception. *)
Fixpoint extract_rows (st : ExtractState) (rows : list Row) : ExtractState + list ItemRecord :=
  match rows with
  | [] => inl st
  | row :: rows' =>
      match extract_row st row with
      | inl st' => extract_rows st' rows'
      | inr its => inr its
      end
  end.

(** [for p in pages], lines 674-696; [doc[p]] raises when [p] is out of
    range. *)
Fixpoint extract_pages (doc : Document) (st : ExtractState) (pgs : list nat)
  : ExtractState + list ItemRecord :=
  match pgs with
  | [] => inl st
  | p :: pgs' =>
      match doc !! p with
      | None => inr (ex_items st)
      | Some page =>
          match extract_rows st (page_rows page) with
          | inl st' => extract_pages doc st' pgs'
          | inr its => inr its
          end
      end
  end.

(** [extract_items_from_pages], lines 669-699: the items accumulated, also
    when an exception ended the loops. *)
Definition extract_items_from_pages (doc : Document) (pgs : list nat) : list ItemRecord :=
  match extract_pages doc (mkExtractState [] None []) pgs with
  | inl st => ex_items st
  | inr its => its
  end.

(** [store_should_drop_nonalc], lines 967-980. *)
Fixpoint drop_nonalc_from (has_alc has_non : bool) (its : list ItemRecord) : bool :=
  match its with
  | [] => false
  | it :: its' =>
      if negb (String.eqb (canon (it_type it)) TYPE_SHELF_WOBBLER_CANON) then
        drop_nonalc_from has_alc has_non its'
      else
        let p := canon (it_promo it) in
        let has_alc' := has_alc || String.eqb p PROMO_WOBBLER_ALC_CANON in
        let has_non' :=
          has_non || (negb (String.eqb p PROMO_WOBBLER_ALC_CANON)
                      && String.eqb p PROMO_WOBBLER_NONALC_CANON) in
        if has_alc' && has_non' then true
        else drop_nonalc_from has_alc' has_non' its'
  end.

Definition store_should_drop_nonalc (its : list ItemRecord) : bool :=
  drop_nonalc_from false false its.

(** ** Envelope fit *)

(** [unique_sign_types], lines 753-762: [seen] is an [OrderedDict] from the
    canonical sign type to its first spelling. *)
Definition seen_add (seen : list (string * string)) (it : ItemRecord)
  : list (string * string) :=
  let st := Py.strip (it_type it) in
  if negb (String.eqb st "") && negb (bool_decide (canon st ∈ seen.*1))
  then seen ++ [(canon st, st)]
  else seen.

Definition unique_sign_types (stores : list StoreRecord) : list string :=
  (fold_left (λ seen s, fold_left seen_add (items s) seen) stores []).*2.

(** The envelope-fit configuration: a dictionary with the lists
    ["will_fit"] and ["wont_fit"]. *)
Abbreviation FitConfig := (gmap string (list string)).

(** The set [will] of line 765. *)
Definition will_fit_set (fit_cfg : FitConfig) : gset string :=
  list_to_set (canon <$> default [] (fit_cfg !! "will_fit")).

(** The body of the loop of lines 767-772 on one store. *)
Definition envelope_fit_of (will : gset string) (s : StoreRecord) : bool :=
  match items s with
  | [] => false
  | its => forallb (λ it, bool_decide (canon (it_type it) ∈ will)) its
  end.

(** [compute_envelope_fit], lines 764-776.  The function writes the flag
    into each store and returns the two lists of (the same, updated)
    stores: the result is the updated [stores], then [fits] and
    [not_fits]. *)
Definition compute_envelope_fit (stores : list StoreRecord) (fit_cfg : FitConfig)
  : list StoreRecord * (list StoreRecord * list StoreRecord) :=
  let will := will_fit_set fit_cfg in
  let stores' := (λ s, set_fits_envelope (envelope_fit_of will s) s) <$> stores in
  (stores',
   (filter (λ s, fits_envelope s = Some true) stores',
    filter (λ s, fits_envelope s ≠ Some true) stores')).

(** ** Wobbler kits *)

(** [is_predetermined_wobbler], lines 513-514. *)
Definition is_predetermined_wobbler (promo : string) : bool :=
  bool_decide (canon promo ∈ _PREDETERMINED_WOBBLERS_CANON).

(** An entry of a kit's ['items'] and a kit, lines 729-738. *)
Record KitItem := mkKitItem { ki_promo : string; ki_qty : Z }.

Record WobblerKit := mkKit {
  kit_name : string;
  kit_items : list KitItem;
  kit_stores : list string;
  store_ids : list string;
  store_count : nat
}.

(** A signature: the tuple [key] of line 721. *)
Abbreviation Signature := (list (string * Z)).

(** [combos]: an [OrderedDict] from signatures to lists of
    [(store_id, store_name)], in the order of first insertion. *)
Abbreviation Combos := (list (Signature * list (string * string))).

(** The item loop of lines 711-718 on one item: [rep_text] and [wob]. *)
Definition wob_step (acc : gmap string string * list (string * Z)) (it : ItemRecord)
  : gmap string string * list (string * Z) :=
  let '(rep_text, wob) := acc in
  if negb (String.eqb (canon (it_type it)) TYPE_SHELF_WOBBLER_CANON) then acc
  else if is_predetermined_wobbler (it_promo it) then acc
  else
    let cp := canon (it_promo it) in
    let rep_text' :=
      match rep_text !! cp with
      | Some _ => rep_text
      | None => <[cp := it_promo it]> rep_text
      end in
    (rep_text', wob ++ [(cp, it_qty it)]).

(** [combos.setdefault(key, []).append(v)], line 722. *)
Fixpoint combos_add (key : Signature) (v : string * string) (combos : Combos) : Combos :=
  match combos with
  | [] => [(key, [v])]
  | (k, l) :: combos' =>
      if decide (k = key) then (k, l ++ [v]) :: combos'
      else (k, l) :: combos_add key v combos'
  end.

(** The store loop of lines 708-722 on one store. *)
Definition group_step (acc : gmap string string * Combos) (s : StoreRecord)
  : gmap string string * Combos :=
  let '(rep_text, combos) := acc in
  let '(rep_text', wob) := fold_left wob_step (items s) (rep_text, []) in
  if (length wob <=? 1)%nat then (rep_text', combos)
  else (rep_text', combos_add (Py.sorted Py.pair_lt wob) (store_id s, store_name s) combos).

(** [items_disp], line 729; a missing key of [rep_text] raises. *)
Definition items_disp (rep_text : gmap string string) (key : Signature)
  : option (list KitItem) :=
  mapM (λ pq, (λ t, mkKitItem t pq.2) <$> rep_text !! pq.1) key.

(** The loop of lines 726-739, with the running label [idx]. *)
Fixpoint build_kits (rep_text : gmap string string) (min_stores : Z) (idx : nat)
    (combos : Combos) : option (list WobblerKit) :=
  match combos with
  | [] => Some []
  | (key, store_list) :: combos' =>
      if (Z.of_nat (length store_list) <? min_stores)%Z then
        build_kits rep_text min_stores idx combos'
      else
        disp ← items_disp rep_text key;
        kits ← build_kits rep_text min_stores (S idx) combos';
        Some (mkKit (pretty idx) disp
                    (Py.sorted Py.str_lt store_list.*2)
                    store_list.*1
                    (length store_list) :: kits)
  end.

(** [kits.sort(key=lambda k: k['store_count'], reverse=True)], line 740: a
    kit goes before the kits with a count that is not greater. *)
Definition count_gt (a b : WobblerKit) : bool := (store_count b <? store_count a)%nat.

(** The loop of lines 741-744. *)
Definition index_kits (kits : list WobblerKit) : gmap string string :=
  fold_left (λ m kit, fold_left (λ m sid, <[sid := kit_name kit]> m) (store_ids kit) m)
            kits ∅.

(** [group_wobbler_kits], lines 703-749; an exception gives [([], {})]. *)
Definition group_wobbler_kits (stores : list StoreRecord) (min_stores : Z)
  : list WobblerKit * gmap string string :=
  let '(rep_text, combos) := fold_left group_step stores (∅, []) in
  match build_kits rep_text min_stores 1 combos with
  | Some kits =>
      let kits := Py.sorted count_gt kits in
      (kits, index_kits kits)
  | None => ([], ∅)
  end.

(** ** The orchestrator *)

(** What the run does to the world, in order.  [OutOpen] is
    [out = fitz.open()], the creation of the output document; [OutOp] is
    one operation on it (a page added or copied, text or a shape drawn);
    [OutSave] is [out.save(...)]. *)
Inductive OutOp :=
  | NewPage
  | CopyPage (p : nat)
  | InsertText (text : string)
  | DrawShape.

Inductive Event :=
  | ShowError (title message : string)
  | ShowInfo (title : string)
  | EnvelopeFitDialog (sign_types : list string)
  | OutOpen
  | Out (op : OutOp)
  | OutSave.

(** The events that create, fill or save the output document. *)
Definition is_output_event (e : Event) : bool :=
  match e with
  | OutOpen | Out _ | OutSave => true
  | _ => false
  end.

Section Orchestrator.

Variable extract_store_info : string → gmap string string.
Variable classify_store : string → string.

(** [gui_envelope_fit(root, sign_types)]: the dialog of the configuration
    collaborator; [None] when it raises. *)
Variable gui_envelope_fit : list string → option FitConfig.

(** Step 4 (lines 1028-1044: the buckets are sorted and split by special
    signage, which touches nothing outside and cannot raise) and step 6
    (lines 1052-1120: the layout engine fills the output document), given
    the source document, the stores without order, [fits], [not_fits], the
    kits and the kit of each store id.  The result is the list of
    operations done on the output document and whether step 6 came to its
    end ([false]: an exception stopped it after these operations). *)
Variable render_output :
  Document → list StoreRecord → list StoreRecord → list StoreRecord →
  list WobblerKit → gmap string string → list OutOp * bool.

Definition fatal : Event :=
  ShowError "Error" "A fatal error occurred. See kwik_debug.log for details.".

(** Lines 1005-1009: items and the drop flag of each store. *)
Definition with_extracted_items (doc : Document) (s : StoreRecord) : StoreRecord :=
  let its := extract_items_from_pages doc (pages s) in
  set_drop_nonalc_wobbler (store_should_drop_nonalc its) (set_items its s).

(** Lines 1004-1014: the indexed stores with their items, and those of
    them that have items. *)
Definition analysed_stores (doc : Document) : list StoreRecord :=
  with_extracted_items doc <$> index_stores extract_store_info classify_store doc.

Definition stores_with_items (doc : Document) : list StoreRecord :=
  filter (λ s, items s ≠ []) (analysed_stores doc).

Definition no_order_stores (doc : Document) : list StoreRecord :=
  filter (λ s, items s = []) (analysed_stores doc).

(** [process_pdf_sorted_with_kits_and_envelopes], lines 984-1134, as the
    sequence of its events; [doc] is [None] when the input cannot be
    opened.  The save is the last operation on the output document and is
    taken to succeed. *)
Definition process_pdf_sorted_with_kits_and_envelopes (doc : option Document) : list Event :=
  match doc with
  | None => [fatal]
  | Some doc =>
      let sign_types := unique_sign_types (stores_with_items doc) in
      match sign_types with
      | [] => [ShowError "Envelope Fit" "No sign types found in this PDF."]
      | _ =>
          EnvelopeFitDialog sign_types ::
          match gui_envelope_fit sign_types with
          | None => [fatal]
          | Some fit_cfg =>
              let '(stores_fit, (fits, not_fits)) :=
                compute_envelope_fit (stores_with_items doc) fit_cfg in
              let '(kits, kit_by_store_id) := group_wobbler_kits stores_fit 10 in
              let '(ops, completed) :=
                render_output doc (no_order_stores doc) fits not_fits kits kit_by_store_id in
              OutOpen :: (Out <$> ops) ++
              (if completed then [OutSave; ShowInfo "Complete"] else [fatal])
          end
      end
  end.

End Orchestrator.

(** ** The specification's reading of a header page, and sample inputs *)

(** The pattern as the specification words it: the text ["Store: "] (with
    its single space), then one letter, then four digits. *)
Definition spec_header_here (s : string) : bool :=
  match s with
  | String "S" (String "t" (String "o" (String "r" (String "e" (String ":"
      (String " " (String c (String d1 (String d2 (String d3 (String d4 _))))))))))) =>
      Py.is_letter_i c && Py.is_decimal d1 && Py.is_decimal d2
      && Py.is_decimal d3 && Py.is_decimal d4
  | _ => false
  end.

Fixpoint spec_is_header_page (text : string) : bool :=
  spec_header_here text ||
  match text with
  | "" => false
  | String _ text' => spec_is_header_page text'
  end.

(** A page with the given text and rows on which no anchor is found, of
    US-letter width. *)
Definition plain_page (text : option string) (rows : list Row) : Page :=
  mkPage text rows 612 (λ _, Some []).

(** A one-page order whose only row has the quantity ["0"]. *)
Definition zero_qty_doc : Document :=
  [plain_page (Some "Store: A1234") [mkRow "Shelf Wobbler" "Widget Promo" "0"]].

(** The items a loop result carries, whether or not an exception ended it. *)
Definition result_items (r : ExtractState + list ItemRecord) : list ItemRecord :=
  match r with
  | inl st => ex_items st
  | inr its => its
  end.

(** The invariant of the extraction loops. *)
Definition qty_nonneg (its : list ItemRecord) : Prop :=
  Forall (λ it, (0 ≤ it_qty it)%Z) its.

(** A binary64 value that is one of the two zeros. *)
Definition is_zero (x : float) : Prop := ∃ s, Prim2SF x = S754_zero s.

(** A store with the given id and items, as the orchestrator hands it to
    the envelope-fit and kit steps. *)
Definition store_of (id : string) (its : list ItemRecord) : StoreRecord :=
  mkStore (id +:+ "|") id "" "" "" [] ∅ its None None.

(** The specification's example: items of the sign types A and B, and the
    two configurations. *)
Definition store_AB : StoreRecord :=
  store_of "A1234" [mkItem "A" "Promo one" 1; mkItem "B" "Promo two" 2].

Definition cfg_ABC : FitConfig := {[ "will_fit" := ["A"; "B"; "C"]; "wont_fit" := [] ]}.
Definition cfg_A : FitConfig := {[ "will_fit" := ["A"]; "wont_fit" := ["B"; "C"] ]}.

(** A store for which no item was extracted. *)
Definition store_empty : StoreRecord := store_of "B5678" [].

(** What [index_stores] makes of page [i]: the page is usable when its
    text can be read and is not blank, and a header page when, besides, the
    header pattern is found in it. *)
Definition usable_page (page : Page) : bool :=
  match page_text page with
  | Some text => negb (String.eqb (Py.strip text) "")
  | None => false
  end.

Definition header_page (page : Page) : bool :=
  match page_text page with
  | Some text => negb (String.eqb (Py.strip text) "") && is_header_page text
  | None => false
  end.

Definition usable_at (doc : Document) (i : nat) : bool :=
  from_option usable_page false (doc !! i).

Definition header_at (doc : Document) (i : nat) : bool :=
  from_option header_page false (doc !! i).

(** The pages of a store that is still open when the loop is at index [i]:
    the usable pages from its header page [h] on. *)
Definition open_block (doc : Document) (i : nat) (pgs : list nat) : Prop :=
  ∃ h, h < i ∧ header_at doc h = true ∧
       pgs = filter (λ j, usable_at doc j = true) (seq h (i - h)) ∧
       ∀ j, h < j < i → header_at doc j = false.

(** The pages of a finished store: the usable pages from its header page
    [h] to the page [h + n], the last one before the next header page or
    the end of the document. *)
Definition store_block (doc : Document) (pgs : list nat) : Prop :=
  ∃ h n, pgs = filter (λ j, usable_at doc j = true) (seq h (S n)) ∧
         header_at doc h = true ∧
         (∀ j, h < j ≤ h + n → header_at doc j = false) ∧
         h + n < length doc ∧
         (S (h + n) = length doc ∨ header_at doc (S (h + n)) = true).

(** Three pages: a header page, a blank page and a page of rows. *)
Definition blank_page_doc : Document :=
  [plain_page (Some "Store: A1234 Class: 10") [];
   plain_page (Some "   ") [];
   plain_page (Some "Shelf Wobbler Widget Promo 5") []].

(** A run of consecutive indices: [pgs = [h; h+1; ...]]. *)
Definition contiguous_run (pgs : list nat) : Prop :=
  ∃ h, pgs = seq h (length pgs).

(** The invariant of the loop of [index_stores] at page index [i]. *)
Definition index_inv (doc : Document) (i : nat) (st : IndexState) : Prop :=
  Forall (λ s, store_block doc (pages s)) (ix_stores st) ∧
  ∀ pgs, ix_current st = Some pgs → open_block doc i pgs.

(** *** Kit grouping, as the specification describes it *)

(** An item counts for grouping when its canonical type is the shelf
    wobbler and its promotion is not a predetermined one. *)
Definition qualifying_item (it : ItemRecord) : bool :=
  String.eqb (canon (it_type it)) TYPE_SHELF_WOBBLER_CANON
  && negb (is_predetermined_wobbler (it_promo it)).

(** The (canonical promotion, quantity) pairs of the qualifying items of a
    store, in the order of its items. *)
Definition wobbler_pairs (its : list ItemRecord) : list (string * Z) :=
  (λ it, (canon (it_promo it), it_qty it)) <$> filter (λ it, qualifying_item it = true) its.

(** A store takes part in the grouping when it has at least two pairs. *)
Definition in_grouping (s : StoreRecord) : bool :=
  negb (length (wobbler_pairs (items s)) <=? 1).

(** The signature of a store: its pairs, sorted. *)
Definition signature (s : StoreRecord) : Signature :=
  Py.sorted Py.pair_lt (wobbler_pairs (items s)).

(** The stores of a signature, as [(store_id, store_name)], in the order of
    the store list. *)
Definition members (key : Signature) (stores : list StoreRecord) : list (string * string) :=
  (λ s, (store_id s, store_name s))
    <$> filter (λ s, in_grouping s = true ∧ signature s = key) stores.

(** The distinct elements of a list in the order in which they are first
    met. *)
Definition first_seen {A} `{EqDecision A} (l : list A) : list A :=
  fold_left (λ acc x, if decide (x ∈ acc) then acc else acc ++ [x]) l [].

(** The signature groups in the order in which their signatures are first
    met in the store list, and those that reach the threshold. *)
Definition grouped (stores : list StoreRecord) : Combos :=
  (λ key, (key, members key stores))
    <$> first_seen (signature <$> filter (λ s, in_grouping s = true) stores).

Definition retained (stores : list StoreRecord) (min_stores : Z) : Combos :=
  filter (λ g, (min_stores ≤ Z.of_nat (length g.2))%Z) (grouped stores).

(** The signature that a kit displays: its items, canonical again. *)
Definition kit_signature (k : WobblerKit) : Signature :=
  (λ ki, (canon (ki_promo ki), ki_qty ki)) <$> kit_items k.

(** The kit that lines 729-738 build for the group [g] under the label
    [n]. *)
Definition mk_kit (rep_text : gmap string string) (n : nat)
    (g : Signature * list (string * string)) : WobblerKit :=
  mkKit (pretty n)
        ((λ pq, mkKitItem (default "" (rep_text !! pq.1)) pq.2) <$> g.1)
        (Py.sorted Py.str_lt g.2.*2) g.2.*1 (length g.2).

(** The state of the first loop of [group_wobbler_kits] after [stores]. *)
Definition grouping_state (stores : list StoreRecord) : gmap string string * Combos :=
  fold_left group_step stores (∅, []).

(** The kits in the order of their labels, before the final sort. *)
Definition labelled_kits (stores : list StoreRecord) (min_stores : Z) : list WobblerKit :=
  imap (λ j g, mk_kit (grouping_state stores).1 (S j) g) (retained stores min_stores).

(** Every canonical promotion maps to a spelling of itself. *)
Definition rep_text_ok (rep_text : gmap string string) : Prop :=
  ∀ p t, rep_text !! p = Some t → canon t = p.

(** Every promotion of the pairs [wob] has a spelling. *)
Definition rep_text_covers (rep_text : gmap string string) (wob : list (string * Z)) : Prop :=
  ∀ pq, pq ∈ wob → is_Some (rep_text !! pq.1).

(** Sample stores: a shelf-wobbler item, and [n] stores that ordered the
    same two promotions, every other one in the opposite order and in
    another spelling. *)
Definition wobbler (promo : string) (q : Z) : ItemRecord := mkItem "Shelf Wobbler" promo q.

Definition same_order_store (i : nat) : StoreRecord :=
  store_of ("K" +:+ pretty i)
    (if Nat.even i
     then [wobbler "Widget Promo" 5; wobbler "Soda 2 for 3" 2]
     else [wobbler "  soda 2 FOR  3" 2; mkItem "Banner Sign" "Widget Promo" 1;
           wobbler "*WIDGET promo*" 5]).

Definition same_order_stores (n : nat) : list StoreRecord := same_order_store <$> seq 0 n.

(** Two stores with one signature first, then three with another. *)
Definition two_kit_stores : list StoreRecord :=
  [store_of "A0001" [wobbler "X" 1; wobbler "Y" 2];
   store_of "A0002" [wobbler "P" 1; wobbler "Q" 1];
   store_of "A0003" [wobbler "Q" 1; wobbler "P" 1];
   store_of "A0004" [wobbler "Y" 2; wobbler "X" 1];
   store_of "A0005" [wobbler "P" 1; wobbler "Q" 1]].

(** An order document with one store and one item. *)
Definition one_item_doc : Document :=
  [plain_page (Some "Store: A1234 Class: 10") [mkRow "Shelf Wobbler" "Widget Promo" "5"]].

(** *** Shapes of strings, for the fixed points of [canon] *)

(** The first, and the last, character of [s] satisfies [p]. *)
Definition first_char_is (p : ascii → bool) (s : string) : bool :=
  match s with
  | "" => false
  | String c _ => p c
  end.

Fixpoint last_char_is (p : ascii → bool) (s : string) : bool :=
  match s with
  | "" => false
  | String c "" => p c
  | String _ s' => last_char_is p s'
  end.

(** Every whitespace character of [s] is a space, and no two of them are
    adjacent ([after_space]: the character before [s] was a space). *)
Fixpoint single_spaced (after_space : bool) (s : string) : bool :=
  match s with
  | "" => true
  | String c s' =>
      if Py.is_space c
      then (Py.code c =? 32)%N && negb after_space && single_spaced true s'
      else single_spaced false s'
  end.

(** *** Measures for the further properties of the extractor *)

(** The rows of the pages [pgs] whose quantity text, stripped, passes
    [isdigit]; a page index out of range has none. *)
Definition digit_rows (doc : Document) (pgs : list nat) : list Row :=
  pgs ≫= λ p,
    match doc !! p with
    | Some page => filter (λ row, Py.isdigit (Py.strip (qty_text row)) = true) (page_rows page)
    | None => []
    end.

(** An item as the extractor builds it: type and promotion are stripped
    and not empty. *)
Definition item_fields_ok (it : ItemRecord) : Prop :=
  it_type it ≠ "" ∧ it_promo it ≠ "" ∧
  Py.strip (it_type it) = it_type it ∧ Py.strip (it_promo it) = it_promo it.

(** All the items of the stores, in order. *)
Definition all_items (stores : list StoreRecord) : list ItemRecord :=
  stores ≫= items.

(** The promotion text, as written, of the first qualifying item of [its]
    whose canonical promotion is [p]. *)
Definition first_spelling (p : string) (its : list ItemRecord) : option string :=
  it_promo <$> head (filter (λ it, qualifying_item it = true ∧ canon (it_promo it) = p) its).

(** There is a header page at or before index [j]. *)
Definition after_header (doc : Document) (j : nat) : bool :=
  existsb (header_at doc) (seq 0 (S j)).

(** *** Loop invariants of the extraction and of the indexing *)

(** The invariant of the loops on the fields: the items are well formed,
    and so is the sign type that is carried along. *)
Definition extract_fields_inv (st : ExtractState) : Prop :=
  Forall item_fields_ok (ex_items st) ∧
  ∀ t, ex_last_type st = Some t → t ≠ "" ∧ Py.strip t = t.

(** The pages handed out so far, and the number of stores begun so far. *)
Definition share_inv (doc : Document) (i : nat) (st : IndexState) : Prop :=
  concat (pages <$> ix_stores st) ++ default [] (ix_current st)
    = filter (λ j, usable_at doc j = true ∧ after_header doc j = true) (seq 0 i) ∧
  length (ix_stores st) + length (option_list (ix_current st))
    = length (filter (λ j, header_at doc j = true) (seq 0 i)) ∧
  (is_Some (ix_current st) ↔ ∃ h, h < i ∧ header_at doc h = true).

(** ** Packaging: store numbers, special signage and the order of stores *)

(** [STORE_TYPE_ORDER], lines 89-100, and [STORE_TYPE_RANK], line 101: the
    dictionary comprehension writes the entries in the order of the list,
    so a later position would replace an earlier one. *)
Definition STORE_TYPE_ORDER : list string :=
  [ "Alcohol Counter + Shipper";
    "Alcohol Counter";
    "Alcohol Shipper";
    "Alcohol No Counter/Shipper";
    "Non-Alcohol Counter + Shipper";
    "Non-Alcohol Counter";
    "Non-Alcohol Shipper";
    "Non-Alcohol No Counter/Shipper";
    "Counter + Shipper"; "Counter"; "Shipper"; "No Counter/Shipper";
    "" ].

Definition rank_of (order : list string) : gmap string Z :=
  fold_left (λ m it, <[it.2 := Z.of_nat it.1]> m) (zip (seq 0 (length order)) order) ∅.

Definition STORE_TYPE_RANK : gmap string Z := rank_of STORE_TYPE_ORDER.

(** [SPECIAL_SIGNAGE_LABELS] and [SPECIAL_SIGNAGE_LABEL_ORDER], lines
    103-112. *)
Definition SPECIAL_SIGNAGE_LABELS : list (string * list string) :=
  [ ("Banner Sign", ["banner sign"]);
    ("Yard Sign", ["yard sign"]);
    ("A Frame", ["a frame"; "a-frame"]);
    ("Bollard Cover", ["bollard cover"]);
    ("Pole Sign", ["pole sign"]);
    ("Easel Sign", ["easel sign"]) ].

Definition SPECIAL_SIGNAGE_LABEL_ORDER : list string := SPECIAL_SIGNAGE_LABELS.*1.

(** [_STORE_NUM_RE.search(value)], line 898: the first place where a
    capital letter is followed by four digits, and the five characters
    there. *)
Fixpoint store_num_search (s : string) : option string :=
  if store_number_here s then Some (String.substring 0 5 s)
  else match s with
       | "" => None
       | String _ s' => store_num_search s'
       end.

(** [extract_store_number], lines 900-914.  An empty value is skipped (and
    has no match either); an absent ['store'] of [meta] reads as [''] . *)
Definition extract_store_number (s : StoreRecord) : string :=
  match store_num_search (store_name s) with
  | Some m => m
  | None =>
      match store_num_search (store_id s) with
      | Some m => m
      | None =>
          match store_num_search (default "" (meta s !! "store")) with
          | Some m => m
          | None => store_name s
          end
      end
  end.

(** [types], line 920: the set of the canonical sign types of the items
    that have a sign type. *)
Definition item_types (its : list ItemRecord) : gset string :=
  list_to_set (canon <$> filter (λ t, t ≠ "") (it_type <$> its)).

(** The loops of lines 921-926 over the labels, the needles of a label and
    the set [types], which is walked in the order of its elements. *)
Fixpoint first_label (labels : list (string * list string)) (types : list string)
  : option string :=
  match labels with
  | [] => None
  | (label, needles) :: labels' =>
      if existsb (λ needle, existsb (Py.contains needle) types) needles
      then Some label
      else first_label labels' types
  end.

(** [detect_special_box_label], lines 916-926. *)
Definition detect_special_box_label (s : StoreRecord) : option string :=
  match items s with
  | [] => None
  | its => first_label SPECIAL_SIGNAGE_LABELS (elements (item_types its))
  end.

(** [store_sort_key], lines 1029-1031, and [<] on its triples: the first
    components that differ decide. *)
Definition store_sort_key (s : StoreRecord) : Z * string * string :=
  (default 999%Z (STORE_TYPE_RANK !! store_type s), location s, store_name s).

Definition key_lt (a b : Z * string * string) : bool :=
  if (a.1.1 =? b.1.1)%Z then
    match String.compare a.1.2 b.1.2 with
    | Lt => true
    | Eq => Py.str_lt a.2 b.2
    | Gt => false
    end
  else (a.1.1 <? b.1.1)%Z.

(** [sorted(stores, key=store_sort_key)], lines 1032-1033. *)
Definition sort_stores (stores : list StoreRecord) : list StoreRecord :=
  Py.sorted (λ a b, key_lt (store_sort_key a) (store_sort_key b)) stores.

(** The loop of lines 1034-1041 on one store: [box_special] and
    [box_general].  [None] is the [KeyError] of [box_special[label]] for a
    label that is no key.  (No label is the empty string, so [if label]
    asks whether there is one.) *)
Definition box_step (acc : gmap string (list StoreRecord) * list StoreRecord)
    (s : StoreRecord) : option (gmap string (list StoreRecord) * list StoreRecord) :=
  let '(box_special, box_general) := acc in
  match detect_special_box_label s with
  | Some label =>
      if String.eqb label "" then Some (box_special, box_general ++ [s])
      else (λ l, (<[label := l ++ [s]]> box_special, box_general)) <$> box_special !! label
  | None => Some (box_special, box_general ++ [s])
  end.

Definition box_split (not_fits_sorted : list StoreRecord)
  : option (gmap string (list StoreRecord) * list StoreRecord) :=
  foldl (λ acc s, acc ≫= λ a, box_step a s)
        (Some (list_to_map ((λ label, (label, [])) <$> SPECIAL_SIGNAGE_LABEL_ORDER), []))
        not_fits_sorted.

(** The loop of lines 1052-1060 on one store: [seen_no_order] and
    [no_order_display]; and [no_order_line], line 1061. *)
Definition no_order_candidate (s : StoreRecord) : string :=
  let candidate := Py.strip (extract_store_number s) in
  if String.eqb candidate "" then Py.strip (store_name s) else candidate.

Definition no_order_add (acc : gset string * list string) (s : StoreRecord)
  : gset string * list string :=
  let candidate := no_order_candidate s in
  if negb (String.eqb candidate "") && negb (bool_decide (candidate ∈ acc.1))
  then ({[ candidate ]} ∪ acc.1, acc.2 ++ [candidate])
  else acc.

Definition no_order_display (no_order_stores : list StoreRecord) : list string :=
  (fold_left no_order_add no_order_stores (∅, [])).2.

Fixpoint join_comma (l : list string) : string :=
  match l with
  | [] => ""
  | [s] => s
  | s :: l' => s +:+ ", " +:+ join_comma l'
  end.

Definition no_order_line (no_order_stores : list StoreRecord) : string :=
  match no_order_display no_order_stores with
  | [] => "None"
  | l => join_comma l
  end.

(** Some item of [its] has a sign type whose canonical form contains one
    of [needles]. *)
Definition has_sign (needles : list string) (its : list ItemRecord) : bool :=
  existsb (λ it, negb (String.eqb (it_type it) "")
                 && existsb (λ needle, Py.contains needle (canon (it_type it))) needles) its.

(** A capital letter and four digits, and nothing else. *)
Definition is_store_number (s : string) : bool :=
  store_number_here s && (String.length s =? 5).

(** ** The text of a store: its header fields and its classification *)

(** The kit markers, lines 78-81. *)
Definition KIT_COUNTER : string := "*CANDY; COUNTER KIT*".
Definition KIT_SHIPPER : string := "*CANDY; SHIPPER KIT*".
Definition KIT_ALC : string := "*Shelf Wobbler Kit; Alcohol Version*".
Definition KIT_NONALC : string := "*Shelf Wobbler Kit; Non-Alcohol Version*".

(** The two text analyses of [index_stores], which the model of the
    indexing takes as parameters. *)
Module Header.

(** *** Lines *)

(** The characters at which [str.splitlines] breaks a line: LF, VT, FF,
    CR, FS, GS, RS and NEL. *)
Definition is_linebreak (c : ascii) : bool :=
  Py.in_range 10 13 c || Py.in_range 28 30 c || (Py.code c =? 133)%N.

(** [text.splitlines()]: CR LF is one break, and a break at the end opens
    no further line. *)
Fixpoint splitlines (s : string) : list string :=
  match s with
  | "" => []
  | String c s' =>
      if is_linebreak c then
        "" :: match s' with
              | String c' s'' =>
                  if (Py.code c =? 13)%N && (Py.code c' =? 10)%N
                  then splitlines s'' else splitlines s'
              | "" => []
              end
      else
        match splitlines s' with
        | [] => [String c ""]
        | line :: lines => String c line :: lines
        end
  end.

(** [s] without its first [n] characters. *)
Fixpoint sdrop (n : nat) (s : string) : string :=
  match n, s with
  | S n', String _ s' => sdrop n' s'
  | _, _ => s
  end.

(** [line.split(k)[-1]] for a non-empty [k]: the separators are found from
    the left, one after the end of the other, and the last piece is what
    follows the last of them.  [skip] counts the characters that still
    belong to the separator just found; the result is [None] when no
    separator starts in [s] after them. *)
Fixpoint split_last_from (k : string) (skip : nat) (s : string) : option string :=
  match s with
  | "" => None
  | String _ s' =>
      match skip with
      | S n => split_last_from k n s'
      | 0 =>
          if String.prefix k s
          then Some (default (sdrop (String.length k) s)
                             (split_last_from k (String.length k - 1) s'))
          else split_last_from k 0 s'
      end
  end.

Definition split_last (k s : string) : string := default s (split_last_from k 0 s).

(** *** The location *)

(** [\w] of [re] on [str] patterns, for the code points below 256: the
    letters, the digits and numbers, and the underscore. *)
Definition is_word (c : ascii) : bool :=
  Py.in_range 48 57 c || Py.in_range 65 90 c || (Py.code c =? 95)%N
  || Py.in_range 97 122 c || (Py.code c =? 170)%N || Py.in_range 178 179 c
  || (Py.code c =? 181)%N || Py.in_range 185 186 c || Py.in_range 188 190 c
  || Py.in_range 192 214 c || Py.in_range 216 246 c || Py.in_range 248 255 c.

(** [\b] between the character [prev] (if any) and the head of [s] (if
    any): exactly one of the two is a word character. *)
Definition boundary (prev : option ascii) (s : string) : bool :=
  xorb (from_option is_word false prev)
       (match s with String c _ => is_word c | "" => false end).

(** A letter of a pattern against a character under [re.I]. *)
Definition ci_eq (c d : ascii) : bool :=
  Ascii.eqb (Py.lower_char c) (Py.lower_char d).

(** The literal [lit] at the head of [s] under [re.I]: the text matched,
    its last character (or [prev] for the empty literal) and the rest. *)
Fixpoint match_ci (lit s : string) (prev : option ascii)
  : option (string * option ascii * string) :=
  match lit with
  | "" => Some ("", prev, s)
  | String c lit' =>
      match s with
      | String d s' =>
          if ci_eq c d
          then (λ r, (String d r.1.1, r.1.2, r.2)) <$> match_ci lit' s' (Some d)
          else None
      | "" => None
      end
  end.

Definition LOCATION_NAMES : list string :=
  ["NY"; "PA"; "OH"; "New York"; "Pennsylvania"; "Ohio"].

(** [\b(NY|PA|OH|New York|Pennsylvania|Ohio)\b] at the head of [s], under
    [re.I]: the alternatives are tried in their order, and one counts when
    a boundary follows it. *)
Fixpoint first_alternative (alts : list string) (prev : option ascii) (s : string)
  : option string :=
  match alts with
  | [] => None
  | lit :: alts' =>
      match match_ci lit s prev with
      | Some (m, last, rest) =>
          if boundary last rest then Some m else first_alternative alts' prev s
      | None => first_alternative alts' prev s
      end
  end.

Definition location_here (prev : option ascii) (s : string) : option string :=
  if boundary prev s then first_alternative LOCATION_NAMES prev s else None.

(** [re.search(...)], line 409: the match at the first offset that has
    one. *)
Fixpoint location_search (prev : option ascii) (s : string) : option string :=
  match location_here prev s with
  | Some m => Some m
  | None =>
      match s with
      | "" => None
      | String c s' => location_search (Some c) s'
      end
  end.

(** [str.upper] on the characters that a match of line 409 can hold, the
    letters A-Z and a-z and the space. *)
Definition upper_char (c : ascii) : ascii :=
  if Py.in_range 97 122 c then Ascii.ascii_of_N (Py.code c - 32) else c.

Fixpoint upper (s : string) : string :=
  match s with
  | "" => ""
  | String c s' => String (upper_char c) (upper s')
  end.

(** [map_.get(nm, nm)], lines 412-413. *)
Definition location_code (nm : string) : string :=
  if String.eqb nm "NEW YORK" then "NY"
  else if String.eqb nm "PENNSYLVANIA" then "PA"
  else if String.eqb nm "OHIO" then "OH"
  else nm.

(** *** [extract_store_info], lines 396-416 *)

(** The body of the loop on one line that does not hold ['Sign Type']. *)
Definition info_step (out : gmap string string) (line : string) : gmap string string :=
  if Py.contains "Store:" line then
    <["store" := Py.strip (split_last "Store:" line)]> out
  else if Py.contains "Area:" line then
    <["area" := Py.strip (split_last "Area:" line)]> out
  else if Py.contains "Class:" line then
    <["class" := Py.strip (split_last "Class:" line)]> out
  else
    match location_search None line with
    | Some m =>
        match out !! "location" with
        | Some _ => out
        | None => <["location" := location_code (upper m)]> out
        end
    | None => out
    end.

Fixpoint info_lines (out : gmap string string) (lines : list string) : gmap string string :=
  match lines with
  | [] => out
  | line :: lines' =>
      if Py.contains "Sign Type" line then out
      else info_lines (info_step out line) lines'
  end.

Definition extract_store_info (text : string) : gmap string string :=
  info_lines ∅ (splitlines text).

(** *** [clean_text_for_kits], lines 418-424 *)

(** The pattern [\s*c1\s*c2...\s*cn] at the head of [s] under [re.I], for
    characters [c1], ..., [cn] that are no whitespace: the rest of [s]
    after the match.  (A greedy [\s*] before a character that is no
    whitespace takes all the whitespace there is; the doubled [\s*\s*] of
    two of the patterns matches what one [\s*] matches.) *)
Fixpoint match_spaced (pat : list ascii) (s : string) : option string :=
  match pat with
  | [] => Some s
  | c :: pat' =>
      match Py.ldrop Py.is_space s with
      | String d s' => if ci_eq c d then match_spaced pat' s' else None
      | "" => None
      end
  end.

(** [re.sub(pattern, repl, s, flags=re.I)] for such a pattern, which
    matches no empty text: the matches are found from the left, one after
    the end of the other.  [skip] counts the characters that still belong
    to the match just replaced. *)
Fixpoint sub_spaced (pat : list ascii) (repl : string) (skip : nat) (s : string) : string :=
  match s with
  | "" => ""
  | String c s' =>
      match skip with
      | S n => sub_spaced pat repl n s'
      | 0 =>
          match match_spaced pat s with
          | Some rest =>
              repl +:+ sub_spaced pat repl (String.length s' - String.length rest) s'
          | None => String c (sub_spaced pat repl 0 s')
          end
      end
  end.

(** The characters of the four patterns. *)
Definition PAT_COUNTER : list ascii := String.list_ascii_of_string "*CANDY;COUNTERKIT*".
Definition PAT_SHIPPER : list ascii := String.list_ascii_of_string "*CANDY;SHIPPERKIT*".
Definition PAT_ALC : list ascii := String.list_ascii_of_string "*ShelfWobblerKit;AlcoholVersion*".
Definition PAT_NONALC : list ascii :=
  String.list_ascii_of_string "*ShelfWobblerKit;Non-AlcoholVersion*".

Definition clean_text_for_kits (text : string) : string :=
  let t := Py.collapse_ws text in
  let t := sub_spaced PAT_COUNTER KIT_COUNTER 0 t in
  let t := sub_spaced PAT_SHIPPER KIT_SHIPPER 0 t in
  let t := sub_spaced PAT_ALC KIT_ALC 0 t in
  sub_spaced PAT_NONALC KIT_NONALC 0 t.

(** *** [classify_store], lines 426-449 *)

Record Classification := mkClassification {
  cl_store_type : string;
  is_counter : bool;
  is_shipper : bool;
  is_alcohol : bool;
  is_non_alcohol : bool
}.

Definition classify_store (accum_text : string) : Classification :=
  let t := clean_text_for_kits accum_text in
  let is_counter := Py.contains KIT_COUNTER t in
  let is_shipper := Py.contains KIT_SHIPPER t in
  let is_alcohol := Py.contains KIT_ALC t in
  let is_nonalcohol := Py.contains KIT_NONALC t && negb is_alcohol in
  let alc := if is_alcohol then "Alcohol"
             else if is_nonalcohol then "Non-Alcohol" else "" in
  let store_type :=
    if is_counter && is_shipper then alc +:+ " Counter + Shipper"
    else if is_counter then alc +:+ " Counter"
    else if is_shipper then alc +:+ " Shipper"
    else alc +:+ " No Counter/Shipper" in
  mkClassification (Py.strip store_type) is_counter is_shipper is_alcohol is_nonalcohol.

End Header.


(** No character of [s] is an asterisk. *)
Definition star_free (s : string) : bool := Py.all_chars (λ c, negb (Py.is_star c)) s.



(** The line feed, and a text without line breaks. *)
Definition LF : ascii := Ascii.ascii_of_nat 10.

Definition one_line (s : string) : bool :=
  Py.all_chars (λ c, negb (Header.is_linebreak c)) s.


(** ** Blackout of rows *)

(** The blackout configuration, [blackout_config.json]: sign types with
    their lists of promotions, in the order of the file. *)
Abbreviation BlackoutConfig := (list (string * list string)).

(** [canon_map], line 523: the comprehension writes the entries in their
    order, so of two sign types with one canonical form the later one
    stays. *)
Definition canon_map (blackout_cfg : BlackoutConfig) : gmap string (gset string) :=
  fold_left (λ m e, <[canon e.1 := list_to_set (canon <$> e.2)]> m) blackout_cfg ∅.

(** The loop of lines 526-536 over the rows that [iter_rows] yields for
    the band below the table header: for every row, whether a black
    rectangle is drawn over it (the drawing itself is taken to
    succeed). *)
Fixpoint blackout_rows (cm : gmap string (gset string)) (last_type : option string)
    (rows : list Row) : list bool :=
  match rows with
  | [] => []
  | row :: rows' =>
      let st_this := canon (type_text row) in
      let st := if String.eqb st_this "" then last_type else Some st_this in
      let pv := canon (promo_text row) in
      let last_type' := if String.eqb st_this "" then last_type else Some st_this in
      let drawn :=
        match st with
        | None => false
        | Some st =>
            if String.eqb st "" || String.eqb pv "" then false
            else match cm !! st with
                 | Some pvs => bool_decide (pv ∈ pvs)
                 | None => false
                 end
        end in
      drawn :: blackout_rows cm last_type' rows'
  end.

(** [blackout_rows_on_page], lines 516-540. *)
Definition blackout_rows_on_page (blackout_cfg : BlackoutConfig) (rows : list Row)
  : list bool :=
  match blackout_cfg with
  | [] => (λ _, false) <$> rows
  | _ => blackout_rows (canon_map blackout_cfg) None rows
  end.

(** The loop of lines 591-605, and [blackout_nonalc_wobbler_row_on_page],
    lines 584-609. *)
Fixpoint blackout_nonalc_rows (last_type : option string) (rows : list Row) : list bool :=
  match rows with
  | [] => []
  | row :: rows' =>
      let st_this := canon (type_text row) in
      let last_type' := if String.eqb st_this "" then last_type else Some st_this in
      let pv := canon (promo_text row) in
      let drawn :=
        match last_type' with
        | None => false
        | Some st =>
            if String.eqb st "" || String.eqb pv "" then false
            else
              let is_nonalc :=
                String.eqb pv PROMO_WOBBLER_NONALC_CANON
                || (Py.contains "non" pv && Py.contains "alcohol" pv
                    && Py.contains "wobbler" pv) in
              String.eqb st TYPE_SHELF_WOBBLER_CANON && is_nonalc
        end in
      drawn :: blackout_nonalc_rows last_type' rows'
  end.

Definition blackout_nonalc_wobbler_row_on_page (rows : list Row) : list bool :=
  blackout_nonalc_rows None rows.

(** The sign type that a row stands under: the canonical sign type of the
    last row, up to the row itself, that has one. *)
Definition carried_type (rows : list Row) (i : nat) : option string :=
  last (filter (λ t, t ≠ "") ((λ r, canon (type_text r)) <$> take (S i) rows)).

(** The promotions of the last entry of the configuration whose sign type
    has the canonical form [st]. *)
Definition rule_for (blackout_cfg : BlackoutConfig) (st : string) : option (list string) :=
  snd <$> last (filter (λ e, canon e.1 = st) blackout_cfg).

(** ** The pages of a group of stores *)

(** What [render_store_group] does to the output document, in order: a
    page is added, a heading is drawn on the page just added, the page
    [p] of the source is copied to the end, and the copy is worked on
    (each of these is taken to succeed). *)
Inductive RenderOp :=
  | RNewPage
  | RHeading (text : string) (fontsize : Z)
  | RInsertPage (p : nat)
  | RBlackoutRows
  | RBlackoutNonAlc
  | RHighlight (needle : string)
  | RAnnotate (kit_name : string).

(** The body of the loop of lines 942-951 for the page [p] of a store. *)
Definition render_page (drop : option bool) (kit_name : option string) (p : nat)
  : list RenderOp :=
  [RInsertPage p; RBlackoutRows]
  ++ (if bool_decide (drop = Some true) then [RBlackoutNonAlc] else [])
  ++ [RHighlight KIT_COUNTER; RHighlight KIT_SHIPPER]
  ++ match kit_name with
     | Some k => if String.eqb k "" then [] else [RAnnotate k]
     | None => []
     end.

(** The loop of lines 934-951, with [current_type]. *)
Fixpoint render_stores (kit_by_store_id : gmap string string) (current_type : option string)
    (stores : list StoreRecord) : list RenderOp :=
  match stores with
  | [] => []
  | store :: stores' =>
      let kit_name := kit_by_store_id !! store_id store in
      (if decide (Some (store_type store) = current_type) then []
       else [RNewPage;
             RHeading (if String.eqb (store_type store) ""
                       then "Store Type: (Unspecified)"
                       else "Store Type: " +:+ store_type store) 16])
      ++ (pages store ≫= render_page (drop_nonalc_wobbler store) kit_name)
      ++ render_stores kit_by_store_id (Some (store_type store)) stores'
  end.

(** [render_store_group], lines 928-951. *)
Definition render_store_group (stores : list StoreRecord)
    (kit_by_store_id : gmap string string) (section_title : string) : list RenderOp :=
  match stores with
  | [] => []
  | _ => [RNewPage; RHeading section_title 18]
         ++ render_stores kit_by_store_id None stores
  end.

(** The source pages copied, and the store types announced, by a list of
    operations. *)
Definition copied_pages (ops : list RenderOp) : list nat :=
  omap (λ op, match op with RInsertPage p => Some p | _ => None end) ops.

Definition type_headings (ops : list RenderOp) : list string :=
  omap (λ op, match op with
              | RHeading text 16 => Some text
              | _ => None
              end) ops.

(** The first elements of the runs of equal elements of a list. *)
Fixpoint run_heads (prev : option string) (l : list string) : list string :=
  match l with
  | [] => []
  | x :: l' => (if decide (Some x = prev) then [] else [x]) ++ run_heads (Some x) l'
  end.

Definition heading_text (store_type : string) : string :=
  if String.eqb store_type "" then "Store Type: (Unspecified)"
  else "Store Type: " +:+ store_type.

Definition type_rank (t : string) : Z := default 999%Z (STORE_TYPE_RANK !! t).

(** ** Layout of a list of names *)

(** The cells that the loops of lines 875-885 of [draw_multicolumn_list]
    fill for a chunk of [n] names, in the order in which they are drawn:
    the row, the column and the index [r + c*rows_fit] of the name. *)
Definition grid_cells (rows_fit columns n : nat) : list (nat * nat * nat) :=
  r ← seq 0 rows_fit;
  c ← seq 0 columns;
  let idx := r + c * rows_fit in
  if decide (n ≤ idx) then [] else [(r, c, idx)].

Section Ellipsize.

(** [fitz.get_text_length(text, fontname="helv", fontsize=fontsize)], the
    width of a text at the font size of the call, and the one-character
    text of the ellipsis, U+2026. *)
Variable get_text_length : string → float.
Variable ellipsis : string.

(** The text whose characters are [rt], last character first. *)
Definition text_of_rev (rt : list ascii) : string := String.string_of_list_ascii (rev rt).

(** The loop of lines 846-847 on [t], given by its characters from the
    last to the first: [t[:-1]] is the tail of that list. *)
Fixpoint trim_to_width (max_width : float) (rt : list ascii) : list ascii :=
  match rt with
  | [] => []
  | _ :: rt' =>
      if PrimFloat.ltb max_width (get_text_length (text_of_rev rt +:+ ellipsis))
      then trim_to_width max_width rt'
      else rt
  end.

(** [_ellipsize_to_width], lines 839-848. *)
Definition _ellipsize_to_width (text : string) (max_width : float) : string :=
  if PrimFloat.leb (get_text_length text) max_width then text
  else if PrimFloat.ltb max_width (get_text_length ellipsis) then ""
  else text_of_rev (trim_to_width max_width (rev (String.list_ascii_of_string text)))
       +:+ ellipsis.

End Ellipsize.

(** * Properties *)

(** ** Canonicalisation *)

Example canon_kit :
  canon "  *Shelf   Wobbler Kit; Alcohol Version* " = "shelf wobbler kit; alcohol version".
Proof. reflexivity. Qed.

(** C5 (the code departs from it): [canon] is not idempotent.  On
    ["* a *"] the whitespace is stripped before the asterisks are, so the
    spaces inside the asterisks survive the first pass and only the second
    pass removes them. *)
Lemma canon_twice_differs :
  canon "* a *" = " a " ∧ canon (canon "* a *") = "a" ∧
  canon (canon "* a *") ≠ canon "* a *".
Proof. repeat split; [reflexivity .. | discriminate]. Qed.

(** The fixed points of [canon].  A canonical form is lower case, single
    spaced and without an asterisk at either end; it is a fixed point
    exactly when, besides, it has no space at either end. *)

Lemma lower_char_idem (c : ascii) : Py.lower_char (Py.lower_char c) = Py.lower_char c.
Proof. destruct c as [[] [] [] [] [] [] [] []]; reflexivity. Qed.

Lemma lower_char_space (c : ascii) : Py.is_space (Py.lower_char c) = Py.is_space c.
Proof. destruct c as [[] [] [] [] [] [] [] []]; reflexivity. Qed.

Lemma lower_char_code_32 (c : ascii) :
  (Py.code (Py.lower_char c) =? 32)%N = (Py.code c =? 32)%N.
Proof. destruct c as [[] [] [] [] [] [] [] []]; reflexivity. Qed.

Lemma lower_char_star (c : ascii) : Py.is_star (Py.lower_char c) = Py.is_star c.
Proof. destruct c as [[] [] [] [] [] [] [] []]; reflexivity. Qed.

Lemma star_not_space (c : ascii) : Py.is_star c = true → Py.is_space c = false.
Proof. destruct c as [[] [] [] [] [] [] [] []]; simpl; done. Qed.

Lemma lower_idem (s : string) : Py.lower (Py.lower s) = Py.lower s.
Proof. induction s as [|c s IH]; simpl; [done|]. by rewrite lower_char_idem, IH. Qed.

Lemma lower_length (s : string) : String.length (Py.lower s) = String.length s.
Proof. induction s as [|c s IH]; simpl; [done|]. by rewrite IH. Qed.

Lemma lower_first_char (p : ascii → bool) (s : string) :
  (∀ c, p (Py.lower_char c) = p c) →
  first_char_is p (Py.lower s) = first_char_is p s.
Proof. intros Hp. destruct s; simpl; [done|apply Hp]. Qed.

Lemma lower_last_char (p : ascii → bool) (s : string) :
  (∀ c, p (Py.lower_char c) = p c) →
  last_char_is p (Py.lower s) = last_char_is p s.
Proof.
  intros Hp. induction s as [|c s IH]; [done|].
  destruct s as [|c' s]; [apply Hp|]. exact IH.
Qed.

Lemma lower_single_spaced (s : string) : ∀ b,
  single_spaced b (Py.lower s) = single_spaced b s.
Proof.
  induction s as [|c s IH]; intros b; simpl; [done|].
  by rewrite lower_char_space, lower_char_code_32, !IH.
Qed.

Lemma ldrop_length (p : ascii → bool) (s : string) :
  String.length (Py.ldrop p s) ≤ String.length s.
Proof. induction s as [|c s IH]; simpl; [done|]. destruct (p c); simpl; lia. Qed.

Lemma ldrop_length_lt (p : ascii → bool) (s : string) :
  first_char_is p s = true → String.length (Py.ldrop p s) < String.length s.
Proof.
  destruct s as [|c s]; simpl; [done|]. intros ->.
  pose proof (ldrop_length p s). lia.
Qed.

Lemma ldrop_id (p : ascii → bool) (s : string) :
  first_char_is p s = false → Py.ldrop p s = s.
Proof. destruct s as [|c s]; simpl; [done|]. by intros ->. Qed.

Lemma ldrop_first_char (p : ascii → bool) (s : string) :
  first_char_is p (Py.ldrop p s) = false.
Proof.
  induction s as [|c s IH]; simpl; [done|].
  destruct (p c) eqn:E; [done|]. simpl. exact E.
Qed.

Lemma rdrop_cons (p : ascii → bool) (c : ascii) (s : string) :
  Py.rdrop p (String c s) =
  if String.eqb (Py.rdrop p s) "" then (if p c then "" else String c "")
  else String c (Py.rdrop p s).
Proof. simpl. by destruct (Py.rdrop p s). Qed.

Lemma rdrop_length (p : ascii → bool) (s : string) :
  String.length (Py.rdrop p s) ≤ String.length s.
Proof.
  induction s as [|c s IH]; [done|]. rewrite rdrop_cons.
  destruct (String.eqb _ _); [destruct (p c)|]; simpl; lia.
Qed.

Lemma rdrop_length_lt (p : ascii → bool) (s : string) :
  last_char_is p s = true → String.length (Py.rdrop p s) < String.length s.
Proof.
  induction s as [|c s IH]; [done|]. rewrite rdrop_cons.
  destruct s as [|c' s].
  - simpl. intros ->. simpl. lia.
  - intros Hl. specialize (IH Hl).
    destruct (String.eqb _ _); [destruct (p c)|]; simpl in *; lia.
Qed.

Lemma rdrop_id (p : ascii → bool) (s : string) :
  last_char_is p s = false → Py.rdrop p s = s.
Proof.
  induction s as [|c s IH]; [done|]. rewrite rdrop_cons.
  destruct s as [|c' s].
  - simpl. by intros ->.
  - intros Hl. rewrite (IH Hl). done.
Qed.

Lemma rdrop_last_char (p : ascii → bool) (s : string) :
  last_char_is p (Py.rdrop p s) = false.
Proof.
  induction s as [|c s IH]; [done|]. rewrite rdrop_cons.
  destruct (Py.rdrop p s) as [|c' r] eqn:E; simpl.
  - destruct (p c) eqn:Ep; [done|]. simpl. exact Ep.
  - exact IH.
Qed.

Lemma rdrop_first_char (p q : ascii → bool) (s : string) :
  first_char_is q s = false → first_char_is q (Py.rdrop p s) = false.
Proof.
  destruct s as [|c s]; [done|]. rewrite rdrop_cons. simpl. intros Hq.
  destruct (String.eqb _ _); [destruct (p c)|]; simpl; done.
Qed.

Lemma collapse_length (s : string) : ∀ b,
  String.length (Py.collapse_from b s) ≤ String.length s.
Proof.
  induction s as [|c s IH]; intros b; simpl; [done|].
  destruct (Py.is_space c); [destruct b|]; simpl;
    [pose proof (IH true)|pose proof (IH true)|pose proof (IH false)]; lia.
Qed.

Lemma collapse_single_spaced (s : string) : ∀ b,
  single_spaced b (Py.collapse_from b s) = true.
Proof.
  induction s as [|c s IH]; intros b; simpl; [done|].
  destruct (Py.is_space c) eqn:E; [destruct b|]; simpl.
  - apply IH.
  - apply IH.
  - rewrite E. apply IH.
Qed.

Lemma collapse_id (s : string) : ∀ b,
  single_spaced b s = true → Py.collapse_from b s = s.
Proof.
  induction s as [|c s IH]; intros b; simpl; [done|].
  destruct (Py.is_space c) eqn:E.
  - intros [[Hc Hb%negb_true_iff]%andb_true_iff Hs]%andb_true_iff. subst b.
    rewrite (IH true Hs). f_equal. apply N.eqb_eq in Hc.
    unfold Py.code in Hc. rewrite <- (Ascii.ascii_N_embedding c), Hc. reflexivity.
  - intros Hs. by rewrite (IH false Hs).
Qed.

Lemma single_spaced_weaken (s : string) :
  single_spaced true s = true → single_spaced false s = true.
Proof.
  destruct s as [|c s]; simpl; [done|].
  destruct (Py.is_space c); [|done]. rewrite andb_false_r. done.
Qed.

Lemma ldrop_star_single_spaced (s : string) :
  single_spaced false s = true → single_spaced false (Py.ldrop Py.is_star s) = true.
Proof.
  induction s as [|c s IH]; simpl; [done|].
  destruct (Py.is_star c) eqn:E; [|done].
  rewrite (star_not_space c E). exact IH.
Qed.

Lemma rdrop_single_spaced (p : ascii → bool) (s : string) : ∀ b,
  single_spaced b s = true → single_spaced b (Py.rdrop p s) = true.
Proof.
  induction s as [|c s IH]; intros b; [done|]. rewrite rdrop_cons.
  cbn [single_spaced]. destruct (Py.is_space c) eqn:E.
  - intros [Hcb Hs]%andb_true_iff.
    destruct (String.eqb _ _); [destruct (p c)|]; cbn [single_spaced]; rewrite ?E; try done.
    + by rewrite Hcb.
    + by rewrite Hcb, (IH true Hs).
  - intros Hs.
    destruct (String.eqb _ _); [destruct (p c)|]; cbn [single_spaced]; rewrite ?E; try done.
    by apply IH.
Qed.

Lemma canon_shape (s : string) :
  Py.lower (canon s) = canon s ∧ single_spaced false (canon s) = true ∧
  first_char_is Py.is_star (canon s) = false ∧ last_char_is Py.is_star (canon s) = false.
Proof.
  unfold canon. destruct (String.eqb s ""); [done|].
  split; [apply lower_idem|]. split; [|split].
  - rewrite lower_single_spaced. unfold Py.trim_stars.
    apply rdrop_single_spaced, ldrop_star_single_spaced, collapse_single_spaced.
  - rewrite lower_first_char by apply lower_char_star.
    apply rdrop_first_char, ldrop_first_char.
  - rewrite lower_last_char by apply lower_char_star. apply rdrop_last_char.
Qed.

Lemma canon_fixed (t : string) :
  Py.lower t = t → single_spaced false t = true →
  first_char_is Py.is_star t = false → last_char_is Py.is_star t = false →
  first_char_is Py.is_space t = false → last_char_is Py.is_space t = false →
  canon t = t.
Proof.
  intros Hl Hs Hf1 Hl1 Hf2 Hl2. unfold canon.
  destruct (String.eqb_spec t "") as [->|_]; [done|].
  unfold Py.strip, Py.collapse_ws, Py.trim_stars.
  rewrite (ldrop_id _ t Hf2), (rdrop_id _ t Hl2), (collapse_id t false Hs).
  by rewrite (ldrop_id _ t Hf1), (rdrop_id _ t Hl1).
Qed.

Lemma canon_length_lt (t : string) :
  first_char_is Py.is_space t = true ∨ last_char_is Py.is_space t = true →
  String.length (canon t) < String.length t.
Proof.
  intros Hsp. unfold canon.
  destruct (String.eqb_spec t "") as [->|_]; [by destruct Hsp|].
  rewrite lower_length. unfold Py.trim_stars, Py.collapse_ws.
  pose proof (rdrop_length Py.is_star
                (Py.ldrop Py.is_star (Py.collapse_from false (Py.strip t)))).
  pose proof (ldrop_length Py.is_star (Py.collapse_from false (Py.strip t))).
  pose proof (collapse_length (Py.strip t) false).
  assert (String.length (Py.strip t) < String.length t); [|lia].
  unfold Py.strip.
  pose proof (rdrop_length Py.is_space (Py.ldrop Py.is_space t)).
  pose proof (ldrop_length Py.is_space t).
  destruct (first_char_is Py.is_space t) eqn:Ef.
  - pose proof (ldrop_length_lt _ t Ef). lia.
  - destruct Hsp as [?|Hl]; [done|].
    rewrite (ldrop_id _ t Ef). by apply rdrop_length_lt.
Qed.

(** X1: [canon] fixes a canonical form exactly when that form has no space
    at either end; otherwise a second pass makes it shorter. *)
Lemma canon_idempotent_iff (s : string) :
  canon (canon s) = canon s ↔
  first_char_is Py.is_space (canon s) = false ∧
  last_char_is Py.is_space (canon s) = false.
Proof.
  split.
  - intros Heq.
    destruct (first_char_is Py.is_space (canon s)) eqn:Ef.
    { pose proof (canon_length_lt (canon s) (or_introl Ef)) as Hlt.
      rewrite Heq in Hlt. lia. }
    destruct (last_char_is Py.is_space (canon s)) eqn:El; [|done].
    pose proof (canon_length_lt (canon s) (or_intror El)) as Hlt.
    rewrite Heq in Hlt. lia.
  - intros [Hf Hl]. destruct (canon_shape s) as (? & ? & ? & ?).
    by apply canon_fixed.
Qed.

(** ** Header pages *)

Lemma store_number_here_spec s :
  store_number_here s = true ↔
  ∃ c d1 d2 d3 d4 post,
    s = String c (String d1 (String d2 (String d3 (String d4 post)))) ∧
    Py.is_upper_AZ c = true ∧ Py.is_decimal d1 = true ∧ Py.is_decimal d2 = true ∧
    Py.is_decimal d3 = true ∧ Py.is_decimal d4 = true.
Proof.
  split.
  - destruct s as [|c [|d1 [|d2 [|d3 [|d4 post]]]]]; simpl; try discriminate.
    rewrite !andb_true_iff. intros [[[[Hc H1] H2] H3] H4].
    exists c, d1, d2, d3, d4, post. done.
  - intros (c & d1 & d2 & d3 & d4 & post & -> & Hc & H1 & H2 & H3 & H4).
    simpl. by rewrite Hc, H1, H2, H3, H4.
Qed.

(** The one character for which a literal pattern does not fail. *)
Ltac next_char c H :=
  destruct c as [[] [] [] [] [] [] [] []]; try (simpl in H; discriminate H).

Lemma header_here_prefix s :
  header_here s = true ↔ ∃ s', s = "Store:" +:+ s' ∧ after_store_colon s' = true.
Proof.
  split.
  - intros H.
    destruct s as [|c1 s]; [discriminate H|]; next_char c1 H.
    destruct s as [|c2 s]; [discriminate H|]; next_char c2 H.
    destruct s as [|c3 s]; [discriminate H|]; next_char c3 H.
    destruct s as [|c4 s]; [discriminate H|]; next_char c4 H.
    destruct s as [|c5 s]; [discriminate H|]; next_char c5 H.
    destruct s as [|c6 s']; [discriminate H|]; next_char c6 H.
    exists s'. done.
  - intros (s' & -> & H). exact H.
Qed.

Lemma after_store_colon_spec s :
  after_store_colon s = true ↔
  ∃ ws rest, s = ws +:+ rest ∧ store_number_here rest = true ∧
    (ws = "" ∨ ∃ w, ws = String w "" ∧ Py.is_space w = true).
Proof.
  split.
  - destruct s as [|c s']; simpl; [discriminate|].
    rewrite orb_true_iff, andb_true_iff. intros [[Hw Hn]|Hn].
    + exists (String c ""), s'. eauto 6.
    + exists "", (String c s'). eauto.
  - intros (ws & rest & -> & Hn & [->|(w & -> & Hw)]).
    + destruct rest as [|c r]; [discriminate|].
      change (Py.is_space c && store_number_here r
              || store_number_here (String c r) = true).
      rewrite Hn. apply orb_true_r.
    + change (Py.is_space w && store_number_here rest
              || store_number_here (String w rest) = true).
      by rewrite Hw, Hn.
Qed.

Lemma header_search_spec text :
  header_search text = true ↔
  ∃ pre rest, text = pre +:+ rest ∧ header_here rest = true.
Proof.
  split.
  - induction text as [|c text IH].
    + simpl. discriminate.
    + intros H. change (header_here (String c text) || header_search text = true) in H.
      apply orb_true_iff in H as [H|H].
      * by exists "", (String c text).
      * destruct (IH H) as (pre & rest & -> & Hr). by exists (String c pre), rest.
  - intros (pre & rest & -> & Hr). induction pre as [|c pre IH].
    + destruct rest; simpl in *; [discriminate|]. by rewrite Hr.
    + change (header_here (String c (pre +:+ rest)) || header_search (pre +:+ rest) = true).
      rewrite IH. apply orb_true_r.
Qed.

(** C3 (as amended): a page is a header page exactly when its text
    contains ["Store:"], then at most one whitespace character (of any
    kind), then one upper-case letter [A]..[Z] and four decimal digits;
    nothing is asked of what follows the digits. *)
Theorem is_header_page_iff (text : string) :
  is_header_page text = true ↔
  ∃ pre ws c d1 d2 d3 d4 post,
    text = pre +:+ "Store:" +:+ ws
               +:+ String c (String d1 (String d2 (String d3 (String d4 post)))) ∧
    (ws = "" ∨ ∃ w, ws = String w "" ∧ Py.is_space w = true) ∧
    Py.is_upper_AZ c = true ∧
    Py.is_decimal d1 = true ∧ Py.is_decimal d2 = true ∧
    Py.is_decimal d3 = true ∧ Py.is_decimal d4 = true.
Proof.
  unfold is_header_page. rewrite header_search_spec. split.
  - intros (pre & rest & -> & Hr).
    apply header_here_prefix in Hr as (s' & -> & Hs).
    apply after_store_colon_spec in Hs as (ws & r & -> & Hn & Hws).
    apply store_number_here_spec in Hn as (c & d1 & d2 & d3 & d4 & post & -> & ?).
    exists pre, ws, c, d1, d2, d3, d4, post. done.
  - intros (pre & ws & c & d1 & d2 & d3 & d4 & post & -> & Hws & Hc).
    exists pre, ("Store:" +:+ ws
                 +:+ String c (String d1 (String d2 (String d3 (String d4 post))))).
    split; [done|].
    apply header_here_prefix. eexists. split; [done|].
    apply after_store_colon_spec. eexists _, _. split; [done|]. split; [|done].
    apply store_number_here_spec. eauto 10.
Qed.

(** C3 (as stated) fails both ways: without the space the code still sees a
    header page, and a lower-case letter after ["Store: "] is not one for
    the code. *)
Lemma header_pattern_differs :
  is_header_page "Store:A1234" = true ∧ spec_is_header_page "Store:A1234" = false ∧
  is_header_page "Store: a1234" = false ∧ spec_is_header_page "Store: a1234" = true.
Proof. repeat split; reflexivity. Qed.

(** ** Column detection *)

Lemma float_eqb_zero x y : PrimFloat.eqb x y = true → is_zero y → is_zero x.
Proof.
  rewrite FloatAxioms.eqb_spec. intros H [s Hs]. rewrite Hs in H.
  destruct (Prim2SF x) as [s'|s'| |s' m e] eqn:E; simpl in H; try discriminate.
  - by exists s'.
  - destruct s'; discriminate.
  - unfold SFeqb, SFcompare in H. destruct s'; discriminate.
Qed.

Lemma float_zero_lt_20 x : is_zero x → PrimFloat.ltb x 20 = true.
Proof. intros [s Hs]. by rewrite FloatAxioms.ltb_spec, Hs. Qed.

Lemma float_20_not_zero : ¬ is_zero 20.
Proof. intros [s Hs]. vm_compute in Hs. discriminate. Qed.

(** The rectangles that stand in for a missing anchor reach down to
    [y1 = 20], so they are true rectangles whatever the page width is. *)
Lemma fallback_rect_truthy (a b : float) : rect_truthy (mkRect a 0 b 20) = true.
Proof.
  unfold rect_truthy, py_max, py_min. cbn [fold_left x0 y0 x1 y1].
  set (m2 := if PrimFloat.ltb (if PrimFloat.ltb a 0 then 0%float else a) b
             then b else if PrimFloat.ltb a 0 then 0%float else a).
  set (mn := if PrimFloat.ltb 20 _ then 20%float else _).
  destruct (PrimFloat.eqb mn 0) eqn:E0; [|by rewrite andb_false_r].
  destruct (PrimFloat.eqb _ mn) eqn:E1; [|done]. exfalso.
  assert (is_zero mn) as Hmn.
  { apply (float_eqb_zero _ 0 E0). by exists false. }
  pose proof (float_eqb_zero _ _ E1 Hmn) as Hmx.
  destruct (PrimFloat.ltb m2 20) eqn:E2.
  - by apply float_20_not_zero.
  - apply float_zero_lt_20 in Hmx. congruence.
Qed.

(** C4 (as amended): on a page where the three searches find nothing, the
    boundaries are 25% and 80% of the page width and [header_bottom] is
    20, the lower edge of the rectangles that stand in for the missing
    anchors. *)
Theorem detect_columns_no_anchor (page : Page) :
  search_for page "Sign Type" = Some [] →
  search_for page "Promotion Name" = Some [] →
  search_for page "Qty Ordered" = Some [] →
  detect_columns page =
    mkColumns (page_width page * 0.25) (page_width page * 0.80) 20.
Proof.
  intros Hs Hp Hq. unfold detect_columns. rewrite Hs, Hp, Hq.
  unfold first_or. cbn [head].
  rewrite !filter_cons. cbn [opt_rect_truthy].
  rewrite !fallback_rect_truthy. reflexivity.
Qed.

Lemma detect_columns_no_anchor_witness :
  detect_columns (plain_page (Some "Store: A1234") []) =
    mkColumns (612 * 0.25) (612 * 0.80) 20.
Proof.
  exact (detect_columns_no_anchor (plain_page (Some "Store: A1234") [])
           eq_refl eq_refl eq_refl).
Defined.

(** C4 (as stated) fails: with no anchor on the page, [header_bottom] is 20
    and not 0. *)
Lemma detect_columns_header_bottom_20 :
  header_bottom (detect_columns (plain_page (Some "Store: A1234") [])) = 20%float ∧
  PrimFloat.eqb (header_bottom (detect_columns (plain_page (Some "Store: A1234") []))) 0
    = false.
Proof. split; reflexivity. Qed.

(** When a search raises, the [except] branch does give 0. *)
Lemma detect_columns_on_exception (page : Page) :
  search_for page "Sign Type" = None →
  detect_columns page =
    mkColumns (page_width page * 0.25) (page_width page * 0.80) 0.
Proof. intros Hs. unfold detect_columns. by rewrite Hs. Qed.


(** ** Item extraction *)

Lemma int_from_nonneg s : ∀ acc q, (0 ≤ acc)%Z → Py.int_from acc s = Some q → (0 ≤ q)%Z.
Proof.
  induction s as [|c s IH]; intros acc q Hacc; simpl.
  - intros [= <-]. done.
  - destruct (Py.is_decimal c); [|discriminate]. apply IH. lia.
Qed.

Lemma int_nonneg s q : Py.int s = Some q → (0 ≤ q)%Z.
Proof. destruct s; [discriminate|]. by apply int_from_nonneg. Qed.

Lemma extract_row_nonneg st row :
  qty_nonneg (ex_items st) → qty_nonneg (result_items (extract_row st row)).
Proof.
  intros H. unfold extract_row.
  repeat (case_match; simpl; try done).
  all: apply Forall_app; split; [done|]; constructor; [|done]; simpl.
  all: by eapply int_nonneg.
Qed.

Lemma extract_rows_nonneg rows : ∀ st,
  qty_nonneg (ex_items st) → qty_nonneg (result_items (extract_rows st rows)).
Proof.
  induction rows as [|row rows IH]; intros st H; simpl; [done|].
  pose proof (extract_row_nonneg st row H) as Hr.
  destruct (extract_row st row); [by apply IH|done].
Qed.

Lemma extract_pages_nonneg doc pgs : ∀ st,
  qty_nonneg (ex_items st) → qty_nonneg (result_items (extract_pages doc st pgs)).
Proof.
  induction pgs as [|p pgs IH]; intros st H; simpl; [done|].
  destruct (doc !! p) as [page|]; [|done].
  pose proof (extract_rows_nonneg (page_rows page) st H) as Hr.
  destruct (extract_rows st (page_rows page)); [by apply IH|done].
Qed.

(** C8 (as amended): no item that [extract_items_from_pages] returns has a
    negative quantity. *)
Theorem extract_items_qty_nonneg (doc : Document) (pgs : list nat) (it : ItemRecord) :
  it ∈ extract_items_from_pages doc pgs → (0 ≤ it_qty it)%Z.
Proof.
  intros Hin.
  assert (qty_nonneg (extract_items_from_pages doc pgs)) as H.
  { apply (extract_pages_nonneg doc pgs (mkExtractState [] None [])). constructor. }
  unfold qty_nonneg in H. rewrite Forall_forall in H. by apply H.
Qed.

Lemma extract_items_qty_nonneg_witness :
  mkItem "Shelf Wobbler" "Widget Promo" 0 ∈ extract_items_from_pages zero_qty_doc [0] ∧
  (0 ≤ it_qty (mkItem "Shelf Wobbler" "Widget Promo" 0))%Z.
Proof.
  assert (mkItem "Shelf Wobbler" "Widget Promo" 0
          ∈ extract_items_from_pages zero_qty_doc [0]) as Hin.
  { vm_compute. constructor. }
  split; [exact Hin|].
  exact (extract_items_qty_nonneg zero_qty_doc [0] _ Hin).
Defined.

(** C8 (as stated) fails: ["0"] passes [isdigit], and the item is appended
    with the quantity 0, which is not positive. *)
Lemma extract_items_zero_qty :
  extract_items_from_pages zero_qty_doc [0] = [mkItem "Shelf Wobbler" "Widget Promo" 0] ∧
  ¬ (0 < it_qty (mkItem "Shelf Wobbler" "Widget Promo" 0))%Z.
Proof. split; [reflexivity|]. simpl. lia. Qed.


(** ** Envelope fit *)

Lemma compute_envelope_fit_lookup stores fit_cfg i s :
  stores !! i = Some s →
  (compute_envelope_fit stores fit_cfg).1 !! i
  = Some (set_fits_envelope (envelope_fit_of (will_fit_set fit_cfg) s) s).
Proof. intros H. unfold compute_envelope_fit. simpl. by rewrite list_lookup_fmap, H. Qed.

Lemma envelope_fit_of_nonempty will s :
  items s ≠ [] →
  (envelope_fit_of will s = true ↔ ∀ it, it ∈ items s → canon (it_type it) ∈ will).
Proof.
  intros Hne. unfold envelope_fit_of.
  destruct (items s) as [|it0 its] eqn:E; [done|].
  rewrite forallb_forall. split.
  - intros H it Hin. eapply bool_decide_eq_true_1. apply H. by apply list_elem_of_In.
  - intros H it Hin. apply bool_decide_eq_true_2. apply H. by apply list_elem_of_In.
Qed.

(** C2: for a store with at least one item, [compute_envelope_fit] sets
    [fits_envelope] to true exactly when the canonical sign type of every
    item is in the canonicalised will-fit set (and the store is then in
    [fits], otherwise in [not_fits]); a store with the sign types A and B
    fits under will-fit {A, B, C} and does not fit under will-fit {A}. *)
Theorem compute_envelope_fit_iff :
  (∀ (stores : list StoreRecord) (fit_cfg : FitConfig) (i : nat) (s : StoreRecord),
     stores !! i = Some s → items s ≠ [] →
     ∃ b : bool,
       (compute_envelope_fit stores fit_cfg).1 !! i = Some (set_fits_envelope b s) ∧
       (b = true ↔ ∀ it, it ∈ items s → canon (it_type it) ∈ will_fit_set fit_cfg) ∧
       (b = true → set_fits_envelope b s ∈ (compute_envelope_fit stores fit_cfg).2.1) ∧
       (b = false → set_fits_envelope b s ∈ (compute_envelope_fit stores fit_cfg).2.2)) ∧
  fits_envelope <$> (compute_envelope_fit [store_AB] cfg_ABC).1 = [Some true] ∧
  fits_envelope <$> (compute_envelope_fit [store_AB] cfg_A).1 = [Some false].
Proof.
  split; [|split; reflexivity].
  intros stores fit_cfg i s Hi Hne.
  exists (envelope_fit_of (will_fit_set fit_cfg) s).
  pose proof (compute_envelope_fit_lookup stores fit_cfg i s Hi) as Hl.
  split; [done|]. split; [by apply envelope_fit_of_nonempty|].
  apply list_elem_of_lookup_2 in Hl. unfold compute_envelope_fit in *. simpl in *.
  split; intros Hb; rewrite Hb in *; apply list_elem_of_filter; split; try done.
Qed.

Lemma compute_envelope_fit_iff_witness :
  ∃ b : bool,
    (compute_envelope_fit [store_AB] cfg_ABC).1 !! 0 = Some (set_fits_envelope b store_AB) ∧
    (b = true ↔ ∀ it, it ∈ items store_AB → canon (it_type it) ∈ will_fit_set cfg_ABC).
Proof.
  destruct (proj1 compute_envelope_fit_iff [store_AB] cfg_ABC 0 store_AB eq_refl)
    as (b & Hl & Hiff & _).
  - discriminate.
  - by exists b.
Defined.

(** C10: a store without items gets [fits_envelope = False] (and lands in
    [not_fits]), although every one of its (no) items has its sign type
    in the will-fit set. *)
Theorem compute_envelope_fit_no_items
    (stores : list StoreRecord) (fit_cfg : FitConfig) (i : nat) (s : StoreRecord) :
  stores !! i = Some s → items s = [] →
  (compute_envelope_fit stores fit_cfg).1 !! i = Some (set_fits_envelope false s) ∧
  set_fits_envelope false s ∈ (compute_envelope_fit stores fit_cfg).2.2 ∧
  (∀ it, it ∈ items s → canon (it_type it) ∈ will_fit_set fit_cfg).
Proof.
  intros Hi He.
  pose proof (compute_envelope_fit_lookup stores fit_cfg i s Hi) as Hl.
  assert (envelope_fit_of (will_fit_set fit_cfg) s = false) as Hf.
  { unfold envelope_fit_of. by rewrite He. }
  rewrite Hf in Hl. split; [done|]. split.
  - apply list_elem_of_lookup_2 in Hl. unfold compute_envelope_fit in *. simpl in *.
    apply list_elem_of_filter. split; done.
  - intros it Hin. rewrite He in Hin. by apply elem_of_nil in Hin.
Qed.

Lemma compute_envelope_fit_no_items_witness :
  (compute_envelope_fit [store_AB; store_empty] cfg_ABC).1 !! 1
    = Some (set_fits_envelope false store_empty) ∧
  set_fits_envelope false store_empty
    ∈ (compute_envelope_fit [store_AB; store_empty] cfg_ABC).2.2 ∧
  (∀ it, it ∈ items store_empty → canon (it_type it) ∈ will_fit_set cfg_ABC).
Proof.
  exact (compute_envelope_fit_no_items [store_AB; store_empty] cfg_ABC 1 store_empty
           eq_refl eq_refl).
Defined.


(** ** Store indexing *)

Lemma strongly_sorted_seq h n : StronglySorted lt (seq h n).
Proof.
  revert h. induction n as [|n IH]; intros h; simpl; constructor; [done|].
  apply Forall_seq. intros j Hj. lia.
Qed.

Lemma strongly_sorted_filter {A} (R : relation A) (P : A → Prop)
    `{∀ x, Decision (P x)} (l : list A) :
  StronglySorted R l → StronglySorted R (filter P l).
Proof.
  induction 1 as [|x l Hl IH Hx]; [constructor|].
  rewrite filter_cons. destruct (decide (P x)); [|done].
  constructor; [done|]. rewrite Forall_forall in *.
  intros y Hy. apply Hx. apply list_elem_of_filter in Hy. tauto.
Qed.

Lemma filter_all {A} (P : A → Prop) `{∀ x, Decision (P x)} (l : list A) :
  Forall P l → filter P l = l.
Proof.
  induction 1 as [|x l Hx Hl IH]; [done|].
  by rewrite filter_cons_True, IH.
Qed.

Lemma header_at_usable (doc : Document) (i : nat) : header_at doc i = true → usable_at doc i = true.
Proof.
  unfold header_at, usable_at, header_page, usable_page.
  destruct (doc !! i) as [page|]; simpl; [|done].
  destruct (page_text page); [|done]. by intros [? _]%andb_true_iff.
Qed.

Lemma open_block_skip (doc : Document) (i : nat) (pgs : list nat) :
  usable_at doc i = false → open_block doc i pgs → open_block doc (S i) pgs.
Proof.
  intros Hu (h & Hh & Hhd & -> & Hno). exists h. repeat split; [lia|done| |].
  - replace (S i - h) with (S (i - h)) by lia.
    rewrite seq_S, filter_app. replace (h + (i - h)) with i by lia.
    rewrite filter_cons_False by (by rewrite Hu). by rewrite filter_nil, app_nil_r.
  - intros j Hj. destruct (decide (j = i)) as [->|]; [|apply Hno; lia].
    destruct (header_at doc i) eqn:E; [|done].
    apply header_at_usable in E. congruence.
Qed.

Lemma open_block_extend (doc : Document) (i : nat) (pgs : list nat) :
  usable_at doc i = true → header_at doc i = false →
  open_block doc i pgs → open_block doc (S i) (pgs ++ [i]).
Proof.
  intros Hu Hn (h & Hh & Hhd & -> & Hno). exists h. repeat split; [lia|done| |].
  - replace (S i - h) with (S (i - h)) by lia.
    rewrite seq_S, filter_app. replace (h + (i - h)) with i by lia.
    by rewrite filter_cons_True, filter_nil.
  - intros j Hj. destruct (decide (j = i)) as [->|]; [done|apply Hno; lia].
Qed.

Lemma open_block_start (doc : Document) (i : nat) :
  header_at doc i = true → open_block doc (S i) [i].
Proof.
  intros Hh. exists i. repeat split; [lia|done| |intros; lia].
  replace (S i - i) with 1 by lia. simpl.
  by rewrite filter_cons_True, filter_nil by (by apply header_at_usable).
Qed.

Lemma open_block_close (doc : Document) (i : nat) (pgs : list nat) :
  i ≤ length doc → (i = length doc ∨ header_at doc i = true) →
  open_block doc i pgs → store_block doc pgs.
Proof.
  intros Hi He (h & Hh & Hhd & -> & Hno). exists h, (i - h - 1).
  replace (S (i - h - 1)) with (i - h) by lia.
  replace (S (h + (i - h - 1))) with i by lia.
  repeat split; [done| |lia|done].
  intros j Hj. apply Hno. lia.
Qed.

Section IndexingProperties.

Variable extract_store_info : string → gmap string string.
Variable classify_store : string → string.

Abbreviation index_step := (index_step extract_store_info classify_store).
Abbreviation index_loop := (index_loop extract_store_info classify_store).

Lemma index_step_inv (doc : Document) (i : nat) (page : Page) (st : IndexState) :
  doc !! i = Some page → index_inv doc i st → index_inv doc (S i) (index_step st i page).
Proof.
  intros Hi [Hst Hcur].
  assert (i < length doc) as Hlt by (by eapply lookup_lt_Some).
  unfold index_step.
  destruct (page_text page) as [text|] eqn:Et.
  2:{ split; [done|]. intros pgs Hp. apply open_block_skip; [|by apply Hcur].
      unfold usable_at, usable_page. by rewrite Hi; simpl; rewrite Et. }
  destruct (String.eqb (Py.strip text) "") eqn:Eb.
  { split; [done|]. intros pgs Hp. apply open_block_skip; [|by apply Hcur].
    unfold usable_at, usable_page. by rewrite Hi; simpl; rewrite Et, Eb. }
  assert (usable_at doc i = true) as Hu.
  { unfold usable_at, usable_page. by rewrite Hi; simpl; rewrite Et, Eb. }
  destruct (is_header_page text) eqn:Eh.
  - assert (header_at doc i = true) as Hh.
    { unfold header_at, header_page. by rewrite Hi; simpl; rewrite Et, Eb, Eh. }
    split; simpl.
    + destruct (ix_current st) as [pgs|]; [|done].
      apply Forall_app. split; [done|]. constructor; [|done]. simpl.
      apply (open_block_close doc i); [lia|by right|by apply Hcur].
    + intros pgs [= <-]. by apply open_block_start.
  - assert (header_at doc i = false) as Hh.
    { unfold header_at, header_page. by rewrite Hi; simpl; rewrite Et, Eb, Eh. }
    split; simpl; [done|].
    intros pgs Hp. destruct (ix_current st) as [pgs0|]; [|done].
    simpl in Hp. injection Hp as <-. apply open_block_extend; auto.
Qed.

Lemma index_loop_inv (doc : Document) (rest : list Page) : ∀ (pre : list Page) (st : IndexState),
  doc = pre ++ rest → index_inv doc (length pre) st →
  index_inv doc (length doc) (index_loop st (length pre) rest).
Proof.
  induction rest as [|page rest IH]; intros pre st Hdoc Hinv; simpl.
  - subst doc. by rewrite app_nil_r in *.
  - specialize (IH (pre ++ [page]) (index_step st (length pre) page)).
    rewrite length_app in IH. simpl in IH.
    replace (length pre + 1) with (S (length pre)) in IH by lia.
    apply IH.
    + subst doc. by rewrite <- app_assoc.
    + apply index_step_inv; [|done]. subst doc.
      by apply list_lookup_middle.
Qed.

Lemma index_stores_blocks (doc : Document) (s : StoreRecord) :
  s ∈ index_stores extract_store_info classify_store doc → store_block doc (pages s).
Proof.
  unfold index_stores.
  destruct (index_loop_inv doc doc [] (mkIndexState [] None "" ∅) eq_refl)
    as [Hst Hcur].
  { split; [constructor|]. intros pgs [=]. }
  simpl in Hst, Hcur. rewrite Forall_forall in Hst.
  destruct (ix_current _) as [pgs|] eqn:Ec; [|by apply Hst].
  intros [Hin|Hin%list_elem_of_singleton]%elem_of_app; [by apply Hst|].
  subst s. simpl. apply (open_block_close doc (length doc)); [lia|by left|by apply Hcur].
Qed.

(** C7 (as amended): the pages of every store that [index_stores] returns
    are strictly increasing; they are the readable, non-blank pages from
    the store's header page [h] to the last page [h + n] before the next
    header page (or the end of the document), so that the pages before the
    first header page are in no store; and they are a run of consecutive
    indices when no page of that range is blank or unreadable. *)
Theorem index_stores_pages (doc : Document) (s : StoreRecord) :
  s ∈ index_stores extract_store_info classify_store doc →
  StronglySorted lt (pages s) ∧
  ∃ h n,
    pages s = filter (λ j, usable_at doc j = true) (seq h (S n)) ∧
    head (pages s) = Some h ∧
    header_at doc h = true ∧
    (∀ j, h < j ≤ h + n → header_at doc j = false) ∧
    h + n < length doc ∧
    (S (h + n) = length doc ∨ header_at doc (S (h + n)) = true) ∧
    ((∀ j, h ≤ j ≤ h + n → usable_at doc j = true) → pages s = seq h (S n)).
Proof.
  intros Hin. destruct (index_stores_blocks doc s Hin) as (h & n & Hp & Hh & Hno & Hlen & Hend).
  split.
  { rewrite Hp. apply strongly_sorted_filter, strongly_sorted_seq. }
  exists h, n. repeat split; try done.
  - rewrite Hp. simpl. by rewrite filter_cons_True by (by apply header_at_usable).
  - intros Hall. rewrite Hp. apply filter_all. apply Forall_seq. intros j Hj.
    apply Hall. lia.
Qed.

End IndexingProperties.

Lemma index_stores_pages_witness :
  StronglySorted lt [0; 2] ∧
  ∃ h n,
    [0; 2] = filter (λ j, usable_at blank_page_doc j = true) (seq h (S n)) ∧
    head [0; 2] = Some h.
Proof.
  destruct (index_stores_pages (λ _, ∅) (λ _, "") blank_page_doc
              (mkStore "UNKNOWN_END|" "UNKNOWN_END" "" "" "" [0; 2] ∅ [] None None))
    as (Hs & h & n & Hp & Hh & _).
  - vm_compute. constructor.
  - split; [exact Hs|]. exists h, n. split; [exact Hp|exact Hh].
Defined.

(** C7 (as stated) fails: a blank page is skipped, so the store of
    [blank_page_doc] has the pages 0 and 2, whatever the two text
    analyses return. *)
Lemma index_stores_pages_gap :
  (∀ extract_store_info classify_store,
     pages <$> index_stores extract_store_info classify_store blank_page_doc = [[0; 2]]) ∧
  ¬ contiguous_run [0; 2].
Proof.
  split; [reflexivity|].
  intros [h Hh]. simpl in Hh. injection Hh as <- Hh. discriminate Hh.
Qed.

(** ** Sorting *)

Section SortedFacts.

Context {A : Type} (lt : A → A → bool).

Lemma insert_sorted_perm (x : A) (l : list A) : Py.insert_sorted lt x l ≡ₚ x :: l.
Proof.
  induction l as [|y l IH]; simpl; [done|].
  destruct (lt y x); [|done]. rewrite IH. apply Permutation_swap.
Qed.

Lemma sorted_perm (l : list A) : Py.sorted lt l ≡ₚ l.
Proof.
  induction l as [|x l IH]; simpl; [done|].
  by rewrite insert_sorted_perm, IH.
Qed.

(** When [lt] is asymmetric, the result is sorted: no element is strictly
    above a later one. *)
Hypothesis lt_asym : ∀ x y, lt x y = true → lt y x = false.

Lemma insert_sorted_Sorted (x : A) (l : list A) :
  Sorted (λ a b, lt b a = false) l →
  Sorted (λ a b, lt b a = false) (Py.insert_sorted lt x l).
Proof.
  induction 1 as [|y l Hl IH Hy]; simpl.
  - by repeat constructor.
  - destruct (lt y x) eqn:E.
    + constructor; [done|].
      destruct l as [|z l]; simpl in *.
      * constructor. by apply lt_asym.
      * destruct (lt z x); constructor; [by inversion Hy|by apply lt_asym].
    + constructor; [by constructor|by constructor].
Qed.

Lemma sorted_Sorted (l : list A) : Sorted (λ a b, lt b a = false) (Py.sorted lt l).
Proof.
  induction l as [|x l IH]; simpl; [constructor|].
  by apply insert_sorted_Sorted.
Qed.

End SortedFacts.

(** The order on pairs is the lexicographic one: by code points, then by
    quantity. *)
Lemma str_compare_lt_trans (a b c : string) :
  String.compare a b = Lt → String.compare b c = Lt → String.compare a c = Lt.
Proof.
  intros Hab Hbc.
  assert (String.le a b) as Lab by (unfold String.le, String.leb; by rewrite Hab).
  assert (String.le b c) as Lbc by (unfold String.le, String.leb; by rewrite Hbc).
  pose proof (transitivity Lab Lbc) as Lac.
  unfold String.le, String.leb in Lac.
  destruct (String.compare a c) eqn:Hac; [|done|done].
  apply String.compare_eq_iff in Hac as ->.
  assert (b = c) as -> by (by apply (anti_symm String.le)).
  pose proof (String.compare_antisym c c) as H. rewrite Hbc in H. discriminate H.
Qed.

Lemma pair_lt_false_iff (a b : string * Z) :
  Py.pair_lt b a = false ↔
  String.compare a.1 b.1 = Lt ∨ (a.1 = b.1 ∧ (a.2 ≤ b.2)%Z).
Proof.
  unfold Py.pair_lt. rewrite (String.compare_antisym b.1 a.1).
  destruct (String.compare a.1 b.1) eqn:E; simpl.
  - apply String.compare_eq_iff in E. rewrite Z.ltb_ge. split; [by right|].
    intros [?|[_ ?]]; done.
  - split; [by left|done].
  - split; [done|]. intros [?|[Heq _]]; [done|].
    rewrite Heq in E.
    assert (String.compare b.1 b.1 = Eq) as Hr.
    { pose proof (String.compare_antisym b.1 b.1) as H.
      destruct (String.compare b.1 b.1); done. }
    congruence.
Qed.

Lemma pair_lt_asym (x y : string * Z) : Py.pair_lt x y = true → Py.pair_lt y x = false.
Proof.
  unfold Py.pair_lt. rewrite (String.compare_antisym y.1 x.1).
  destruct (String.compare x.1 y.1); simpl; try done.
  rewrite Z.ltb_lt, Z.ltb_ge. lia.
Qed.

#[local] Instance pair_not_above_trans :
  Transitive (λ a b : string * Z, Py.pair_lt b a = false).
Proof.
  intros a b c. rewrite !pair_lt_false_iff.
  intros [Hab|[Hab Hq1]] [Hbc|[Hbc Hq2]].
  - left. by eapply str_compare_lt_trans.
  - left. by rewrite <- Hbc.
  - left. by rewrite Hab.
  - right. split; [congruence|lia].
Qed.

#[local] Instance pair_not_above_antisym :
  AntiSymm (=) (λ a b : string * Z, Py.pair_lt b a = false).
Proof.
  intros [a1 a2] [b1 b2]. rewrite !pair_lt_false_iff. simpl.
  intros [Hab|[Hab Hq1]] [Hba|[Hba Hq2]].
  - rewrite String.compare_antisym, Hba in Hab. discriminate Hab.
  - rewrite Hba in Hab. pose proof (String.compare_antisym a1 a1) as H.
    rewrite Hab in H. discriminate H.
  - rewrite Hab in Hba. pose proof (String.compare_antisym b1 b1) as H.
    rewrite Hba in H. discriminate H.
  - f_equal; [done|lia].
Qed.

(** The signature does not depend on the order of the pairs. *)
Lemma sorted_pairs_perm (l1 l2 : list (string * Z)) :
  l1 ≡ₚ l2 → Py.sorted Py.pair_lt l1 = Py.sorted Py.pair_lt l2.
Proof.
  intros Hp.
  apply (Sorted_unique (λ a b : string * Z, Py.pair_lt b a = false)).
  - apply sorted_Sorted, pair_lt_asym.
  - apply sorted_Sorted, pair_lt_asym.
  - by rewrite !sorted_perm.
Qed.

Lemma count_gt_asym (x y : WobblerKit) : count_gt x y = true → count_gt y x = false.
Proof. unfold count_gt. rewrite Nat.ltb_lt, Nat.ltb_ge. lia. Qed.

Lemma strongly_sorted_impl {A} (R R' : relation A) (l : list A) :
  (∀ a b, R a b → R' a b) → StronglySorted R l → StronglySorted R' l.
Proof.
  intros HR. induction 1 as [|x l Hl IH Hx]; constructor; [done|].
  eapply Forall_impl; [exact Hx|]. intros y. apply HR.
Qed.

Lemma sorted_kits_descending (kits : list WobblerKit) :
  StronglySorted (λ a b, store_count b ≤ store_count a) (Py.sorted count_gt kits).
Proof.
  apply (strongly_sorted_impl (λ a b, count_gt b a = false)).
  { intros a b. unfold count_gt. rewrite Nat.ltb_ge. lia. }
  apply Sorted_StronglySorted.
  - intros a b c. unfold count_gt. rewrite !Nat.ltb_ge. lia.
  - apply sorted_Sorted, count_gt_asym.
Qed.

(** ** Wobbler kits: the first loop *)

Lemma wobbler_pairs_cons (it : ItemRecord) (its : list ItemRecord) :
  wobbler_pairs (it :: its) =
  if qualifying_item it then (canon (it_promo it), it_qty it) :: wobbler_pairs its
  else wobbler_pairs its.
Proof.
  unfold wobbler_pairs. rewrite filter_cons.
  destruct (qualifying_item it); reflexivity.
Qed.

Lemma wob_step_qualifying (rep : gmap string string) (wob : list (string * Z)) (it : ItemRecord) :
  (wob_step (rep, wob) it).2 =
  if qualifying_item it then wob ++ [(canon (it_promo it), it_qty it)] else wob.
Proof.
  unfold wob_step, qualifying_item.
  destruct (String.eqb _ _); simpl; [|done].
  destruct (is_predetermined_wobbler _); done.
Qed.

(** The item loop collects the pairs of the store, whatever [rep_text]
    is. *)
Lemma wob_fold_pairs (its : list ItemRecord) : ∀ rep wob,
  (fold_left wob_step its (rep, wob)).2 = wob ++ wobbler_pairs its.
Proof.
  induction its as [|it its IH]; intros rep wob; cbn [fold_left].
  - simpl. by rewrite app_nil_r.
  - pose proof (wob_step_qualifying rep wob it) as Hq.
    destruct (wob_step (rep, wob) it) as [rep' wob']. simpl in Hq.
    rewrite IH, Hq, wobbler_pairs_cons.
    destruct (qualifying_item it); [by rewrite <- app_assoc|done].
Qed.

Lemma wob_step_rep (rep : gmap string string) (wob : list (string * Z)) (it : ItemRecord) :
  rep_text_ok rep → rep_text_covers rep wob →
  rep_text_ok (wob_step (rep, wob) it).1 ∧
  rep_text_covers (wob_step (rep, wob) it).1 (wob_step (rep, wob) it).2 ∧
  rep ⊆ (wob_step (rep, wob) it).1.
Proof.
  intros Hok Hcov. unfold wob_step.
  destruct (negb _); [done|]. destruct (is_predetermined_wobbler _); [done|].
  simpl. destruct (rep !! canon (it_promo it)) as [t|] eqn:E.
  - split; [done|]. split; [|done].
    intros pq [Hin|Hin%list_elem_of_singleton]%elem_of_app; [by apply Hcov|].
    subst pq. simpl. by rewrite E.
  - split; [|split].
    + intros p t. destruct (decide (p = canon (it_promo it))) as [->|Hne].
      * rewrite lookup_insert_eq. by intros [= <-].
      * rewrite lookup_insert_ne by done. apply Hok.
    + intros pq [Hin|Hin%list_elem_of_singleton]%elem_of_app.
      * destruct (Hcov pq Hin) as [t Ht].
        destruct (decide (pq.1 = canon (it_promo it))) as [Heq|Hne].
        -- rewrite Heq, lookup_insert_eq. by eexists.
        -- rewrite lookup_insert_ne by done. by eexists.
      * subst pq. simpl. rewrite lookup_insert_eq. by eexists.
    + by apply insert_subseteq.
Qed.

Lemma wob_fold_rep (its : list ItemRecord) : ∀ rep wob,
  rep_text_ok rep → rep_text_covers rep wob →
  rep_text_ok (fold_left wob_step its (rep, wob)).1 ∧
  rep_text_covers (fold_left wob_step its (rep, wob)).1
                  (fold_left wob_step its (rep, wob)).2 ∧
  rep ⊆ (fold_left wob_step its (rep, wob)).1.
Proof.
  induction its as [|it its IH]; intros rep wob Hok Hcov; cbn [fold_left]; [done|].
  destruct (wob_step_rep rep wob it Hok Hcov) as (Hok' & Hcov' & Hsub).
  destruct (wob_step (rep, wob) it) as [rep' wob'].
  destruct (IH rep' wob' Hok' Hcov') as (? & ? & ?).
  split; [done|]. split; [done|]. by etrans.
Qed.

(** *** The order of first encounter *)

Lemma first_seen_snoc {A} `{EqDecision A} (l : list A) (x : A) :
  first_seen (l ++ [x]) =
  if decide (x ∈ first_seen l) then first_seen l else first_seen l ++ [x].
Proof. unfold first_seen. by rewrite fold_left_app. Qed.

Lemma first_seen_elem_of {A} `{EqDecision A} (l : list A) (x : A) :
  x ∈ first_seen l ↔ x ∈ l.
Proof.
  induction l as [|y l IH] using rev_ind; [done|].
  rewrite first_seen_snoc, elem_of_app, list_elem_of_singleton.
  destruct (decide (y ∈ first_seen l)) as [Hy|Hy].
  - rewrite IH. split; [tauto|]. intros [? | ->]; [done|]. by apply IH.
  - rewrite elem_of_app, list_elem_of_singleton. by rewrite IH.
Qed.

Lemma first_seen_NoDup {A} `{EqDecision A} (l : list A) : NoDup (first_seen l).
Proof.
  induction l as [|y l IH] using rev_ind; [constructor|].
  rewrite first_seen_snoc. destruct (decide (y ∈ first_seen l)) as [Hy|Hy]; [done|].
  apply NoDup_app. split; [done|]. split; [|apply NoDup_singleton].
  intros z Hz Hz'%list_elem_of_singleton. by subst z.
Qed.

(** What is first seen in a list is first seen, in the same order, in
    every extension of it. *)
Lemma first_seen_prefix {A} `{EqDecision A} (l1 l2 : list A) :
  first_seen l1 `prefix_of` first_seen (l1 ++ l2).
Proof.
  induction l2 as [|y l2 IH] using rev_ind; [by rewrite app_nil_r|].
  rewrite app_assoc, first_seen_snoc.
  destruct (decide _); [done|]. by apply prefix_app_r.
Qed.

(** *** The groups *)

Lemma combos_add_map (f : Signature → list (string * string)) (keys : list Signature)
    (key : Signature) (v : string * string) :
  NoDup keys →
  combos_add key v ((λ k, (k, f k)) <$> keys) =
  if decide (key ∈ keys)
  then (λ k, (k, if decide (k = key) then f k ++ [v] else f k)) <$> keys
  else ((λ k, (k, f k)) <$> keys) ++ [(key, [v])].
Proof.
  induction 1 as [|k keys Hk Hnd IH]; [done|].
  rewrite !fmap_cons. cbn [combos_add].
  destruct (decide (k = key)) as [->|Hne].
  - rewrite decide_True by left. f_equal.
    apply list_fmap_ext. intros i k' Hk'.
    rewrite decide_False; [done|]. intros ->. apply Hk. by eapply list_elem_of_lookup_2.
  - rewrite IH. destruct (decide (key ∈ keys)) as [Hin|Hin].
    + rewrite decide_True by (by right). done.
    + rewrite decide_False; [done|]. by intros [-> | ?]%elem_of_cons.
Qed.

Lemma members_snoc (key : Signature) (stores : list StoreRecord) (s : StoreRecord) :
  members key (stores ++ [s]) =
  members key stores ++
  (if decide (in_grouping s = true ∧ signature s = key)
   then [(store_id s, store_name s)] else []).
Proof.
  unfold members. rewrite filter_app, fmap_app. f_equal.
  rewrite filter_cons, filter_nil. by destruct (decide _).
Qed.

Lemma members_nil (key : Signature) (stores : list StoreRecord) :
  key ∉ signature <$> filter (λ s, in_grouping s = true) stores →
  members key stores = [].
Proof.
  intros Hk. unfold members.
  induction stores as [|s stores IH]; [done|].
  rewrite filter_cons in Hk. rewrite filter_cons.
  destruct (decide (in_grouping s = true)) as [Hg|Hg].
  - rewrite fmap_cons, not_elem_of_cons in Hk. destruct Hk as [Hne Hk].
    rewrite decide_False by (by intros [_ ?]). by apply IH.
  - rewrite decide_False by (by intros [? _]). by apply IH.
Qed.

Lemma grouped_snoc (stores : list StoreRecord) (s : StoreRecord) :
  grouped (stores ++ [s]) =
  if in_grouping s
  then combos_add (signature s) (store_id s, store_name s) (grouped stores)
  else grouped stores.
Proof.
  unfold grouped. rewrite filter_app, filter_cons, filter_nil.
  destruct (in_grouping s) eqn:Hg.
  - rewrite decide_True by done. rewrite fmap_app. simpl.
    rewrite first_seen_snoc, combos_add_map by apply first_seen_NoDup.
    destruct (decide (signature s ∈ first_seen _)) as [Hin|Hin].
    + apply list_fmap_ext. intros i k Hk. f_equal.
      rewrite members_snoc. destruct (decide (k = signature s)) as [->|Hne].
      * by rewrite decide_True.
      * rewrite decide_False by (by intros [_ ?]). by rewrite app_nil_r.
    + rewrite fmap_app. simpl. f_equal.
      * apply list_fmap_ext. intros i k Hk. f_equal.
        rewrite members_snoc, decide_False, app_nil_r; [done|].
        intros [_ <-]. apply Hin. by eapply list_elem_of_lookup_2.
      * rewrite members_snoc, decide_True by done.
        rewrite members_nil; [done|]. by rewrite <- first_seen_elem_of.
  - rewrite decide_False by done. rewrite app_nil_r.
    apply list_fmap_ext. intros i k Hk. f_equal.
    rewrite members_snoc, decide_False, app_nil_r; [done|].
    intros [? _]. congruence.
Qed.

Lemma group_step_spec (rep : gmap string string) (combos : Combos) (s : StoreRecord) :
  group_step (rep, combos) s =
  ((fold_left wob_step (items s) (rep, [])).1,
   if in_grouping s
   then combos_add (signature s) (store_id s, store_name s) combos
   else combos).
Proof.
  unfold group_step, in_grouping, signature.
  pose proof (wob_fold_pairs (items s) rep []) as Hw.
  destruct (fold_left wob_step (items s) (rep, [])) as [rep' wob].
  simpl in Hw. subst wob. by destruct (length _ <=? 1).
Qed.

(** After the first loop, [combos] holds the signature groups in the order
    of first encounter, and [rep_text] a spelling of every promotion of
    every pair. *)
Lemma grouping_state_spec (stores : list StoreRecord) :
  (grouping_state stores).2 = grouped stores ∧
  rep_text_ok (grouping_state stores).1 ∧
  ∀ s, s ∈ stores → rep_text_covers (grouping_state stores).1 (wobbler_pairs (items s)).
Proof.
  induction stores as [|s stores IH] using rev_ind.
  - split; [done|]. split; [intros p t; simpl; by rewrite lookup_empty|].
    intros s Hs. by apply elem_of_nil in Hs.
  - destruct IH as (Hc & Hok & Hcov).
    unfold grouping_state in *. rewrite fold_left_app. cbn [fold_left].
    destruct (fold_left group_step stores (∅, [])) as [rep combos].
    simpl in Hc, Hok, Hcov. subst combos.
    rewrite group_step_spec, grouped_snoc. cbn [fst snd].
    destruct (wob_fold_rep (items s) rep [] Hok) as (Hok' & Hcov' & Hsub).
    { intros pq Hpq. by apply elem_of_nil in Hpq. }
    rewrite wob_fold_pairs in Hcov'. simpl in Hcov'.
    split; [done|]. split; [done|].
    intros s' [Hs'|Hs'%list_elem_of_singleton]%elem_of_app; [|by subst s'].
    intros pq Hpq. destruct (Hcov s' Hs' pq Hpq) as [t Ht].
    exists t. by eapply lookup_weaken.
Qed.

(** ** Wobbler kits: the second loop *)

Lemma items_disp_covered (rep : gmap string string) (key : Signature) :
  rep_text_covers rep key →
  items_disp rep key = Some ((λ pq, mkKitItem (default "" (rep !! pq.1)) pq.2) <$> key).
Proof.
  unfold items_disp. induction key as [|pq key IH]; intros Hcov; [done|].
  cbn [mapM]. destruct (Hcov pq) as [t Ht]; [left|].
  rewrite Ht. simpl. rewrite IH; [by rewrite Ht|].
  intros pq' Hpq'. apply Hcov. by right.
Qed.

Lemma build_kits_spec (rep : gmap string string) (min_stores : Z) (combos : Combos) :
  (∀ g, g ∈ combos → rep_text_covers rep g.1) →
  ∀ idx,
    build_kits rep min_stores idx combos =
    Some (imap (λ j g, mk_kit rep (idx + j) g)
               (filter (λ g, (min_stores ≤ Z.of_nat (length g.2))%Z) combos)).
Proof.
  induction combos as [|[key store_list] combos IH]; intros Hcov idx; [done|].
  cbn [build_kits]. rewrite filter_cons. cbn [snd].
  destruct (Z.ltb_spec (Z.of_nat (length store_list)) min_stores) as [Hlt|Hge].
  - rewrite decide_False by lia. apply IH. intros g Hg. apply Hcov. by right.
  - rewrite decide_True by lia.
    rewrite items_disp_covered by (apply (Hcov (key, store_list)); left).
    rewrite IH by (intros g Hg; apply Hcov; by right).
    simpl. unfold mk_kit at 2. simpl. rewrite Nat.add_0_r. do 2 f_equal.
    apply imap_ext. intros j g _. simpl. f_equal. lia.
Qed.

Lemma grouped_covered (stores : list StoreRecord) (g : Signature * list (string * string)) :
  g ∈ grouped stores → rep_text_covers (grouping_state stores).1 g.1.
Proof.
  unfold grouped. intros (key & -> & Hkey)%list_elem_of_fmap. simpl.
  rewrite first_seen_elem_of in Hkey.
  apply list_elem_of_fmap in Hkey as (s & -> & Hs).
  apply list_elem_of_filter in Hs as [_ Hs].
  destruct (grouping_state_spec stores) as (_ & _ & Hcov).
  intros pq Hpq. apply (Hcov s Hs). unfold signature in Hpq.
  by rewrite sorted_perm in Hpq.
Qed.

(** [group_wobbler_kits] never takes its [except] branch: the kits are the
    labelled kits, sorted by descending count. *)
Lemma group_wobbler_kits_spec (stores : list StoreRecord) (min_stores : Z) :
  group_wobbler_kits stores min_stores =
  (Py.sorted count_gt (labelled_kits stores min_stores),
   index_kits (Py.sorted count_gt (labelled_kits stores min_stores))).
Proof.
  unfold group_wobbler_kits, labelled_kits, retained.
  pose proof (grouping_state_spec stores) as (Hc & _ & _).
  pose proof (grouped_covered stores) as Hcov.
  unfold grouping_state in *.
  destruct (fold_left group_step stores (∅, [])) as [rep combos].
  simpl in Hc, Hcov. subst combos.
  by rewrite (build_kits_spec rep min_stores (grouped stores) Hcov 1).
Qed.

Lemma mk_kit_signature (rep : gmap string string) (n : nat)
    (g : Signature * list (string * string)) :
  rep_text_ok rep → rep_text_covers rep g.1 → kit_signature (mk_kit rep n g) = g.1.
Proof.
  intros Hok Hcov. unfold kit_signature, mk_kit. simpl.
  rewrite <- list_fmap_compose. rewrite <- (list_fmap_id g.1) at 2.
  apply list_fmap_ext. intros i [p q] Hpq. simpl.
  destruct (Hcov (p, q)) as [t Ht]; [by eapply list_elem_of_lookup_2|].
  simpl in Ht. rewrite Ht. simpl. by rewrite (Hok p t Ht).
Qed.

(** The labelled kit at position [j] is the kit of the [j]-th retained
    group, under the label [j + 1]. *)
Lemma labelled_kits_lookup (stores : list StoreRecord) (min_stores : Z) (j : nat)
    (k : WobblerKit) :
  labelled_kits stores min_stores !! j = Some k ↔
  ∃ g, retained stores min_stores !! j = Some g ∧
       k = mk_kit (grouping_state stores).1 (S j) g.
Proof.
  unfold labelled_kits. rewrite list_lookup_imap.
  destruct (retained stores min_stores !! j) as [g|]; simpl.
  - split; [intros [= <-]; by exists g|]. by intros (g' & [= <-] & ->).
  - split; [done|]. by intros (g' & ? & _).
Qed.

Lemma retained_elem_of (stores : list StoreRecord) (min_stores : Z)
    (g : Signature * list (string * string)) :
  g ∈ retained stores min_stores ↔
  g ∈ grouped stores ∧ (min_stores ≤ Z.of_nat (length g.2))%Z.
Proof. unfold retained. rewrite list_elem_of_filter. tauto. Qed.

Lemma fmap_fst_graph {A B} (f : A → B) (l : list A) : ((λ k, (k, f k)) <$> l).*1 = l.
Proof. induction l as [|x l IH]; [done|]. rewrite !fmap_cons. simpl. by f_equal. Qed.

Lemma grouped_keys (stores : list StoreRecord) :
  (grouped stores).*1
  = first_seen (signature <$> filter (λ s, in_grouping s = true) stores).
Proof. unfold grouped. apply fmap_fst_graph. Qed.

Lemma grouped_keys_NoDup (stores : list StoreRecord) : NoDup (grouped stores).*1.
Proof. rewrite grouped_keys. apply first_seen_NoDup. Qed.

Lemma grouped_elem_of (stores : list StoreRecord) (key : Signature)
    (grp : list (string * string)) :
  (key, grp) ∈ grouped stores ↔
  grp = members key stores ∧
  ∃ s, s ∈ stores ∧ in_grouping s = true ∧ signature s = key.
Proof.
  unfold grouped. rewrite list_elem_of_fmap. split.
  - intros (k & [= -> ->] & Hk). split; [done|].
    rewrite first_seen_elem_of in Hk. apply list_elem_of_fmap in Hk as (s & -> & Hs).
    apply list_elem_of_filter in Hs as [? ?]. by exists s.
  - intros (-> & s & Hs & Hg & <-). exists (signature s). split; [done|].
    rewrite first_seen_elem_of. apply list_elem_of_fmap. exists s. split; [done|].
    by apply list_elem_of_filter.
Qed.

Lemma retained_NoDup (stores : list StoreRecord) (min_stores : Z) :
  NoDup (retained stores min_stores).
Proof.
  unfold retained. apply NoDup_filter. eapply NoDup_fmap_1, grouped_keys_NoDup.
Qed.

Lemma kits_elem_of (stores : list StoreRecord) (min_stores : Z) (k : WobblerKit) :
  k ∈ (group_wobbler_kits stores min_stores).1 ↔
  ∃ j g, retained stores min_stores !! j = Some g ∧
         k = mk_kit (grouping_state stores).1 (S j) g.
Proof.
  rewrite group_wobbler_kits_spec. simpl. rewrite sorted_perm, list_elem_of_lookup.
  split.
  - intros [j Hj]. exists j. by apply labelled_kits_lookup.
  - intros (j & g & Hg & ->). exists j. apply labelled_kits_lookup. by exists g.
Qed.

(** The kit of a signature group exists exactly when the group reaches
    the threshold, and there is then one such kit. *)
Lemma kit_of_group (stores : list StoreRecord) (min_stores : Z) (key : Signature)
    (grp : list (string * string)) :
  (key, grp) ∈ grouped stores →
  ((min_stores ≤ Z.of_nat (length grp))%Z →
     ∃ k, k ∈ (group_wobbler_kits stores min_stores).1 ∧
          kit_signature k = key ∧ store_ids k = grp.*1 ∧
          kit_stores k ≡ₚ grp.*2 ∧ store_count k = length grp ∧
          ∀ k', k' ∈ (group_wobbler_kits stores min_stores).1 →
                kit_signature k' = key → k' = k) ∧
  ((Z.of_nat (length grp) < min_stores)%Z →
     ∀ k, k ∈ (group_wobbler_kits stores min_stores).1 → kit_signature k ≠ key).
Proof.
  intros Hg.
  destruct (grouping_state_spec stores) as (_ & Hok & _).
  assert (∀ j g, retained stores min_stores !! j = Some g →
            kit_signature (mk_kit (grouping_state stores).1 (S j) g) = key → g = (key, grp))
    as Hsame.
  { intros j [key' grp'] Hj Hsig.
    apply list_elem_of_lookup_2, retained_elem_of in Hj as [Hj _].
    rewrite mk_kit_signature in Hsig by (try done; by apply (grouped_covered stores _ Hj)).
    simpl in Hsig. subst key'.
    apply grouped_elem_of in Hj as [-> _]. apply grouped_elem_of in Hg as [-> _]. done. }
  split.
  - intros Hmin.
    assert ((key, grp) ∈ retained stores min_stores) as Hr by (by apply retained_elem_of).
    apply list_elem_of_lookup in Hr as [j Hj].
    exists (mk_kit (grouping_state stores).1 (S j) (key, grp)).
    split; [apply kits_elem_of; by eauto|].
    split; [apply mk_kit_signature; [done|by apply (grouped_covered stores _ Hg)]|].
    split; [done|]. split; [apply sorted_perm|]. split; [done|].
    intros k' (j' & g' & Hj' & ->)%kits_elem_of Hsig.
    pose proof (Hsame j' g' Hj' Hsig) as ->.
    by rewrite (NoDup_lookup _ _ _ _ (retained_NoDup stores min_stores) Hj' Hj).
  - intros Hlt k (j & g & Hj & ->)%kits_elem_of Hsig.
    pose proof (Hsame j g Hj Hsig) as ->.
    apply list_elem_of_lookup_2, retained_elem_of in Hj as [_ Hj]. simpl in Hj. lia.
Qed.

(** *** The lookup from store ids to labels *)

Lemma insert_ids_lookup (ids : list string) (name sid : string) : ∀ m : gmap string string,
  fold_left (λ m sid', <[sid' := name]> m) ids m !! sid
  = if decide (sid ∈ ids) then Some name else m !! sid.
Proof.
  induction ids as [|sid' ids IH]; intros m; cbn [fold_left].
  - by rewrite decide_False by apply not_elem_of_nil.
  - rewrite IH. destruct (decide (sid ∈ ids)) as [Hin|Hin].
    + by rewrite decide_True by (by right).
    + destruct (decide (sid' = sid)) as [->|Hne].
      * rewrite decide_True by left. apply lookup_insert_eq.
      * rewrite decide_False by (by intros [-> | ?]%elem_of_cons).
        by apply lookup_insert_ne.
Qed.

Lemma index_kits_snoc (kits : list WobblerKit) (k : WobblerKit) :
  index_kits (kits ++ [k])
  = fold_left (λ m sid, <[sid := kit_name k]> m) (store_ids k) (index_kits kits).
Proof. unfold index_kits. by rewrite fold_left_app. Qed.

(** A store id that only kits of one label list is mapped to that label. *)
Lemma index_kits_lookup (kits : list WobblerKit) (sid name : string) :
  (∃ k, k ∈ kits ∧ sid ∈ store_ids k) →
  (∀ k, k ∈ kits → sid ∈ store_ids k → kit_name k = name) →
  index_kits kits !! sid = Some name.
Proof.
  induction kits as [|k kits IH] using rev_ind; intros (k0 & Hk0 & Hsid) Hall.
  - by apply elem_of_nil in Hk0.
  - rewrite index_kits_snoc, insert_ids_lookup.
    destruct (decide (sid ∈ store_ids k)) as [Hin|Hin].
    + f_equal. apply Hall; [|done]. apply elem_of_app. right. by left.
    + apply IH.
      * apply elem_of_app in Hk0 as [?|Hk0%list_elem_of_singleton]; [by exists k0|].
        by subst k0.
      * intros k' Hk'. apply Hall, elem_of_app. by left.
Qed.

(** The stores that a kit lists are stores of its signature. *)
Lemma kit_store_ids_elem_of (stores : list StoreRecord) (min_stores : Z)
    (k : WobblerKit) (sid : string) :
  k ∈ (group_wobbler_kits stores min_stores).1 → sid ∈ store_ids k →
  ∃ s, s ∈ stores ∧ in_grouping s = true ∧ signature s = kit_signature k ∧
       store_id s = sid.
Proof.
  intros (j & [key grp] & Hj & ->)%kits_elem_of Hsid.
  apply list_elem_of_lookup_2, retained_elem_of in Hj as [Hj _].
  destruct (grouping_state_spec stores) as (_ & Hok & _).
  rewrite mk_kit_signature by (try done; by apply (grouped_covered stores _ Hj)).
  apply grouped_elem_of in Hj as [-> _]. simpl in *.
  apply list_elem_of_fmap in Hsid as ([sid' nm] & -> & Hm). unfold members in Hm.
  apply list_elem_of_fmap in Hm as (s & [= -> ->] & Hs).
  apply list_elem_of_filter in Hs as [[? ?] ?]. by exists s.
Qed.

Lemma members_elem_of (stores : list StoreRecord) (s : StoreRecord) :
  s ∈ stores → in_grouping s = true →
  (store_id s, store_name s) ∈ members (signature s) stores.
Proof.
  intros Hs Hg. unfold members. apply list_elem_of_fmap. exists s. split; [done|].
  by apply list_elem_of_filter.
Qed.

(** C1: two stores of the list whose qualifying pairs are the same
    multiset, of at least two pairs, have the same signature and are in the
    same signature group; when that group reaches [min_stores] there is
    one kit of that signature, and it lists both stores (and, when their
    store ids are not also the ids of stores of another signature, the
    lookup maps both ids to its label); when it does not, there is no kit
    of that signature.  With [min_stores = 10], a group of
    exactly 9 stores gives no kit and a group of exactly 10 gives one. *)
Theorem same_pairs_same_kit
    (stores : list StoreRecord) (min_stores : Z) (s1 s2 : StoreRecord) :
  s1 ∈ stores → s2 ∈ stores →
  wobbler_pairs (items s1) ≡ₚ wobbler_pairs (items s2) →
  2 ≤ length (wobbler_pairs (items s1)) →
  let key := signature s1 in
  let grp := members key stores in
  let kits := (group_wobbler_kits stores min_stores).1 in
  let kits10 := (group_wobbler_kits stores 10).1 in
  signature s2 = key ∧
  (key, grp) ∈ (grouping_state stores).2 ∧
  (store_id s1, store_name s1) ∈ grp ∧ (store_id s2, store_name s2) ∈ grp ∧
  ((min_stores ≤ Z.of_nat (length grp))%Z →
     ∃ k, k ∈ kits ∧ kit_signature k = key ∧
          store_id s1 ∈ store_ids k ∧ store_id s2 ∈ store_ids k ∧
          store_name s1 ∈ kit_stores k ∧ store_name s2 ∈ kit_stores k ∧
          store_count k = length grp ∧
          (∀ k', k' ∈ kits → kit_signature k' = key → k' = k) ∧
          ((∀ s, s ∈ stores → in_grouping s = true →
                 store_id s = store_id s1 ∨ store_id s = store_id s2 →
                 signature s = key) →
           (group_wobbler_kits stores min_stores).2 !! store_id s1 = Some (kit_name k) ∧
           (group_wobbler_kits stores min_stores).2 !! store_id s2 = Some (kit_name k))) ∧
  ((Z.of_nat (length grp) < min_stores)%Z → ∀ k, k ∈ kits → kit_signature k ≠ key) ∧
  (length grp = 9 → ∀ k, k ∈ kits10 → kit_signature k ≠ key) ∧
  (length grp = 10 →
     ∃ k, k ∈ kits10 ∧ kit_signature k = key ∧ store_count k = 10 ∧
          ∀ k', k' ∈ kits10 → kit_signature k' = key → k' = k).
Proof.
  intros H1 H2 Hp Hlen key grp kits kits10.
  assert (signature s2 = key) as Hsig.
  { unfold key, signature. symmetry. by apply sorted_pairs_perm. }
  assert (in_grouping s1 = true) as Hg1.
  { unfold in_grouping. apply negb_true_iff, Nat.leb_gt. lia. }
  assert (in_grouping s2 = true) as Hg2.
  { unfold in_grouping. rewrite <- Hp. apply negb_true_iff, Nat.leb_gt. lia. }
  assert ((key, grp) ∈ grouped stores) as Hgrp.
  { apply grouped_elem_of. split; [done|]. by exists s1. }
  assert ((store_id s1, store_name s1) ∈ grp) as Hm1 by (by apply members_elem_of).
  assert ((store_id s2, store_name s2) ∈ grp) as Hm2.
  { unfold grp. rewrite <- Hsig. by apply members_elem_of. }
  split; [done|]. split.
  { by rewrite (proj1 (grouping_state_spec stores)). }
  split; [done|]. split; [done|].
  destruct (kit_of_group stores min_stores key grp Hgrp) as [Hge Hlt].
  destruct (kit_of_group stores 10 key grp Hgrp) as [Hge10 Hlt10].
  split; [|split; [done|split]].
  - intros Hmin. destruct (Hge Hmin) as (k & Hk & Hks & Hids & Hnames & Hcount & Huniq).
    exists k. split; [done|]. split; [done|].
    rewrite Hids, Hnames.
    split; [by apply (list_elem_of_fmap_2 fst) in Hm1|].
    split; [by apply (list_elem_of_fmap_2 fst) in Hm2|].
    split; [by apply (list_elem_of_fmap_2 snd) in Hm1|].
    split; [by apply (list_elem_of_fmap_2 snd) in Hm2|].
    split; [done|]. split; [done|].
    intros Hids'. rewrite group_wobbler_kits_spec. cbn [snd].
    assert (∀ sid, sid = store_id s1 ∨ sid = store_id s2 → sid ∈ store_ids k →
              index_kits (Py.sorted count_gt (labelled_kits stores min_stores)) !! sid
              = Some (kit_name k)) as Hlook.
    { intros sid Hsid Hin. apply index_kits_lookup.
      - exists k. split; [|done].
        unfold kits in Hk. by rewrite group_wobbler_kits_spec in Hk.
      - intros k' Hk' Hin'.
        assert (k' ∈ kits) as Hk'' by (unfold kits; by rewrite group_wobbler_kits_spec).
        destruct (kit_store_ids_elem_of stores min_stores k' sid Hk'' Hin')
          as (s & Hs & Hg & Hss & Hid).
        f_equal. apply Huniq; [done|]. rewrite <- Hss. apply Hids'; [done..|].
        rewrite Hid. tauto. }
    split; apply Hlook; rewrite ?Hids; auto.
    + by apply (list_elem_of_fmap_2 fst) in Hm1.
    + by apply (list_elem_of_fmap_2 fst) in Hm2.
  - intros H9. apply Hlt10. lia.
  - intros H10. destruct Hge10 as (k & Hk & Hks & _ & _ & Hcount & Huniq); [lia|].
    exists k. split; [done|]. split; [done|]. split; [congruence|done].
Qed.

Lemma same_pairs_same_kit_witness :
  signature (same_order_store 1) = signature (same_order_store 0) ∧
  (∃ k, k ∈ (group_wobbler_kits (same_order_stores 10) 10).1 ∧
        store_id (same_order_store 0) ∈ store_ids k ∧
        store_id (same_order_store 1) ∈ store_ids k ∧
        store_count k = 10) ∧
  (group_wobbler_kits (same_order_stores 9) 10).1 = [].
Proof.
  destruct (same_pairs_same_kit (same_order_stores 10) 10
              (same_order_store 0) (same_order_store 1))
    as (Hsig & _ & _ & _ & Hkit & _).
  - apply (list_elem_of_lookup_2 _ 0). reflexivity.
  - apply (list_elem_of_lookup_2 _ 1). reflexivity.
  - vm_compute. apply Permutation_swap.
  - vm_compute. lia.
  - split; [exact Hsig|]. split; [|reflexivity].
    destruct Hkit as (k & Hk & _ & Hi1 & Hi2 & _ & _ & Hc & _ & _).
    + vm_compute. discriminate.
    + exists k. repeat split; [exact Hk|exact Hi1|exact Hi2|].
      rewrite Hc. reflexivity.
Defined.

(** C6: the groups are kept in the order in which their signatures are
    first met in the store list; the kit of the [j]-th retained group gets
    the label [j + 1]; the returned list is those kits sorted by descending
    [store_count]; and on [two_kit_stores] the labels come out as "2",
    "1". *)
Theorem kit_labels_before_sort :
  (∀ (stores : list StoreRecord) (min_stores : Z),
     (grouping_state stores).2 = grouped stores ∧
     (grouped stores).*1
       = first_seen (signature <$> filter (λ s, in_grouping s = true) stores) ∧
     length (labelled_kits stores min_stores) = length (retained stores min_stores) ∧
     (∀ j g, retained stores min_stores !! j = Some g →
        ∃ k, labelled_kits stores min_stores !! j = Some k ∧
             kit_name k = pretty (S j) ∧ kit_signature k = g.1 ∧
             store_ids k = g.2.*1 ∧ store_count k = length g.2) ∧
     (group_wobbler_kits stores min_stores).1
       = Py.sorted count_gt (labelled_kits stores min_stores) ∧
     (group_wobbler_kits stores min_stores).1 ≡ₚ labelled_kits stores min_stores ∧
     StronglySorted (λ a b, store_count b ≤ store_count a)
                    (group_wobbler_kits stores min_stores).1) ∧
  kit_name <$> labelled_kits two_kit_stores 2 = ["1"; "2"] ∧
  kit_name <$> (group_wobbler_kits two_kit_stores 2).1 = ["2"; "1"] ∧
  store_count <$> (group_wobbler_kits two_kit_stores 2).1 = [3; 2].
Proof.
  split; [|repeat split; reflexivity].
  intros stores min_stores.
  destruct (grouping_state_spec stores) as (Hc & Hok & _).
  split; [done|]. split; [apply grouped_keys|].
  split; [apply length_imap|]. split.
  { intros j g Hj. exists (mk_kit (grouping_state stores).1 (S j) g).
    split; [apply labelled_kits_lookup; by exists g|].
    split; [done|]. split; [|done].
    apply mk_kit_signature; [done|]. apply grouped_covered.
    by apply list_elem_of_lookup_2, retained_elem_of in Hj as [Hj _]. }
  rewrite group_wobbler_kits_spec. simpl.
  split; [done|]. split; [apply sorted_perm|apply sorted_kits_descending].
Qed.


(** ** The orchestrator *)

Section OrchestratorProperties.

Variable extract_store_info : string → gmap string string.
Variable classify_store : string → string.
Variable gui_envelope_fit : list string → option FitConfig.
Variable render_output :
  Document → list StoreRecord → list StoreRecord → list StoreRecord →
  list WobblerKit → gmap string string → list OutOp * bool.

Abbreviation run :=
  (process_pdf_sorted_with_kits_and_envelopes extract_store_info classify_store gui_envelope_fit render_output).
Abbreviation with_items := (stores_with_items extract_store_info classify_store).

(** C9: when no sign type is found in the stores that have items, the run
    shows the "No sign types found" message and nothing else: the output
    document is not created, nothing is put on a page of it, and no save is
    attempted. *)
Theorem process_stops_without_sign_types (doc : Document) :
  unique_sign_types (with_items doc) = [] →
  run (Some doc) = [ShowError "Envelope Fit" "No sign types found in this PDF."] ∧
  ∀ e, e ∈ run (Some doc) → is_output_event e = false.
Proof.
  intros Hnone.
  assert (run (Some doc)
          = [ShowError "Envelope Fit" "No sign types found in this PDF."]) as Hp.
  { unfold process_pdf_sorted_with_kits_and_envelopes. by rewrite Hnone. }
  split; [done|]. rewrite Hp. by intros e ->%list_elem_of_singleton.
Qed.

(** Otherwise the dialog is shown and, once it returns, the output
    document is created. *)
Lemma process_opens_output_otherwise (doc : Document) (fit_cfg : FitConfig) :
  unique_sign_types (with_items doc) ≠ [] →
  gui_envelope_fit (unique_sign_types (with_items doc)) = Some fit_cfg →
  OutOpen ∈ run (Some doc).
Proof.
  intros Hsome Hgui. unfold process_pdf_sorted_with_kits_and_envelopes.
  destruct (unique_sign_types (with_items doc)) as [|t ts] eqn:E; [done|].
  rewrite Hgui. destruct (compute_envelope_fit _ _) as [sw [fits not_fits]].
  destruct (group_wobbler_kits _ _) as [kits kit_by_store_id].
  destruct (render_output _ _ _ _ _ _) as [ops completed].
  right. left.
Qed.

End OrchestratorProperties.

Lemma process_stops_without_sign_types_witness :
  process_pdf_sorted_with_kits_and_envelopes (λ _, ∅) (λ _, "") (λ _, None) (λ _ _ _ _ _ _, ([NewPage], true))
          (Some blank_page_doc)
  = [ShowError "Envelope Fit" "No sign types found in this PDF."].
Proof.
  exact (proj1 (process_stops_without_sign_types
                  (λ _, ∅) (λ _, "") (λ _, None) (λ _ _ _ _ _ _, ([NewPage], true))
                  blank_page_doc eq_refl)).
Defined.

(** A document with an item does reach the output. *)
Example process_one_item_doc :
  process_pdf_sorted_with_kits_and_envelopes (λ _, ∅) (λ _, "") (λ _, Some cfg_ABC) (λ _ _ _ _ _ _, ([NewPage], true))
          (Some one_item_doc)
  = [EnvelopeFitDialog ["Shelf Wobbler"]; OutOpen; Out NewPage; OutSave; ShowInfo "Complete"].
Proof. reflexivity. Qed.


(** * Further properties *)

(** ** Canonicalisation *)



Lemma lower_eq_empty (s : string) : String.eqb (Py.lower s) "" = String.eqb s "".
Proof. by destruct s. Qed.

Lemma lower_ldrop (p : ascii → bool) (s : string) :
  (∀ c, p (Py.lower_char c) = p c) →
  Py.ldrop p (Py.lower s) = Py.lower (Py.ldrop p s).
Proof.
  intros Hp. induction s as [|c s IH]; simpl; [done|].
  rewrite Hp. by destruct (p c).
Qed.

Lemma lower_rdrop (p : ascii → bool) (s : string) :
  (∀ c, p (Py.lower_char c) = p c) →
  Py.rdrop p (Py.lower s) = Py.lower (Py.rdrop p s).
Proof.
  intros Hp. induction s as [|c s IH]; [done|].
  change (Py.lower (String c s)) with (String (Py.lower_char c) (Py.lower s)).
  rewrite !rdrop_cons, IH, lower_eq_empty, Hp.
  destruct (String.eqb _ _); [by destruct (p c)|done].
Qed.

Lemma lower_collapse (s : string) : ∀ b,
  Py.collapse_from b (Py.lower s) = Py.lower (Py.collapse_from b s).
Proof.
  induction s as [|c s IH]; intros b; simpl; [done|].
  rewrite lower_char_space. destruct (Py.is_space c); [destruct b|]; simpl;
    by rewrite IH.
Qed.

(** X3: [canon] does not see the case of letters: a string and its
    lower-case form have the same canonical form. *)
Theorem canon_ignores_case (s : string) : canon (Py.lower s) = canon s.
Proof.
  unfold canon. rewrite lower_eq_empty. destruct (String.eqb s ""); [done|].
  unfold Py.strip, Py.collapse_ws, Py.trim_stars.
  rewrite (lower_ldrop Py.is_space) by apply lower_char_space.
  rewrite (lower_rdrop Py.is_space) by apply lower_char_space.
  rewrite lower_collapse.
  rewrite (lower_ldrop Py.is_star) by apply lower_char_star.
  rewrite (lower_rdrop Py.is_star) by apply lower_char_star.
  apply lower_idem.
Qed.


(** ** Item extraction *)

Lemma strip_idem (s : string) : Py.strip (Py.strip s) = Py.strip s.
Proof.
  unfold Py.strip at 1.
  rewrite ldrop_id.
  - apply rdrop_id. unfold Py.strip. apply rdrop_last_char.
  - unfold Py.strip. apply rdrop_first_char, ldrop_first_char.
Qed.

Lemma extract_row_fields (st : ExtractState) (row : Row) :
  extract_fields_inv st →
  match extract_row st row with
  | inl st' => extract_fields_inv st'
  | inr its => Forall item_fields_ok its
  end.
Proof.
  intros [Hits Hlast]. unfold extract_row.
  set (t := Py.strip (type_text row)).
  set (pr := Py.strip (promo_text row)).
  set (qt := Py.strip (qty_text row)).
  assert (∀ ty, (if String.eqb t "" then ex_last_type st else Some t) = Some ty →
                ty ≠ "" ∧ Py.strip ty = ty) as Hlast'.
  { intros ty. destruct (String.eqb_spec t "") as [_|Hne]; [apply Hlast|].
    intros [= <-]. split; [done|apply strip_idem]. }
  destruct (Py.contains _ _).
  { split; [done|]. intros ty [=]. }
  destruct (if Py.isdigit qt then _ else None) as [ty|] eqn:E.
  - assert ((if String.eqb t "" then ex_last_type st else Some t) = Some ty) as Hty.
    { by destruct (Py.isdigit qt). }
    destruct (String.eqb_spec
                (Py.strip (Py.join_sp (filter (λ p, p ≠ "") (ex_promo_buf st ++ [pr])))) "")
      as [_|Hne]; [by split|].
    destruct (Py.int qt); [|done]. split; [|done]. simpl.
    apply Forall_app. split; [done|]. constructor; [|done].
    destruct (Hlast' ty Hty) as [? ?].
    repeat split; simpl; try done. apply strip_idem.
  - destruct (negb _ && negb _); by split.
Qed.

Lemma extract_rows_fields (rows : list Row) : ∀ st,
  extract_fields_inv st →
  match extract_rows st rows with
  | inl st' => extract_fields_inv st'
  | inr its => Forall item_fields_ok its
  end.
Proof.
  induction rows as [|row rows IH]; intros st Hst; simpl; [done|].
  pose proof (extract_row_fields st row Hst) as Hr.
  destruct (extract_row st row); [by apply IH|done].
Qed.

Lemma extract_pages_fields (doc : Document) (pgs : list nat) : ∀ st,
  extract_fields_inv st →
  match extract_pages doc st pgs with
  | inl st' => extract_fields_inv st'
  | inr its => Forall item_fields_ok its
  end.
Proof.
  induction pgs as [|p pgs IH]; intros st Hst; simpl; [done|].
  destruct (doc !! p) as [page|]; [|by destruct Hst].
  pose proof (extract_rows_fields (page_rows page) st Hst) as Hr.
  destruct (extract_rows st (page_rows page)); [by apply IH|done].
Qed.

Lemma extract_items_fields_all (doc : Document) (pgs : list nat) :
  Forall item_fields_ok (extract_items_from_pages doc pgs).
Proof.
  unfold extract_items_from_pages.
  pose proof (extract_pages_fields doc pgs (mkExtractState [] None [])) as H.
  destruct (extract_pages _ _ _) as [st|its].
  - apply H. split; [constructor|]. intros t [=].
  - apply H. split; [constructor|]. intros t [=].
Qed.

(** X4: every item that the extractor returns has a sign type and a
    promotion name that are not empty and carry no whitespace at either
    end. *)
Theorem extract_items_fields (doc : Document) (pgs : list nat) (it : ItemRecord) :
  it ∈ extract_items_from_pages doc pgs →
  it_type it ≠ "" ∧ it_promo it ≠ "" ∧
  Py.strip (it_type it) = it_type it ∧ Py.strip (it_promo it) = it_promo it.
Proof.
  intros Hin. pose proof (extract_items_fields_all doc pgs) as H.
  rewrite Forall_forall in H. by apply H.
Qed.

Lemma extract_items_fields_witness :
  it_type (mkItem "Shelf Wobbler" "Widget Promo" 5) ≠ "" ∧
  it_promo (mkItem "Shelf Wobbler" "Widget Promo" 5) ≠ "" ∧
  Py.strip "Shelf Wobbler" = "Shelf Wobbler" ∧ Py.strip "Widget Promo" = "Widget Promo".
Proof.
  apply (extract_items_fields one_item_doc [0] (mkItem "Shelf Wobbler" "Widget Promo" 5)).
  vm_compute. constructor.
Defined.

(** The loops only append: what a state holds stays at the front. *)
Lemma extract_row_prefix (st : ExtractState) (row : Row) :
  ex_items st `prefix_of` result_items (extract_row st row).
Proof.
  unfold extract_row. repeat (case_match; simpl; try done).
  all: by apply prefix_app_r.
Qed.

Lemma extract_rows_prefix (rows : list Row) : ∀ st,
  ex_items st `prefix_of` result_items (extract_rows st rows).
Proof.
  induction rows as [|row rows IH]; intros st; simpl; [done|].
  pose proof (extract_row_prefix st row) as Hr.
  destruct (extract_row st row) as [st'|its]; [|done].
  etrans; [exact Hr|apply IH].
Qed.

Lemma extract_pages_prefix (doc : Document) (pgs : list nat) : ∀ st,
  ex_items st `prefix_of` result_items (extract_pages doc st pgs).
Proof.
  induction pgs as [|p pgs IH]; intros st; simpl; [done|].
  destruct (doc !! p) as [page|]; [|done].
  pose proof (extract_rows_prefix (page_rows page) st) as Hr.
  destruct (extract_rows st (page_rows page)) as [st'|its]; [|done].
  etrans; [exact Hr|apply IH].
Qed.

Lemma extract_pages_app (doc : Document) (pgs1 pgs2 : list nat) : ∀ st,
  extract_pages doc st (pgs1 ++ pgs2) =
  match extract_pages doc st pgs1 with
  | inl st' => extract_pages doc st' pgs2
  | inr its => inr its
  end.
Proof.
  induction pgs1 as [|p pgs1 IH]; intros st; simpl; [done|].
  destruct (doc !! p) as [page|]; [|done].
  destruct (extract_rows st (page_rows page)); [apply IH|done].
Qed.

(** X5: reading more pages never changes what was extracted from the pages
    before: the items of a list of pages are the first items of any
    extension of that list (also when an exception ends the extraction). *)
Theorem extract_items_append_only (doc : Document) (pgs1 pgs2 : list nat) :
  extract_items_from_pages doc pgs1 `prefix_of` extract_items_from_pages doc (pgs1 ++ pgs2).
Proof.
  unfold extract_items_from_pages. rewrite extract_pages_app.
  destruct (extract_pages doc _ pgs1) as [st'|its]; [|done].
  apply (extract_pages_prefix doc pgs2 st').
Qed.

Lemma extract_row_count (st : ExtractState) (row : Row) :
  length (result_items (extract_row st row)) ≤
  length (ex_items st) + (if Py.isdigit (Py.strip (qty_text row)) then 1 else 0).
Proof.
  unfold extract_row. destruct (Py.contains _ _); [simpl; lia|].
  destruct (Py.isdigit _).
  - repeat (case_match; simpl; try lia). all: rewrite length_app; simpl; lia.
  - destruct (negb _ && negb _); simpl; lia.
Qed.

Lemma extract_rows_count (rows : list Row) : ∀ st,
  length (result_items (extract_rows st rows)) ≤
  length (ex_items st)
  + length (filter (λ row, Py.isdigit (Py.strip (qty_text row)) = true) rows).
Proof.
  induction rows as [|row rows IH]; intros st; simpl; [lia|].
  pose proof (extract_row_count st row) as Hr. rewrite filter_cons.
  destruct (decide (Py.isdigit (Py.strip (qty_text row)) = true)) as [Hd|Hd].
  - rewrite Hd in Hr. destruct (extract_row st row) as [st'|its]; simpl in *.
    + specialize (IH st'). lia.
    + lia.
  - apply not_true_is_false in Hd. rewrite Hd in Hr.
    destruct (extract_row st row) as [st'|its]; simpl in *.
    + specialize (IH st'). lia.
    + lia.
Qed.

Lemma extract_pages_count (doc : Document) (pgs : list nat) : ∀ st,
  length (result_items (extract_pages doc st pgs)) ≤
  length (ex_items st) + length (digit_rows doc pgs).
Proof.
  induction pgs as [|p pgs IH]; intros st; [simpl; lia|].
  unfold digit_rows. rewrite bind_cons, length_app. fold (digit_rows doc pgs).
  cbn [extract_pages]. destruct (doc !! p) as [page|]; [|simpl; lia].
  pose proof (extract_rows_count (page_rows page) st) as Hr.
  destruct (extract_rows st (page_rows page)) as [st'|its]; simpl in Hr.
  - specialize (IH st'). lia.
  - simpl. lia.
Qed.

(** X6: the extractor returns at most one item for each row whose
    quantity text is digits: rows without a quantity (continuation lines,
    totals, headings) never become items of their own. *)
Theorem extract_items_count (doc : Document) (pgs : list nat) :
  length (extract_items_from_pages doc pgs) ≤ length (digit_rows doc pgs).
Proof. apply (extract_pages_count doc pgs (mkExtractState [] None [])). Qed.

(** ** The two wobbler versions *)

Lemma drop_nonalc_from_spec (its : list ItemRecord) : ∀ has_alc has_non : bool,
  has_alc && has_non = false →
  (drop_nonalc_from has_alc has_non its = true ↔
   (has_alc = true ∨
    ∃ it, it ∈ its ∧ canon (it_type it) = TYPE_SHELF_WOBBLER_CANON ∧
          canon (it_promo it) = PROMO_WOBBLER_ALC_CANON) ∧
   (has_non = true ∨
    ∃ it, it ∈ its ∧ canon (it_type it) = TYPE_SHELF_WOBBLER_CANON ∧
          canon (it_promo it) = PROMO_WOBBLER_NONALC_CANON)).
Proof.
  induction its as [|it its IH]; intros a n Han; cbn [drop_nonalc_from].
  - split; [done|]. intros [[->|(it & Hin & _)] [->|(it' & Hin' & _)]];
      try done; by apply elem_of_nil in Hin || apply elem_of_nil in Hin'.
  - assert (PROMO_WOBBLER_ALC_CANON ≠ PROMO_WOBBLER_NONALC_CANON) as Hdiff by done.
    destruct (String.eqb_spec (canon (it_type it)) TYPE_SHELF_WOBBLER_CANON) as [Ht|Ht];
      cbn [negb].
    + destruct (String.eqb_spec (canon (it_promo it)) PROMO_WOBBLER_ALC_CANON) as [Ha|Ha];
        [|destruct (String.eqb_spec (canon (it_promo it)) PROMO_WOBBLER_NONALC_CANON)
            as [Hn|Hn]]; cbn [negb andb orb].
      * rewrite orb_true_r, orb_false_r. cbn [andb].
        destruct n.
        -- split; [intros _|done]. split; [right; exists it|by left].
           split; [left|done].
        -- rewrite (IH true false eq_refl). split.
           ++ intros [_ [?|(it' & Hin & ? & ?)]]; [done|].
              split; [right; exists it; split; [left|done]|].
              right. exists it'. split; [by right|done].
           ++ intros [_ [?|(it' & [->|Hin]%elem_of_cons & ? & ?)]]; [done|congruence|].
              split; [by left|]. right. by exists it'.
      * rewrite orb_false_r, orb_true_r.
        destruct a; cbn [andb].
        -- split; [intros _|done]. split; [by left|]. right. exists it.
           split; [left|done].
        -- rewrite (IH false true eq_refl). split.
           ++ intros [[?|(it' & Hin & ? & ?)] _]; [done|].
              split; [right; exists it'; split; [by right|done]|].
              right. exists it. split; [left|done].
           ++ intros [[?|(it' & [->|Hin]%elem_of_cons & ? & ?)] _]; [done|congruence|].
              split; [|by left]. right. by exists it'.
      * rewrite !orb_false_r. rewrite Han. rewrite (IH a n Han). split.
        -- intros [[?|(it' & Hin & ?)] [?|(it'' & Hin' & ?)]];
             (split; [first [by left|right; exists it'; split; [by right|done]]
                     |first [by left|right; exists it''; split; [by right|done]]]).
        -- intros [[?|(it' & [->|Hin]%elem_of_cons & ? & ?)]
                   [?|(it'' & [->|Hin']%elem_of_cons & ? & ?)]];
             try congruence;
             (split; [first [by left|right; by exists it']
                     |first [by left|right; by exists it'']]).
    + rewrite (IH a n Han). split.
      * intros [[?|(it' & Hin & ?)] [?|(it'' & Hin' & ?)]];
          (split; [first [by left|right; exists it'; split; [by right|done]]
                  |first [by left|right; exists it''; split; [by right|done]]]).
      * intros [[?|(it' & [->|Hin]%elem_of_cons & ? & ?)]
                [?|(it'' & [->|Hin']%elem_of_cons & ? & ?)]];
          try congruence;
          (split; [first [by left|right; by exists it']
                  |first [by left|right; by exists it'']]).
Qed.

(** X7: a store is marked for dropping the non-alcohol wobbler row exactly
    when its items hold a shelf wobbler of the alcohol version and a shelf
    wobbler of the non-alcohol version (types and promotions compared in
    canonical form). *)
Theorem store_should_drop_nonalc_iff (its : list ItemRecord) :
  store_should_drop_nonalc its = true ↔
  (∃ it, it ∈ its ∧ canon (it_type it) = TYPE_SHELF_WOBBLER_CANON ∧
         canon (it_promo it) = PROMO_WOBBLER_ALC_CANON) ∧
  (∃ it, it ∈ its ∧ canon (it_type it) = TYPE_SHELF_WOBBLER_CANON ∧
         canon (it_promo it) = PROMO_WOBBLER_NONALC_CANON).
Proof.
  unfold store_should_drop_nonalc. rewrite (drop_nonalc_from_spec its false false eq_refl).
  split.
  - intros [[?|?] [?|?]]; done.
  - intros [? ?]. split; by right.
Qed.

(** ** Sign types *)

Lemma fold_left_bind {A B C} (f : A → C → A) (g : B → list C) (l : list B) : ∀ a,
  fold_left (λ acc x, fold_left f (g x) acc) l a = fold_left f (l ≫= g) a.
Proof.
  induction l as [|x l IH]; intros a; [done|].
  rewrite bind_cons, fold_left_app. apply IH.
Qed.

Lemma unique_sign_types_fold (stores : list StoreRecord) :
  unique_sign_types stores = (fold_left seen_add (all_items stores) []).*2.
Proof. unfold unique_sign_types, all_items. by rewrite fold_left_bind. Qed.

(** The table [seen] after the items [its]: its keys are the canonical
    forms of the non-blank sign types in the order of first encounter, and
    each value is a stripped sign type of which the key is the canonical
    form. *)
Lemma seen_fold_spec (its : list ItemRecord) :
  (fold_left seen_add its []).*1
  = first_seen ((λ it, canon (Py.strip (it_type it)))
                  <$> filter (λ it, Py.strip (it_type it) ≠ "") its) ∧
  ∀ k v, (k, v) ∈ fold_left seen_add its [] →
    k = canon v ∧ v ≠ "" ∧ ∃ it, it ∈ its ∧ Py.strip (it_type it) = v.
Proof.
  induction its as [|it its [IHk IHv]] using rev_ind.
  - split; [done|]. intros k v Hin. by apply elem_of_nil in Hin.
  - rewrite fold_left_app. cbn [fold_left]. unfold seen_add at 1 3.
    rewrite filter_app, filter_cons, filter_nil.
    destruct (String.eqb_spec (Py.strip (it_type it)) "") as [He|Hne]; cbn [negb andb].
    + rewrite decide_False by (by intros ?). rewrite app_nil_r. split; [done|].
      intros k v Hin. destruct (IHv k v Hin) as (? & ? & it' & ? & ?).
      split; [done|]. split; [done|]. exists it'. split; [|done].
      apply elem_of_app. by left.
    + rewrite decide_True by done. rewrite fmap_app. simpl (_ <$> [it]).
      rewrite first_seen_snoc, <- IHk.
      destruct (decide (canon (Py.strip (it_type it)) ∈ (fold_left seen_add its []).*1))
        as [Hin|Hin].
      * rewrite bool_decide_eq_true_2 by done. cbn [negb]. split; [done|].
        intros k v Hkv. destruct (IHv k v Hkv) as (? & ? & it' & ? & ?).
        split; [done|]. split; [done|]. exists it'. split; [|done].
        apply elem_of_app. by left.
      * rewrite bool_decide_eq_false_2 by done. cbn [negb]. split.
        { by rewrite fmap_app. }
        intros k v [Hkv|Hkv%list_elem_of_singleton]%elem_of_app.
        -- destruct (IHv k v Hkv) as (? & ? & it' & ? & ?).
           split; [done|]. split; [done|]. exists it'. split; [|done].
           apply elem_of_app. by left.
        -- injection Hkv as -> ->. split; [done|]. split; [done|].
           exists it. split; [|done]. apply elem_of_app. right. by left.
Qed.

(** X8: the sign types offered to the envelope-fit dialog are one spelling
    for each canonical sign type of the items, in the order in which the
    canonical forms are first met; each of them is the stripped, non-empty
    sign type of some item, and no two of them have the same canonical
    form. *)
Theorem unique_sign_types_spec (stores : list StoreRecord) :
  canon <$> unique_sign_types stores
    = first_seen ((λ it, canon (Py.strip (it_type it)))
                    <$> filter (λ it, Py.strip (it_type it) ≠ "") (all_items stores)) ∧
  NoDup (canon <$> unique_sign_types stores) ∧
  (∀ t, t ∈ unique_sign_types stores →
        t ≠ "" ∧ ∃ it, it ∈ all_items stores ∧ Py.strip (it_type it) = t) ∧
  (∀ it, it ∈ all_items stores → Py.strip (it_type it) ≠ "" →
         ∃ t, t ∈ unique_sign_types stores ∧ canon t = canon (Py.strip (it_type it))).
Proof.
  rewrite unique_sign_types_fold.
  destruct (seen_fold_spec (all_items stores)) as [Hk Hv].
  assert (canon <$> (fold_left seen_add (all_items stores) []).*2
          = (fold_left seen_add (all_items stores) []).*1) as Hc.
  { rewrite <- list_fmap_compose. apply list_fmap_ext. intros i [k v] Hi. simpl.
    symmetry. apply (Hv k v). by eapply list_elem_of_lookup_2. }
  rewrite Hc, Hk. split; [done|]. split; [apply first_seen_NoDup|]. split.
  - intros t ([k v] & -> & Hin)%list_elem_of_fmap.
    by destruct (Hv k v Hin) as (_ & ? & ?).
  - intros it Hit Hne.
    assert (canon (Py.strip (it_type it)) ∈ (fold_left seen_add (all_items stores) []).*1)
      as Hin.
    { rewrite Hk, first_seen_elem_of. apply list_elem_of_fmap. exists it. split; [done|].
      by apply list_elem_of_filter. }
    apply list_elem_of_fmap in Hin as ([k v] & Hkeq & Hin). simpl in Hkeq. subst k.
    exists v. split; [by apply (list_elem_of_fmap_2 snd) in Hin|].
    symmetry. apply (Hv _ v Hin).
Qed.

(** ** Envelope fit: the two buckets *)

Lemma filter_partition_perm {A} (P : A → Prop) `{∀ x, Decision (P x)} (l : list A) :
  filter P l ++ filter (λ x, ¬ P x) l ≡ₚ l.
Proof.
  induction l as [|x l IH]; [done|]. rewrite !filter_cons.
  destruct (decide (P x)).
  - rewrite decide_False by tauto. simpl. by f_equiv.
  - rewrite decide_True by done. rewrite <- Permutation_middle. by f_equiv.
Qed.

Lemma filter_ext_Forall {A} (P Q : A → Prop) `{∀ x, Decision (P x)} `{∀ x, Decision (Q x)}
    (l : list A) :
  Forall (λ x, P x ↔ Q x) l → filter P l = filter Q l.
Proof.
  induction 1 as [|x l Hx Hl IH]; [done|]. rewrite !filter_cons, IH.
  destruct (decide (P x)); [by rewrite decide_True by tauto|by rewrite decide_False by tauto].
Qed.

(** X9: [compute_envelope_fit] gives every store a flag and changes nothing
    else; [fits] and [not_fits] are the stores with the flag true and the
    others, each in the order of the input, and together they are all the
    stores. *)
Theorem compute_envelope_fit_partition (stores : list StoreRecord) (fit_cfg : FitConfig) :
  let stores' := (compute_envelope_fit stores fit_cfg).1 in
  let fits := (compute_envelope_fit stores fit_cfg).2.1 in
  let not_fits := (compute_envelope_fit stores fit_cfg).2.2 in
  length stores' = length stores ∧
  (∀ i s', stores' !! i = Some s' →
     ∃ s b, stores !! i = Some s ∧ s' = set_fits_envelope b s ∧
            items s' = items s ∧ store_id s' = store_id s ∧ pages s' = pages s) ∧
  fits = filter (λ s, fits_envelope s = Some true) stores' ∧
  not_fits = filter (λ s, fits_envelope s = Some false) stores' ∧
  fits ++ not_fits ≡ₚ stores' ∧
  fits `sublist_of` stores' ∧ not_fits `sublist_of` stores'.
Proof.
  unfold compute_envelope_fit. cbn [fst snd].
  set (f := λ s, set_fits_envelope (envelope_fit_of (will_fit_set fit_cfg) s) s).
  split; [apply length_fmap|]. split.
  { intros i s' Hi. rewrite list_lookup_fmap in Hi.
    destruct (stores !! i) as [s|]; [|done]. injection Hi as <-.
    exists s, (envelope_fit_of (will_fit_set fit_cfg) s). done. }
  split; [done|].
  assert (filter (λ s, fits_envelope s ≠ Some true) (f <$> stores)
          = filter (λ s, fits_envelope s = Some false) (f <$> stores)) as Hnf.
  { apply filter_ext_Forall. apply Forall_forall.
    intros s' (s & -> & _)%list_elem_of_fmap. unfold f. simpl.
    destruct (envelope_fit_of _ s); split; congruence. }
  split; [done|]. split; [|split].
  - apply (filter_partition_perm (λ s, fits_envelope s = Some true)).
  - apply sublist_filter.
  - apply sublist_filter.
Qed.

Lemma unique_sign_types_nil (stores : list StoreRecord) (it : ItemRecord) :
  unique_sign_types stores = [] → it ∈ all_items stores → Py.strip (it_type it) = "".
Proof.
  rewrite unique_sign_types_fold. intros Hnil Hit.
  destruct (seen_fold_spec (all_items stores)) as [Hk _].
  apply fmap_nil_inv in Hnil. rewrite Hnil in Hk. simpl in Hk.
  destruct (decide (Py.strip (it_type it) = "")) as [|Hne]; [done|].
  assert (canon (Py.strip (it_type it)) ∈ @nil string) as Hin.
  { rewrite Hk, first_seen_elem_of. apply list_elem_of_fmap. exists it. split; [done|].
    by apply list_elem_of_filter. }
  by apply elem_of_nil in Hin.
Qed.

(** ** The orchestrator: when the run stops *)

Section StopCondition.

Variable extract_store_info : string → gmap string string.
Variable classify_store : string → string.
Variable gui_envelope_fit : list string → option FitConfig.
Variable render_output :
  Document → list StoreRecord → list StoreRecord → list StoreRecord →
  list WobblerKit → gmap string string → list OutOp * bool.

Lemma stores_with_items_elem_of (doc : Document) (s' : StoreRecord) :
  s' ∈ stores_with_items extract_store_info classify_store doc ↔
  ∃ s, s ∈ index_stores extract_store_info classify_store doc ∧
       s' = with_extracted_items doc s ∧
       extract_items_from_pages doc (pages s) ≠ [].
Proof.
  unfold stores_with_items, analysed_stores.
  rewrite list_elem_of_filter, list_elem_of_fmap. split.
  - intros [Hne (s & -> & Hs)]. by exists s.
  - intros (s & Hs & -> & Hne). split; [done|]. by exists s.
Qed.

(** X10: the run stops with the "No sign types found" message exactly when
    the extractor finds no item in any store of the document: a store with
    an item always contributes a sign type. *)
Theorem process_stops_iff_no_items (doc : Document) :
  process_pdf_sorted_with_kits_and_envelopes
    extract_store_info classify_store gui_envelope_fit render_output (Some doc)
  = [ShowError "Envelope Fit" "No sign types found in this PDF."] ↔
  ∀ s, s ∈ index_stores extract_store_info classify_store doc →
       extract_items_from_pages doc (pages s) = [].
Proof.
  unfold process_pdf_sorted_with_kits_and_envelopes. split.
  - intros Hp s Hs.
    destruct (unique_sign_types (stores_with_items extract_store_info classify_store doc))
      as [|t ts] eqn:Hu; [|discriminate Hp].
    destruct (extract_items_from_pages doc (pages s)) as [|it its] eqn:Hits; [done|].
    exfalso.
    assert (with_extracted_items doc s
            ∈ stores_with_items extract_store_info classify_store doc) as Hin.
    { apply stores_with_items_elem_of. exists s. by rewrite Hits. }
    assert (it ∈ all_items (stores_with_items extract_store_info classify_store doc)) as Hit.
    { unfold all_items. apply list_elem_of_bind. exists (with_extracted_items doc s).
      split; [|done]. simpl. rewrite Hits. left. }
    pose proof (unique_sign_types_nil _ it Hu Hit) as Hblank.
    pose proof (extract_items_fields_all doc (pages s)) as Hok.
    rewrite Hits in Hok. apply Forall_cons_1 in Hok as [(Hne & _ & Hst & _) _].
    congruence.
  - intros Hall.
    assert (stores_with_items extract_store_info classify_store doc = []) as ->; [|done].
    apply elem_of_nil_inv. intros s' (s & Hs & _ & Hne)%stores_with_items_elem_of.
    by apply Hne, Hall.
Qed.

End StopCondition.

(** ** Store indexing: the stores share out the pages *)

Lemma after_header_iff (doc : Document) (j : nat) :
  after_header doc j = true ↔ ∃ h, h ≤ j ∧ header_at doc h = true.
Proof.
  unfold after_header. rewrite existsb_exists. split.
  - intros (h & Hin%list_elem_of_In%elem_of_seq & Hh). exists h. split; [lia|done].
  - intros (h & Hle & Hh). exists h. split; [|done].
    apply list_elem_of_In, elem_of_seq. lia.
Qed.

Section IndexingPartition.

Variable extract_store_info : string → gmap string string.
Variable classify_store : string → string.

(** A loop invariant that holds at the start and is kept by every step
    holds at the end. *)
Lemma index_loop_ind (doc : Document) (I : nat → IndexState → Prop) :
  (∀ i page st, doc !! i = Some page → I i st →
                I (S i) (index_step extract_store_info classify_store st i page)) →
  ∀ rest pre st, doc = pre ++ rest → I (length pre) st →
    I (length doc) (index_loop extract_store_info classify_store st (length pre) rest).
Proof.
  intros Hstep. induction rest as [|page rest IH]; intros pre st Hdoc Hinv; simpl.
  - subst doc. by rewrite app_nil_r.
  - specialize (IH (pre ++ [page])
                  (index_step extract_store_info classify_store st (length pre) page)).
    rewrite length_app in IH. simpl in IH.
    replace (length pre + 1) with (S (length pre)) in IH by lia.
    apply IH.
    + subst doc. by rewrite <- app_assoc.
    + apply Hstep; [|done]. subst doc. by apply list_lookup_middle.
Qed.

Lemma filter_seq_S (P : nat → Prop) `{∀ j, Decision (P j)} (i : nat) :
  filter P (seq 0 (S i)) = filter P (seq 0 i) ++ (if decide (P i) then [i] else []).
Proof.
  rewrite seq_S, filter_app. cbn [Nat.add]. rewrite filter_cons, filter_nil.
  by destruct (decide (P i)).
Qed.

Lemma share_inv_skip (doc : Document) (i : nat) (st : IndexState) :
  usable_at doc i = false → share_inv doc i st → share_inv doc (S i) st.
Proof.
  intros Hu (Hp & Hc & Hs).
  assert (header_at doc i = false) as Hh.
  { destruct (header_at doc i) eqn:E; [|done]. apply header_at_usable in E. congruence. }
  split; [|split].
  - rewrite filter_seq_S, decide_False, app_nil_r; [done|]. rewrite Hu. by intros [? _].
  - rewrite filter_seq_S, decide_False, app_nil_r; [done|]. by rewrite Hh.
  - rewrite Hs. split; intros (h & Hlt & Hhd); exists h; split; try done; [lia|].
    destruct (decide (h = i)) as [->|]; [congruence|lia].
Qed.

Lemma share_inv_step (doc : Document) (i : nat) (page : Page) (st : IndexState) :
  doc !! i = Some page → share_inv doc i st →
  share_inv doc (S i) (index_step extract_store_info classify_store st i page).
Proof.
  intros Hi Hinv. unfold index_step.
  destruct (page_text page) as [text|] eqn:Et.
  2:{ apply share_inv_skip; [|done]. unfold usable_at, usable_page.
      by rewrite Hi; simpl; rewrite Et. }
  destruct (String.eqb (Py.strip text) "") eqn:Eb.
  { apply share_inv_skip; [|done]. unfold usable_at, usable_page.
    by rewrite Hi; simpl; rewrite Et, Eb. }
  assert (usable_at doc i = true) as Hu.
  { unfold usable_at, usable_page. by rewrite Hi; simpl; rewrite Et, Eb. }
  destruct Hinv as (Hp & Hc & Hs).
  destruct (is_header_page text) eqn:Eh.
  - assert (header_at doc i = true) as Hh.
    { unfold header_at, header_page. by rewrite Hi; simpl; rewrite Et, Eb, Eh. }
    assert (after_header doc i = true) as Ha by (apply after_header_iff; by exists i).
    split; [|split]; cbn [ix_stores ix_current].
    + rewrite filter_seq_S, decide_True by done.
      rewrite <- Hp. simpl. f_equal.
      destruct (ix_current st) as [pgs|]; simpl; [|by rewrite app_nil_r].
      rewrite fmap_app, concat_app. simpl. by rewrite app_nil_r.
    + rewrite filter_seq_S, decide_True by done.
      rewrite length_app, <- Hc. simpl.
      destruct (ix_current st); simpl; rewrite ?length_app; simpl; lia.
    + split; [intros _; exists i; split; [lia|done]|by eexists].
  - assert (header_at doc i = false) as Hh.
    { unfold header_at, header_page. by rewrite Hi; simpl; rewrite Et, Eb, Eh. }
    split; [|split]; cbn [ix_stores ix_current].
    + rewrite filter_seq_S, <- Hp.
      destruct (ix_current st) as [pgs|] eqn:Ec; simpl.
      * rewrite decide_True; [apply app_assoc|].
        split; [done|]. apply after_header_iff.
        destruct (proj1 Hs) as (h & Hlt & Hhd); [by eexists|]. exists h. split; [lia|done].
      * rewrite decide_False; [by rewrite !app_nil_r|].
        intros [_ (h & Hle & Hhd)%after_header_iff].
        destruct (decide (h = i)) as [->|]; [congruence|].
        assert (is_Some (@None (list nat))) as [? ?]; [|done].
        apply Hs. exists h. split; [lia|done].
    + rewrite filter_seq_S, decide_False, app_nil_r by (by rewrite Hh).
      rewrite <- Hc. by destruct (ix_current st).
    + rewrite fmap_is_Some, Hs.
      split; intros (h & Hlt & Hhd); exists h; split; try done; [lia|].
      destruct (decide (h = i)) as [->|]; [congruence|lia].
Qed.

(** X11: the stores share out, in document order and without overlap, the
    readable non-blank pages from the first header page on (a page before
    it is in no store, a later one in exactly one), and there are as many
    stores as there are header pages. *)
Theorem index_stores_share_pages (doc : Document) :
  concat (pages <$> index_stores extract_store_info classify_store doc)
    = filter (λ j, usable_at doc j = true ∧ after_header doc j = true)
             (seq 0 (length doc)) ∧
  length (index_stores extract_store_info classify_store doc)
    = length (filter (λ j, header_at doc j = true) (seq 0 (length doc))) ∧
  NoDup (concat (pages <$> index_stores extract_store_info classify_store doc)).
Proof.
  assert (share_inv doc (length doc)
            (index_loop extract_store_info classify_store (mkIndexState [] None "" ∅) 0 doc))
    as (Hp & Hc & _).
  { apply (index_loop_ind doc (share_inv doc) (share_inv_step doc) doc []); [done|].
    split; [done|]. split; [done|]. simpl. split; [by intros [? ?]|].
    intros (h & Hlt & _). lia. }
  assert (concat (pages <$> index_stores extract_store_info classify_store doc)
          = filter (λ j, usable_at doc j = true ∧ after_header doc j = true)
                   (seq 0 (length doc))) as Hcat.
  { rewrite <- Hp. unfold index_stores.
    destruct (ix_current _) as [pgs|]; simpl; [|by rewrite app_nil_r].
    rewrite fmap_app, concat_app. simpl. by rewrite app_nil_r. }
  split; [done|]. split.
  - rewrite <- Hc. unfold index_stores.
    destruct (ix_current _) as [pgs|]; simpl; rewrite ?length_app; simpl; lia.
  - rewrite Hcat. apply NoDup_filter, NoDup_seq.
Qed.

End IndexingPartition.

(** ** Wobbler kits: what every kit satisfies *)

Lemma str_lt_asym (x y : string) : Py.str_lt x y = true → Py.str_lt y x = false.
Proof.
  unfold Py.str_lt, String.ltb. rewrite (String.compare_antisym y x).
  by destruct (String.compare x y).
Qed.

Lemma retained_signature (stores : list StoreRecord) (min_stores : Z)
    (g : Signature * list (string * string)) :
  g ∈ retained stores min_stores →
  g.2 = members g.1 stores ∧ (min_stores ≤ Z.of_nat (length g.2))%Z ∧
  ∃ s, s ∈ stores ∧ in_grouping s = true ∧ signature s = g.1.
Proof.
  intros [Hg Hmin]%retained_elem_of. destruct g as [key grp].
  apply grouped_elem_of in Hg as [-> Hs]. done.
Qed.

(** X12: in every kit that [group_wobbler_kits] returns, [store_count] is
    the number of store ids and of store names and is at least
    [min_stores]; there are at least two items; the items are in the order
    of their (canonical promotion, quantity) pairs and the store names in
    code point order; and every store id is the id of a store of the input
    whose signature is that of the kit. *)
Theorem kit_well_formed (stores : list StoreRecord) (min_stores : Z) (k : WobblerKit) :
  k ∈ (group_wobbler_kits stores min_stores).1 →
  store_count k = length (store_ids k) ∧
  store_count k = length (kit_stores k) ∧
  (min_stores ≤ Z.of_nat (store_count k))%Z ∧
  2 ≤ length (kit_items k) ∧
  Sorted (λ a b, Py.pair_lt b a = false) (kit_signature k) ∧
  Sorted (λ a b, Py.str_lt b a = false) (kit_stores k) ∧
  ∀ sid, sid ∈ store_ids k →
    ∃ s, s ∈ stores ∧ store_id s = sid ∧ signature s = kit_signature k.
Proof.
  intros (j & g & Hj & ->)%kits_elem_of.
  apply list_elem_of_lookup_2 in Hj.
  destruct (retained_signature stores min_stores g Hj) as (Hm & Hmin & s & Hs & Hg & Hsig).
  destruct (grouping_state_spec stores) as (_ & Hok & _).
  assert (kit_signature (mk_kit (grouping_state stores).1 (S j) g) = g.1) as Hks.
  { apply mk_kit_signature; [done|]. apply grouped_covered.
    by apply retained_elem_of in Hj as [? _]. }
  unfold mk_kit at 1 2 3 4 5 6. cbn [store_count store_ids kit_stores kit_items].
  split; [by rewrite length_fmap|].
  split; [by rewrite sorted_perm, length_fmap|].
  split; [done|]. split.
  { rewrite length_fmap, <- Hsig. unfold signature. rewrite sorted_perm.
    unfold in_grouping in Hg. apply negb_true_iff, Nat.leb_gt in Hg. lia. }
  split.
  { rewrite Hks, <- Hsig. apply sorted_Sorted, pair_lt_asym. }
  split; [apply sorted_Sorted, str_lt_asym|].
  intros sid Hsid. rewrite Hks.
  apply list_elem_of_fmap in Hsid as ([sid' nm] & -> & Hin).
  rewrite Hm in Hin. unfold members in Hin.
  apply list_elem_of_fmap in Hin as (s' & [= -> ->] & Hs').
  apply list_elem_of_filter in Hs' as [[_ ?] ?]. by exists s'.
Qed.

Lemma kit_well_formed_witness :
  ∃ k, k ∈ (group_wobbler_kits two_kit_stores 2).1 ∧
       store_count k = 3 ∧ length (store_ids k) = 3 ∧ 2 ≤ length (kit_items k).
Proof.
  assert (mk_kit (grouping_state two_kit_stores).1 2
            ([("p", 1%Z); ("q", 1%Z)],
             [("A0002|", "A0002"); ("A0003|", "A0003"); ("A0005|", "A0005")])
          ∈ (group_wobbler_kits two_kit_stores 2).1) as Hin.
  { vm_compute. left. }
  destruct (kit_well_formed two_kit_stores 2 _ Hin) as (Hc & _ & _ & Hi & _).
  eexists. split; [exact Hin|]. split; [reflexivity|]. split; [by rewrite <- Hc|exact Hi].
Defined.

(** X13: no two kits of a result have the same label, and no two have the
    same combination of items. *)
Theorem kits_distinct (stores : list StoreRecord) (min_stores : Z) :
  NoDup (kit_name <$> (group_wobbler_kits stores min_stores).1) ∧
  NoDup (kit_signature <$> (group_wobbler_kits stores min_stores).1).
Proof.
  rewrite group_wobbler_kits_spec. cbn [fst]. rewrite !sorted_perm.
  destruct (grouping_state_spec stores) as (_ & Hok & _).
  split.
  - apply NoDup_alt. intros i j x.
    rewrite !list_lookup_fmap.
    destruct (labelled_kits stores min_stores !! i) as [ki|] eqn:Ei; [|done].
    destruct (labelled_kits stores min_stores !! j) as [kj|] eqn:Ej; [|done].
    apply labelled_kits_lookup in Ei as (gi & _ & ->).
    apply labelled_kits_lookup in Ej as (gj & _ & ->).
    simpl. intros [= <-] [= Heq]. apply (inj pretty) in Heq. lia.
  - apply NoDup_alt. intros i j x.
    rewrite !list_lookup_fmap.
    destruct (labelled_kits stores min_stores !! i) as [ki|] eqn:Ei; [|done].
    destruct (labelled_kits stores min_stores !! j) as [kj|] eqn:Ej; [|done].
    apply labelled_kits_lookup in Ei as (gi & Hgi & ->).
    apply labelled_kits_lookup in Ej as (gj & Hgj & ->).
    simpl. intros [= <-] [= Heq].
    pose proof (list_elem_of_lookup_2 _ _ _ Hgi) as Hi.
    pose proof (list_elem_of_lookup_2 _ _ _ Hgj) as Hj.
    rewrite !mk_kit_signature in Heq;
      try done; try (apply grouped_covered; by apply retained_elem_of in Hi as [? _]);
      try (apply grouped_covered; by apply retained_elem_of in Hj as [? _]).
    destruct (retained_signature _ _ _ Hi) as (Hmi & _).
    destruct (retained_signature _ _ _ Hj) as (Hmj & _).
    assert (gi = gj) as ->.
    { destruct gi, gj. simpl in *. congruence. }
    by apply (NoDup_lookup _ _ _ _ (retained_NoDup stores min_stores) Hgi Hgj).
Qed.

(** X14: the lookup from store ids to labels holds exactly the store ids
    that some kit lists, and the label it gives for a store id is the
    label of a kit that lists it. *)
Theorem kit_by_store_id_sound (stores : list StoreRecord) (min_stores : Z) (sid : string) :
  (is_Some ((group_wobbler_kits stores min_stores).2 !! sid) ↔
   ∃ k, k ∈ (group_wobbler_kits stores min_stores).1 ∧ sid ∈ store_ids k) ∧
  ∀ name, (group_wobbler_kits stores min_stores).2 !! sid = Some name →
    ∃ k, k ∈ (group_wobbler_kits stores min_stores).1 ∧
         kit_name k = name ∧ sid ∈ store_ids k.
Proof.
  rewrite group_wobbler_kits_spec. cbn [fst snd].
  generalize (Py.sorted count_gt (labelled_kits stores min_stores)). intros kits.
  assert (∀ name, index_kits kits !! sid = Some name →
            ∃ k, k ∈ kits ∧ kit_name k = name ∧ sid ∈ store_ids k) as Hsound.
  { induction kits as [|k kits IH] using rev_ind; intros name.
    - unfold index_kits. simpl. by rewrite lookup_empty.
    - rewrite index_kits_snoc, insert_ids_lookup.
      destruct (decide (sid ∈ store_ids k)) as [Hin|Hin].
      + intros [= <-]. exists k. split; [|done]. apply elem_of_app. right. left.
      + intros (k' & Hk' & ? & ?)%IH. exists k'. split; [|done].
        apply elem_of_app. by left. }
  split; [|done]. split.
  - intros [name Hn]. destruct (Hsound name Hn) as (k & ? & _ & ?). by exists k.
  - clear Hsound. induction kits as [|k kits IH] using rev_ind; intros (k0 & Hk0 & Hsid).
    + by apply elem_of_nil in Hk0.
    + rewrite index_kits_snoc, insert_ids_lookup.
      destruct (decide (sid ∈ store_ids k)) as [Hin|Hin]; [by eexists|].
      apply IH.
      apply elem_of_app in Hk0 as [?|Hk0%list_elem_of_singleton]; [by exists k0|].
      by subst k0.
Qed.

(** ** Wobbler kits: the spelling that a kit displays *)

Lemma first_spelling_snoc (p : string) (its : list ItemRecord) (it : ItemRecord) :
  first_spelling p (its ++ [it]) =
  match first_spelling p its with
  | Some t => Some t
  | None => if decide (qualifying_item it = true ∧ canon (it_promo it) = p)
            then Some (it_promo it) else None
  end.
Proof.
  unfold first_spelling. rewrite filter_app, filter_cons, filter_nil.
  destruct (filter _ its) as [|x l]; simpl; [|done].
  by destruct (decide _).
Qed.

Lemma wob_step_fst (rep : gmap string string) (wob : list (string * Z)) (it : ItemRecord) :
  (wob_step (rep, wob) it).1 =
  if qualifying_item it
  then match rep !! canon (it_promo it) with
       | Some _ => rep
       | None => <[canon (it_promo it) := it_promo it]> rep
       end
  else rep.
Proof.
  unfold wob_step, qualifying_item.
  destruct (String.eqb (canon (it_type it)) TYPE_SHELF_WOBBLER_CANON); [|done].
  by destruct (is_predetermined_wobbler (it_promo it)).
Qed.

Lemma wob_step_first (rep : gmap string string) (wob : list (string * Z))
    (pre : list ItemRecord) (it : ItemRecord) :
  (∀ p, rep !! p = first_spelling p pre) →
  ∀ p, (wob_step (rep, wob) it).1 !! p = first_spelling p (pre ++ [it]).
Proof.
  intros Hrep p. rewrite first_spelling_snoc, <- Hrep, wob_step_fst.
  destruct (decide (qualifying_item it = true ∧ canon (it_promo it) = p)) as [[Hq <-]|Hn].
  - rewrite Hq. destruct (rep !! canon (it_promo it)) as [t|] eqn:Ht.
    + by rewrite Ht.
    + by rewrite lookup_insert_eq.
  - destruct (qualifying_item it); [|by destruct (rep !! p)].
    assert (canon (it_promo it) ≠ p) as Hne by (intros ?; by apply Hn).
    assert ((match rep !! canon (it_promo it) with
             | Some _ => rep
             | None => <[canon (it_promo it) := it_promo it]> rep
             end) !! p = rep !! p) as ->.
    { destruct (rep !! canon (it_promo it)); [done|]. by rewrite lookup_insert_ne. }
    by destruct (rep !! p).
Qed.

Lemma wob_fold_first (its : list ItemRecord) : ∀ rep wob pre,
  (∀ p, rep !! p = first_spelling p pre) →
  ∀ p, (fold_left wob_step its (rep, wob)).1 !! p = first_spelling p (pre ++ its).
Proof.
  induction its as [|it its IH]; intros rep wob pre Hrep p; cbn [fold_left].
  - by rewrite app_nil_r.
  - pose proof (wob_step_first rep wob pre it Hrep) as Hstep.
    destruct (wob_step (rep, wob) it) as [rep' wob'].
    rewrite (IH rep' wob' (pre ++ [it]) Hstep). by rewrite <- app_assoc.
Qed.

Lemma grouping_state_first (stores : list StoreRecord) (p : string) :
  (grouping_state stores).1 !! p = first_spelling p (all_items stores).
Proof.
  revert p. induction stores as [|s stores IH] using rev_ind; intros p.
  - unfold grouping_state. simpl. by rewrite lookup_empty.
  - unfold grouping_state in *. rewrite fold_left_app. cbn [fold_left].
    destruct (fold_left group_step stores (∅, [])) as [rep combos].
    rewrite group_step_spec. cbn [fst] in *.
    rewrite (wob_fold_first (items s) rep [] (all_items stores) IH).
    unfold all_items. rewrite bind_app. simpl. by rewrite app_nil_r.
Qed.

(** X15: the promotion text that a kit shows for an item is the text, as
    it is written in the order, of the first qualifying item of all the
    stores (in store order, then item order) that has the same canonical
    promotion. *)
Theorem kit_items_first_spelling (stores : list StoreRecord) (min_stores : Z)
    (k : WobblerKit) (ki : KitItem) :
  k ∈ (group_wobbler_kits stores min_stores).1 → ki ∈ kit_items k →
  first_spelling (canon (ki_promo ki)) (all_items stores) = Some (ki_promo ki).
Proof.
  intros (j & g & Hj & ->)%kits_elem_of Hki.
  apply list_elem_of_lookup_2 in Hj. apply retained_elem_of in Hj as [Hg _].
  destruct (grouping_state_spec stores) as (_ & Hok & _).
  pose proof (grouped_covered stores g Hg) as Hcov.
  unfold mk_kit in Hki. cbn [kit_items] in Hki.
  apply list_elem_of_fmap in Hki as ([p q] & -> & Hpq).
  destruct (Hcov (p, q) Hpq) as [t Ht]. simpl in Ht. simpl. rewrite Ht. simpl.
  rewrite (Hok p t Ht). by rewrite <- grouping_state_first.
Qed.

Lemma kit_items_first_spelling_witness :
  first_spelling (canon "Widget Promo") (all_items (same_order_stores 3))
  = Some "Widget Promo".
Proof.
  apply (kit_items_first_spelling (same_order_stores 3) 2
           (mk_kit (grouping_state (same_order_stores 3)).1 1
              ([("soda 2 for 3", 2%Z); ("widget promo", 5%Z)],
               [("K0|", "K0"); ("K1|", "K1"); ("K2|", "K2")]))
           (mkKitItem "Widget Promo" 5)).
  - vm_compute. left.
  - vm_compute. right. left.
Defined.

(** ** Special signage *)

Lemma first_label_head (labels : list (string * list string)) (types : list string) :
  first_label labels types =
  fst <$> head (filter (λ ln, existsb (λ needle, existsb (Py.contains needle) types) ln.2 = true)
                       labels).
Proof.
  induction labels as [|[label needles] labels IH]; [done|].
  rewrite filter_cons. simpl.
  destruct (existsb _ needles) eqn:E.
  - by rewrite decide_True.
  - by rewrite decide_False.
Qed.

Lemma item_types_elem_of (its : list ItemRecord) (t : string) :
  t ∈ elements (item_types its) ↔
  ∃ it, it ∈ its ∧ it_type it ≠ "" ∧ t = canon (it_type it).
Proof.
  unfold item_types. rewrite elem_of_elements, elem_of_list_to_set, list_elem_of_fmap.
  split.
  - intros (ty & -> & Hty). apply list_elem_of_filter in Hty as [Hne Hty].
    apply list_elem_of_fmap in Hty as (it & -> & Hit). by exists it.
  - intros (it & Hit & Hne & ->). exists (it_type it). split; [done|].
    apply list_elem_of_filter. split; [done|]. apply list_elem_of_fmap. by exists it.
Qed.

Lemma has_sign_types (needles : list string) (its : list ItemRecord) :
  existsb (λ needle, existsb (Py.contains needle) (elements (item_types its))) needles
  = has_sign needles its.
Proof.
  apply eq_true_iff_eq. unfold has_sign. rewrite !existsb_exists. split.
  - intros (needle & Hn & Ht). apply existsb_exists in Ht as (t & Ht & Hc).
    apply list_elem_of_In, item_types_elem_of in Ht as (it & Hit & Hne & ->).
    exists it. split; [by apply list_elem_of_In|].
    apply andb_true_iff. split.
    + apply negb_true_iff, String.eqb_neq. done.
    + apply existsb_exists. by exists needle.
  - intros (it & Hit & Hb). apply andb_true_iff in Hb as [Hne Hb].
    apply existsb_exists in Hb as (needle & Hn & Hc).
    exists needle. split; [done|]. apply existsb_exists.
    exists (canon (it_type it)). split; [|done].
    apply list_elem_of_In, item_types_elem_of. exists it.
    split; [by apply list_elem_of_In|]. split; [|done].
    by apply negb_true_iff, String.eqb_neq in Hne.
Qed.

Lemma detect_special_box_label_head (s : StoreRecord) :
  detect_special_box_label s =
  fst <$> head (filter (λ ln, has_sign ln.2 (items s) = true) SPECIAL_SIGNAGE_LABELS).
Proof.
  unfold detect_special_box_label.
  destruct (items s) as [|it its] eqn:E; [done|].
  rewrite first_label_head. f_equal. f_equal.
  apply filter_ext_Forall, Forall_forall. intros ln _. by rewrite has_sign_types.
Qed.

Lemma detect_special_box_label_known (s : StoreRecord) (label : string) :
  detect_special_box_label s = Some label →
  label ∈ SPECIAL_SIGNAGE_LABEL_ORDER ∧ label ≠ "".
Proof.
  rewrite detect_special_box_label_head. intros Hl.
  destruct (head _) as [[l n]|] eqn:E; [|done]. injection Hl as ->.
  apply head_Some_elem_of, list_elem_of_filter in E as [_ Hin].
  unfold SPECIAL_SIGNAGE_LABEL_ORDER.
  split; [apply list_elem_of_fmap; by exists (label, n)|].
  unfold SPECIAL_SIGNAGE_LABELS in Hin.
  repeat (apply elem_of_cons in Hin as [[= -> ->] | Hin]; [done|]).
  by apply elem_of_nil in Hin.
Qed.

(** X16: [detect_special_box_label] gives the first label, in the order of
    [SPECIAL_SIGNAGE_LABELS], one of whose needles occurs in the canonical
    sign type of some item that has a sign type, and [None] when there is
    no such label; the order in which the set of sign types is walked
    plays no part.  So a store with a banner sign is a ["Banner Sign"]
    store whatever else it ordered. *)
Theorem detect_special_box_label_spec (s : StoreRecord) :
  detect_special_box_label s =
    fst <$> head (filter (λ ln, has_sign ln.2 (items s) = true) SPECIAL_SIGNAGE_LABELS) ∧
  (∀ label, detect_special_box_label s = Some label →
     label ∈ SPECIAL_SIGNAGE_LABEL_ORDER ∧ label ≠ "") ∧
  (detect_special_box_label s = Some "Banner Sign" ↔
     has_sign ["banner sign"] (items s) = true) ∧
  (detect_special_box_label s = None ↔
     ∀ ln, ln ∈ SPECIAL_SIGNAGE_LABELS → has_sign ln.2 (items s) = false).
Proof.
  split; [apply detect_special_box_label_head|].
  split; [apply detect_special_box_label_known|].
  rewrite detect_special_box_label_head. split.
  - unfold SPECIAL_SIGNAGE_LABELS. rewrite filter_cons. cbn [snd].
    destruct (decide (has_sign ["banner sign"] (items s) = true)) as [Hb|Hb]; [done|].
    split; [|done]. intros Hl.
    destruct (head _) as [[l n]|] eqn:E; [|done]. injection Hl as ->.
    apply head_Some_elem_of, list_elem_of_filter in E as [_ Hin].
    repeat (apply elem_of_cons in Hin as [Heq | Hin]; [discriminate Heq|]).
    by apply elem_of_nil in Hin.
  - split.
    + intros Hn ln Hin. destruct (has_sign ln.2 (items s)) eqn:E; [|done].
      destruct (filter _ SPECIAL_SIGNAGE_LABELS) as [|x l] eqn:Ef; [|done].
      assert (ln ∈ ([] : list (string * list string))) as Hnil.
      { rewrite <- Ef. by apply list_elem_of_filter. }
      by apply elem_of_nil in Hnil.
    + intros Hall.
      destruct (filter _ SPECIAL_SIGNAGE_LABELS) as [|x l] eqn:Ef; [done|].
      assert (x ∈ x :: l) as Hx by left. rewrite <- Ef in Hx.
      apply list_elem_of_filter in Hx as [Hx Hin]. by rewrite (Hall x Hin) in Hx.
Qed.

(** ** Store numbers *)

Lemma prefix_substring (n : nat) : ∀ s, String.prefix (String.substring 0 n s) s = true.
Proof.
  induction n as [|n IH]; intros [|c s]; simpl; try done.
  destruct (ascii_dec c c); [apply IH|done].
Qed.

Lemma contains_prefix (m s : string) : String.prefix m s = true → Py.contains m s = true.
Proof. intros H. destruct s; simpl in *; by rewrite H. Qed.

Lemma store_num_search_Some (s m : string) :
  store_num_search s = Some m → is_store_number m = true ∧ Py.contains m s = true.
Proof.
  induction s as [|c s IH].
  - simpl. done.
  - cbn [store_num_search].
    destruct (store_number_here (String c s)) eqn:E.
    + intros [= <-].
      split; [|apply contains_prefix; exact (prefix_substring 5 (String c s))].
      clear IH. unfold store_number_here in E.
      destruct s as [|d1 [|d2 [|d3 [|d4 s]]]]; try done.
      unfold is_store_number. simpl. rewrite E. by destruct s.
    + intros [Hm Hc]%IH. split; [done|]. simpl. rewrite Hc. by rewrite orb_true_r.
Qed.

Lemma store_number_here_prefix (m s : string) :
  is_store_number m = true → String.prefix m s = true → store_number_here s = true.
Proof.
  unfold is_store_number. intros [Hm Hl]%andb_true_iff.
  destruct m as [|c [|d1 [|d2 [|d3 [|d4 [|? ?]]]]]]; try done.
  destruct s as [|c' [|e1 [|e2 [|e3 [|e4 s]]]]]; simpl;
    repeat (match goal with |- context [ascii_dec ?a ?b] =>
              destruct (ascii_dec a b) as [->|]; [|done] end); try done.
Qed.

Lemma store_num_search_None (s : string) :
  store_num_search s = None ↔ ∀ m, is_store_number m = true → Py.contains m s = false.
Proof.
  induction s as [|c s IH].
  - simpl. split; [|done]. intros _ m Hm. unfold is_store_number in Hm.
    destruct m; [done|]. done.
  - cbn [store_num_search Py.contains].
    destruct (store_number_here (String c s)) eqn:E.
    + split; [done|]. intros Hall.
      destruct (store_num_search_Some (String c s) (String.substring 0 5 (String c s)))
        as [Hm Hc].
      { cbn [store_num_search]. by rewrite E. }
      pose proof (Hall _ Hm) as Hf. cbn [Py.contains] in Hc. congruence.
    + rewrite IH. split.
      * intros Hall m Hm. rewrite (Hall m Hm), orb_false_r.
        destruct (String.prefix m (String c s)) eqn:Ep; [|done].
        pose proof (store_number_here_prefix m _ Hm Ep). congruence.
      * intros Hall m Hm. pose proof (Hall m Hm) as Hf.
        by apply orb_false_iff in Hf as [_ ?].
Qed.

Lemma store_number_strip (m : string) : is_store_number m = true → Py.strip m = m.
Proof.
  unfold is_store_number. intros [Hm Hl]%andb_true_iff.
  destruct m as [|c [|d1 [|d2 [|d3 [|d4 [|? ?]]]]]]; try done.
  cbn [store_number_here] in Hm. do 4 (apply andb_true_iff in Hm as [Hm ?]).
  assert (Py.is_space c = false) as Hc.
  { revert Hm. clear. destruct c as [[] [] [] [] [] [] [] []]; by vm_compute. }
  assert (Py.is_space d4 = false) as Hd.
  { match goal with H : Py.is_decimal d4 = true |- _ => revert H end. clear.
    destruct d4 as [[] [] [] [] [] [] [] []]; by vm_compute. }
  unfold Py.strip. rewrite ldrop_id by (simpl; exact Hc).
  apply rdrop_id. simpl. exact Hd.
Qed.

Lemma extract_store_number_cases (s : StoreRecord) :
  (is_store_number (extract_store_number s) = true ∧
   Py.strip (extract_store_number s) = extract_store_number s ∧
   ∃ v, v ∈ [store_name s; store_id s; default "" (meta s !! "store")] ∧
        Py.contains (extract_store_number s) v = true) ∨
  (extract_store_number s = store_name s ∧
   ∀ v m, v ∈ [store_name s; store_id s; default "" (meta s !! "store")] →
          is_store_number m = true → Py.contains m v = false).
Proof.
  unfold extract_store_number.
  destruct (store_num_search (store_name s)) as [m|] eqn:E1.
  { left. apply store_num_search_Some in E1 as [Hm Hc].
    split; [done|]. split; [by apply store_number_strip|].
    exists (store_name s). split; [left|done]. }
  destruct (store_num_search (store_id s)) as [m|] eqn:E2.
  { left. apply store_num_search_Some in E2 as [Hm Hc].
    split; [done|]. split; [by apply store_number_strip|].
    exists (store_id s). split; [right; left|done]. }
  destruct (store_num_search (default "" (meta s !! "store"))) as [m|] eqn:E3.
  { left. apply store_num_search_Some in E3 as [Hm Hc].
    split; [done|]. split; [by apply store_number_strip|].
    exists (default "" (meta s !! "store")). split; [right; right; left|done]. }
  right. split; [done|]. intros v m Hv Hm.
  rewrite store_num_search_None in E1, E2, E3.
  repeat (apply elem_of_cons in Hv as [-> | Hv]; [auto|]).
  by apply elem_of_nil in Hv.
Qed.

(** X17: [extract_store_number] gives a store number, a capital letter and
    four digits that occur in the store name, in the store id or in the
    ['store'] entry of [meta], whenever there is one in any of the three;
    only when there is none in any of them does it give the store name
    unchanged. *)
Theorem extract_store_number_spec (s : StoreRecord) :
  let r := extract_store_number s in
  let sources := [store_name s; store_id s; default "" (meta s !! "store")] in
  (is_store_number r = true ∧ Py.strip r = r ∧
   ∃ v, v ∈ sources ∧ Py.contains r v = true) ∨
  (r = store_name s ∧
   ∀ v m, v ∈ sources → is_store_number m = true → Py.contains m v = false).
Proof. intros r sources. apply extract_store_number_cases. Qed.

(** ** The stores without order on the summary page *)

Lemma no_order_candidate_strip (s : StoreRecord) :
  no_order_candidate s = Py.strip (extract_store_number s).
Proof.
  unfold no_order_candidate.
  destruct (String.eqb_spec (Py.strip (extract_store_number s)) "") as [He|]; [|done].
  rewrite He.
  destruct (extract_store_number_cases s) as [(Hm & Hs & _)|[Hr _]].
  - rewrite Hs in He. rewrite He in Hm. discriminate Hm.
  - by rewrite <- Hr.
Qed.

Lemma no_order_fold (stores : list StoreRecord) :
  (fold_left no_order_add stores (∅, [])).2
    = first_seen (filter (λ c, c ≠ "") (no_order_candidate <$> stores)) ∧
  ∀ c, c ∈ (fold_left no_order_add stores (∅, [])).1 ↔
       c ∈ (fold_left no_order_add stores (∅, [])).2.
Proof.
  induction stores as [|s stores [IHd IHs]] using rev_ind.
  - split; [done|]. intros c. simpl. rewrite elem_of_nil. set_solver.
  - rewrite fold_left_app. cbn [fold_left]. unfold no_order_add at 1 3 5.
    rewrite fmap_app, filter_app. simpl (_ <$> [s]). rewrite filter_cons, filter_nil.
    destruct (String.eqb_spec (no_order_candidate s) "") as [He|Hne]; simpl.
    { rewrite decide_False by (by intros ?). by rewrite app_nil_r. }
    rewrite decide_True by done. rewrite first_seen_snoc, <- IHd.
    destruct (bool_decide_reflect
                (no_order_candidate s ∈ (fold_left no_order_add stores (∅, [])).1))
      as [Hin|Hin]; simpl.
    + rewrite decide_True by (by apply IHs). done.
    + rewrite decide_False by (by rewrite <- IHs). split; [done|].
      intros c. rewrite elem_of_union, elem_of_singleton, elem_of_app,
        list_elem_of_singleton, IHs. tauto.
Qed.

(** X18: the names on the "No Order Stores" line are the stripped results
    of [extract_store_number] for the stores without order, without the
    empty ones and without repetition, in the order in which they are
    first met; the second look at the store name (line 1057) never changes
    the candidate; and the line reads ["None"] exactly when every
    candidate is empty. *)
Theorem no_order_display_spec (stores : list StoreRecord) :
  no_order_display stores
    = first_seen (filter (λ c, c ≠ "")
                    ((λ s, Py.strip (extract_store_number s)) <$> stores)) ∧
  NoDup (no_order_display stores) ∧
  (∀ c, c ∈ no_order_display stores → c ≠ "" ∧ Py.strip c = c) ∧
  (no_order_line stores = "None" ↔
   (∀ s, s ∈ stores → Py.strip (extract_store_number s) = "") ∨
   no_order_display stores = ["None"]).
Proof.
  assert (no_order_display stores
          = first_seen (filter (λ c, c ≠ "")
                          ((λ s, Py.strip (extract_store_number s)) <$> stores))) as Hd.
  { unfold no_order_display. destruct (no_order_fold stores) as [-> _].
    f_equal. f_equal. apply list_fmap_ext. intros i s _. apply no_order_candidate_strip. }
  assert (∀ c, c ∈ no_order_display stores →
            c ≠ "" ∧ ∃ s, s ∈ stores ∧ c = Py.strip (extract_store_number s)) as Hel.
  { intros c. rewrite Hd, first_seen_elem_of, list_elem_of_filter, list_elem_of_fmap.
    intros [Hne (s & -> & Hs)]. split; [done|]. by exists s. }
  assert (∀ s, s ∈ stores → Py.strip (extract_store_number s) ≠ "" →
            Py.strip (extract_store_number s) ∈ no_order_display stores) as Hin.
  { intros s Hs Hne.
    rewrite Hd, first_seen_elem_of, list_elem_of_filter, list_elem_of_fmap.
    split; [done|]. by exists s. }
  split; [done|]. split; [rewrite Hd; apply first_seen_NoDup|]. clear Hd. split.
  - intros c [Hne (s & _ & ->)]%Hel. split; [done|apply strip_idem].
  - unfold no_order_line.
    destruct (no_order_display stores) as [|c l] eqn:E.
    + split; [|done]. intros _. left. intros s Hs.
      destruct (String.eqb_spec (Py.strip (extract_store_number s)) "") as [|Hne]; [done|].
      pose proof (Hin s Hs Hne) as Hnil. by apply elem_of_nil in Hnil.
    + destruct (Hel c) as [Hc _]; [left|].
      split.
      * destruct l as [|c' l]; simpl; [intros ->; by right|].
        intros Hj. exfalso.
        destruct c as [|a [|b [|d [|e c]]]]; try done; simpl in Hj; try discriminate Hj.
        injection Hj as -> -> -> -> Hj. destruct c; discriminate Hj.
      * intros [Hall|[= -> ->]]; [|done]. exfalso.
        destruct (Hel c) as [Hne (s & Hs & ->)]; [left|]. by apply Hne, Hall.
Qed.

(** ** The order of the stores *)

Section Stability.

Context {A : Type} (lt : A → A → bool).

(** A sort that only moves an element past the elements strictly below it
    keeps the order of elements none of which is below another. *)
Lemma insert_sorted_filter (P : A → Prop) `{∀ x, Decision (P x)} (x : A) (l : list A) :
  (∀ y, y ∈ l → P y → P x → lt y x = false) →
  filter P (Py.insert_sorted lt x l) = filter P (x :: l).
Proof.
  induction l as [|y l IH]; intros Hlt; [done|]. simpl.
  destruct (lt y x) eqn:E; [|done].
  rewrite (filter_cons _ y), IH, !filter_cons.
  2:{ intros z Hz. apply Hlt. by right. }
  destruct (decide (P y)) as [Hy|Hy]; [|done].
  destruct (decide (P x)) as [Hx|Hx]; [|done].
  rewrite Hlt in E; [done|left|done|done].
Qed.

Lemma sorted_stable (P : A → Prop) `{∀ x, Decision (P x)} (l : list A) :
  (∀ x y, P x → P y → lt x y = false) →
  filter P (Py.sorted lt l) = filter P l.
Proof.
  intros Hlt. induction l as [|x l IH]; [done|]. simpl.
  rewrite insert_sorted_filter by (intros; by apply Hlt).
  by rewrite !filter_cons, IH.
Qed.

End Stability.

Lemma rank_of_snoc (order : list string) (t : string) :
  rank_of (order ++ [t]) = <[t := Z.of_nat (length order)]> (rank_of order).
Proof.
  unfold rank_of. rewrite length_app. simpl. rewrite Nat.add_1_r, seq_S. simpl.
  rewrite zip_with_app by (by rewrite length_seq). by rewrite fold_left_app.
Qed.

Lemma rank_of_lookup (order : list string) (t : string) (i : nat) :
  NoDup order → rank_of order !! t = Some (Z.of_nat i) ↔ order !! i = Some t.
Proof.
  revert i. induction order as [|x order IH] using rev_ind; intros i Hnd.
  - unfold rank_of. simpl. by rewrite lookup_empty.
  - apply NoDup_app in Hnd as (Hnd & Hx & _). rewrite rank_of_snoc.
    destruct (decide (x = t)) as [->|Hne].
    + rewrite lookup_insert_eq. split.
      * intros [= Hi]. apply Nat2Z.inj in Hi as <-. by apply list_lookup_middle.
      * intros Hi. destruct (decide (i < length order)) as [Hlt|Hge].
        { rewrite lookup_app_l in Hi by done. apply list_elem_of_lookup_2 in Hi.
          exfalso. apply (Hx t Hi). left. }
        apply lookup_lt_Some in Hi. rewrite length_app in Hi. simpl in Hi.
        f_equal. lia.
    + rewrite lookup_insert_ne by done. rewrite IH by done. split.
      * intros Hi. by apply lookup_app_l_Some.
      * intros Hi. apply lookup_app_Some in Hi as [Hi|[_ Hi]]; [done|].
        apply list_lookup_singleton_Some in Hi as [_ ?]. done.
Qed.

Lemma rank_of_None (order : list string) (t : string) :
  rank_of order !! t = None ↔ t ∉ order.
Proof.
  induction order as [|x order IH] using rev_ind.
  - unfold rank_of. simpl. rewrite lookup_empty. split; [|done]. intros _. apply not_elem_of_nil.
  - rewrite rank_of_snoc, not_elem_of_app, list_elem_of_singleton.
    destruct (decide (x = t)) as [->|Hne].
    + rewrite lookup_insert_eq. split; [done|]. intros [_ ?]. done.
    + rewrite lookup_insert_ne by done. rewrite IH. split; [|tauto].
      intros ?. split; [done|]. by intros ->.
Qed.

Lemma key_lt_false_iff (a b : Z * string * string) :
  key_lt b a = false ↔
  (a.1.1 < b.1.1)%Z ∨
  (a.1.1 = b.1.1 ∧
   (String.compare a.1.2 b.1.2 = Lt ∨ (a.1.2 = b.1.2 ∧ String.le a.2 b.2))).
Proof.
  unfold key_lt, Py.str_lt, String.le, String.leb, String.ltb.
  destruct (Z.eqb_spec b.1.1 a.1.1) as [Heq|Hne].
  - rewrite (String.compare_antisym b.1.2 a.1.2), (String.compare_antisym b.2 a.2).
    destruct (String.compare a.1.2 b.1.2) eqn:E; simpl.
    + apply String.compare_eq_iff in E.
      destruct (String.compare a.2 b.2); simpl; split; try done; try lia;
        try (intros _; right; by auto).
      intros [?|[_ [?|[_ ?]]]]; try done; lia.
    + split; [|done]. intros _. right. split; [done|]. by left.
    + split; [done|]. intros [?|[_ [?|[Heq' _]]]]; [lia|done|].
      rewrite Heq' in E.
      pose proof (String.compare_antisym b.1.2 b.1.2) as H.
      rewrite E in H. discriminate H.
  - rewrite Z.ltb_ge. split; [intros; left; lia|]. intros [?|[? _]]; [lia|done].
Qed.

Lemma key_lt_asym (a b : Z * string * string) : key_lt a b = true → key_lt b a = false.
Proof.
  unfold key_lt, Py.str_lt, String.ltb.
  rewrite (Z.eqb_sym b.1.1 a.1.1).
  destruct (Z.eqb_spec a.1.1 b.1.1) as [Heq|Hne].
  - rewrite (String.compare_antisym b.1.2 a.1.2), (String.compare_antisym b.2 a.2).
    destruct (String.compare a.1.2 b.1.2); simpl; try done.
    by destruct (String.compare a.2 b.2).
  - rewrite Z.ltb_lt, Z.ltb_ge. lia.
Qed.

#[local] Instance key_not_above_trans :
  Transitive (λ a b : Z * string * string, key_lt b a = false).
Proof.
  intros a b c. rewrite !key_lt_false_iff.
  intros [Hab|[Hab Hab']] [Hbc|[Hbc Hbc']]; try (left; lia).
  right. split; [congruence|].
  destruct Hab' as [Hab'|[Hab1 Hab2]], Hbc' as [Hbc'|[Hbc1 Hbc2]].
  - left. by eapply str_compare_lt_trans.
  - left. by rewrite <- Hbc1.
  - left. by rewrite Hab1.
  - right. split; [congruence|]. by etrans.
Qed.

(** X19: sorting by [store_sort_key] rearranges the stores and drops or
    adds none; in the result no store has a key above that of a later
    store, so the store types come in the order of their ranks (the
    position in [STORE_TYPE_ORDER], 999 for any other type), within a
    rank the locations in code point order, and within a location the
    store names; and stores with the same key keep the order they had. *)
Theorem sort_stores_spec (stores : list StoreRecord) :
  sort_stores stores ≡ₚ stores ∧
  StronglySorted (λ a b, key_lt (store_sort_key b) (store_sort_key a) = false)
                 (sort_stores stores) ∧
  StronglySorted (λ a b, ((store_sort_key a).1.1 ≤ (store_sort_key b).1.1)%Z)
                 (sort_stores stores) ∧
  (∀ k, filter (λ s, store_sort_key s = k) (sort_stores stores)
        = filter (λ s, store_sort_key s = k) stores) ∧
  (∀ t i, STORE_TYPE_RANK !! t = Some (Z.of_nat i) ↔ STORE_TYPE_ORDER !! i = Some t) ∧
  (∀ t, STORE_TYPE_RANK !! t = None ↔ t ∉ STORE_TYPE_ORDER).
Proof.
  assert (StronglySorted (λ a b, key_lt (store_sort_key b) (store_sort_key a) = false)
                         (sort_stores stores)) as Hs.
  { apply Sorted_StronglySorted.
    - intros a b c. apply key_not_above_trans.
    - apply (sorted_Sorted (λ a b, key_lt (store_sort_key a) (store_sort_key b))).
      intros x y. apply key_lt_asym. }
  split; [apply sorted_perm|]. split; [done|]. split.
  { eapply strongly_sorted_impl; [|exact Hs]. intros a b Hab.
    apply key_lt_false_iff in Hab as [? | [? _]]; lia. }
  split.
  { intros k. apply sorted_stable. intros x y -> Hy. rewrite Hy.
    destruct (key_lt k k) eqn:E; [|done]. by rewrite (key_lt_asym _ _ E) in E. }
  split.
  - intros t i. apply rank_of_lookup. unfold STORE_TYPE_ORDER.
    apply (bool_decide_unpack _). by vm_compute.
  - intros t. apply rank_of_None.
Qed.

(** ** The split of the box stores by special signage *)

Lemma filter_disjoint_perm {A} (P Q : A → Prop) `{∀ x, Decision (P x)} `{∀ x, Decision (Q x)}
    (l : list A) :
  (∀ x, P x → Q x → False) →
  filter P l ++ filter Q l ≡ₚ filter (λ x, P x ∨ Q x) l.
Proof.
  intros Hd. induction l as [|x l IH]; [done|]. rewrite !filter_cons.
  destruct (decide (P x)) as [Hp|Hp], (decide (Q x)) as [Hq|Hq].
  - destruct (Hd x Hp Hq).
  - rewrite decide_True by tauto. simpl. by f_equiv.
  - rewrite decide_True by tauto. rewrite <- Permutation_middle. by f_equiv.
  - by rewrite decide_False by tauto.
Qed.

Lemma buckets_perm {A} (f : A → option string) (labels : list string) (l : list A) :
  NoDup labels →
  labels ≫= (λ label, filter (λ x, f x = Some label) l)
    ≡ₚ filter (λ x, f x ∈ Some <$> labels) l.
Proof.
  induction 1 as [|label labels Hn Hnd IH].
  - simpl. rewrite (filter_ext_Forall _ (λ _, False)).
    + by induction l.
    + apply Forall_forall. intros x _. rewrite elem_of_nil. done.
  - rewrite bind_cons, IH, filter_disjoint_perm.
    + rewrite (filter_ext_Forall _ (λ x, f x ∈ Some <$> label :: labels)); [done|].
      apply Forall_forall. intros x _. rewrite fmap_cons, elem_of_cons.
      split; (intros [?|?]; [by left|by right]).
    + intros x Hx Hin. rewrite Hx in Hin.
      apply list_elem_of_fmap in Hin as (l' & [= <-] & Hin). done.
Qed.

Lemma box_split_snoc (stores : list StoreRecord) (s : StoreRecord) :
  box_split (stores ++ [s]) = box_split stores ≫= λ a, box_step a s.
Proof. unfold box_split. by rewrite foldl_app. Qed.

(** X20: the split of the box stores never fails; every label of
    [SPECIAL_SIGNAGE_LABEL_ORDER] gets the stores that
    [detect_special_box_label] gives that label, [box_general] gets the
    stores without a label, each in the order of the list that is split;
    and the buckets together hold every store once. *)
Theorem box_split_spec (stores : list StoreRecord) :
  ∃ box_special,
    box_split stores
      = Some (box_special, filter (λ s, detect_special_box_label s = None) stores) ∧
    (∀ label,
       box_special !! label =
       if decide (label ∈ SPECIAL_SIGNAGE_LABEL_ORDER)
       then Some (filter (λ s, detect_special_box_label s = Some label) stores)
       else None) ∧
    (SPECIAL_SIGNAGE_LABEL_ORDER
       ≫= (λ label, filter (λ s, detect_special_box_label s = Some label) stores))
      ++ filter (λ s, detect_special_box_label s = None) stores ≡ₚ stores.
Proof.
  assert (∃ box_special,
    box_split stores
      = Some (box_special, filter (λ s, detect_special_box_label s = None) stores) ∧
    (∀ label,
       box_special !! label =
       if decide (label ∈ SPECIAL_SIGNAGE_LABEL_ORDER)
       then Some (filter (λ s, detect_special_box_label s = Some label) stores)
       else None)) as (box_special & Hs & Hl).
  { induction stores as [|s stores (m & Hs & Hl)] using rev_ind.
    - eexists. split; [reflexivity|]. intros label.
      destruct (decide (label ∈ SPECIAL_SIGNAGE_LABEL_ORDER)) as [Hin|Hin].
      + unfold SPECIAL_SIGNAGE_LABEL_ORDER, SPECIAL_SIGNAGE_LABELS in Hin.
        simpl in Hin.
        repeat (apply elem_of_cons in Hin as [-> | Hin]; [by vm_compute|]).
        by apply elem_of_nil in Hin.
      + apply not_elem_of_list_to_map_1. rewrite <- list_fmap_compose.
        by rewrite list_fmap_id.
    - rewrite box_split_snoc, Hs. simpl. unfold box_step.
      assert (∀ l, filter (λ s0, detect_special_box_label s0 = Some l) (stores ++ [s])
                = filter (λ s0, detect_special_box_label s0 = Some l) stores
                  ++ (if decide (detect_special_box_label s = Some l) then [s] else []))
        as Hf.
      { intros o. rewrite filter_app, filter_cons, filter_nil. by destruct (decide _). }
      assert (filter (λ s0, detect_special_box_label s0 = None) (stores ++ [s])
                = filter (λ s0, detect_special_box_label s0 = None) stores
                  ++ (if decide (detect_special_box_label s = None) then [s] else []))
        as Hn.
      { rewrite filter_app, filter_cons, filter_nil. by destruct (decide _). }
      destruct (detect_special_box_label s) as [label|] eqn:Ed.
      + destruct (detect_special_box_label_known s label Ed) as [Hin Hne].
        apply String.eqb_neq in Hne. rewrite Hne.
        pose proof (Hl label) as Hlab. rewrite decide_True in Hlab by done.
        rewrite Hlab. simpl. eexists. split.
        { rewrite Hn, decide_False by done. by rewrite app_nil_r. }
        intros label'. rewrite Hf. destruct (decide (label = label')) as [<-|Hne'].
        * rewrite lookup_insert_eq, decide_True by done.
          by rewrite decide_True by done.
        * rewrite lookup_insert_ne by done. rewrite Hl.
          destruct (decide (label' ∈ _)); [|done].
          rewrite decide_False by congruence. by rewrite app_nil_r.
      + exists m. split; [by rewrite Hn, decide_True by done|].
        intros label'. rewrite Hl, Hf. destruct (decide (label' ∈ _)); [|done].
        rewrite decide_False by done. by rewrite app_nil_r. }
  exists box_special. split; [done|]. split; [done|].
  rewrite buckets_perm.
  2:{ apply (bool_decide_unpack _). by vm_compute. }
  rewrite (filter_ext_Forall (λ s, detect_special_box_label s = None)
             (λ s, ¬ detect_special_box_label s ∈ Some <$> SPECIAL_SIGNAGE_LABEL_ORDER)).
  - apply filter_partition_perm.
  - apply Forall_forall. intros s _. split.
    + intros -> Hin. apply list_elem_of_fmap in Hin as (? & ? & _). done.
    + intros Hn. destruct (detect_special_box_label s) as [label|] eqn:Ed; [|done].
      exfalso. apply Hn. apply list_elem_of_fmap. exists label. split; [done|].
      by apply detect_special_box_label_known in Ed as [? _].
Qed.

(** ** The classification of a store *)

(** X21: whatever the text, [classify_store] gives one of the twelve
    non-empty store types of [STORE_TYPE_ORDER]: the one at position
    [4 * a + k], where [a] is 0 for alcohol, 1 for non-alcohol and 2 for
    neither, and [k] is 0 for counter and shipper, 1 for counter only, 2
    for shipper only and 3 for neither.  That position is its rank in the
    order of the stores, so the rank 999 of an unknown type is never used
    for it; and a store is never both alcohol and non-alcohol. *)
Theorem classify_store_type (text : string) :
  let c := Header.classify_store text in
  let a := if Header.is_alcohol c then 0 else if Header.is_non_alcohol c then 1 else 2 in
  let k := if Header.is_counter c && Header.is_shipper c then 0
           else if Header.is_counter c then 1
           else if Header.is_shipper c then 2 else 3 in
  STORE_TYPE_ORDER !! (4 * a + k) = Some (Header.cl_store_type c) ∧
  STORE_TYPE_RANK !! Header.cl_store_type c = Some (Z.of_nat (4 * a + k)) ∧
  Header.cl_store_type c ≠ "" ∧
  Header.is_alcohol c && Header.is_non_alcohol c = false.
Proof.
  intros c a k.
  assert (STORE_TYPE_ORDER !! (4 * a + k) = Some (Header.cl_store_type c)) as Hpos.
  { subst c a k. unfold Header.classify_store.
    cbn [Header.is_alcohol Header.is_non_alcohol Header.is_counter Header.is_shipper
         Header.cl_store_type].
    generalize (Header.clean_text_for_kits text). intros t.
    destruct (Py.contains KIT_COUNTER t), (Py.contains KIT_SHIPPER t),
      (Py.contains KIT_ALC t), (Py.contains KIT_NONALC t); reflexivity. }
  split; [done|]. split.
  { apply rank_of_lookup; [|done]. apply (bool_decide_unpack _). by vm_compute. }
  split.
  { intros He. rewrite He in Hpos.
    assert (4 * a + k < 12) as Hlt.
    { subst a k. destruct (Header.is_alcohol c), (Header.is_non_alcohol c),
        (Header.is_counter c && Header.is_shipper c), (Header.is_counter c),
        (Header.is_shipper c); simpl; lia. }
    revert Hpos. generalize (4 * a + k) Hlt. intros n Hn.
    do 12 (destruct n as [|n]; [done|]). lia. }
  subst c. unfold Header.classify_store. cbn [Header.is_alcohol Header.is_non_alcohol].
  generalize (Header.clean_text_for_kits text). intros t.
  by destruct (Py.contains KIT_ALC t), (Py.contains KIT_NONALC t).
Qed.

Lemma star_free_collapse (s : string) : ∀ b,
  star_free s = true → star_free (Py.collapse_from b s) = true.
Proof.
  unfold star_free. induction s as [|c s IH]; intros b; simpl; [done|].
  intros [Hc Hs]%andb_true_iff.
  destruct (Py.is_space c); [destruct b|]; simpl; rewrite ?Hc; simpl; by apply IH.
Qed.

Lemma star_free_ldrop (p : ascii → bool) (s : string) :
  star_free s = true → star_free (Py.ldrop p s) = true.
Proof.
  unfold star_free. induction s as [|c s IH]; simpl; [done|].
  intros H. destruct (p c); [|done]. apply andb_true_iff in H as [_ H]. by apply IH.
Qed.

(** A pattern that begins with an asterisk matches nowhere in a text
    without asterisks, and no text that begins with one occurs in it. *)
Lemma match_spaced_star_free (pat : list ascii) (s : string) :
  star_free s = true → Header.match_spaced ("*"%char :: pat) s = None.
Proof.
  intros Hs%(star_free_ldrop Py.is_space). cbn [Header.match_spaced].
  destruct (Py.ldrop Py.is_space s) as [|d s']; [done|].
  unfold star_free in Hs. simpl in Hs. apply andb_true_iff in Hs as [Hd _].
  assert (Header.ci_eq "*" d = false) as ->; [|done].
  revert Hd. clear. destruct d as [[] [] [] [] [] [] [] []]; by vm_compute.
Qed.

Lemma sub_spaced_star_free (pat : list ascii) (repl s : string) :
  star_free s = true → Header.sub_spaced ("*"%char :: pat) repl 0 s = s.
Proof.
  induction s as [|c s IH]; [done|]. intros Hs.
  cbn [Header.sub_spaced]. rewrite match_spaced_star_free by done.
  f_equal. apply IH. unfold star_free in *. simpl in Hs.
  by apply andb_true_iff in Hs as [_ ?].
Qed.

Lemma contains_star_free (needle s : string) :
  star_free s = true → Py.contains (String "*" needle) s = false.
Proof.
  induction s as [|c s IH]; [done|]. unfold star_free. cbn [Py.all_chars].
  intros [Hc Hs]%andb_true_iff. cbn [Py.contains String.prefix].
  rewrite (IH Hs), orb_false_r.
  destruct (ascii_dec "*" c) as [<-|]; [discriminate Hc|done].
Qed.

(** X22: a text without an asterisk is left as it is by the four marker
    substitutions (only its whitespace is collapsed), and is classified as
    ["No Counter/Shipper"] with every flag false. *)
Theorem classify_store_no_asterisk (text : string) :
  star_free text = true →
  Header.clean_text_for_kits text = Py.collapse_ws text ∧
  Header.classify_store text
    = Header.mkClassification "No Counter/Shipper" false false false false.
Proof.
  intros Hs.
  pose proof (star_free_collapse text false Hs) as Hc.
  assert (Header.clean_text_for_kits text = Py.collapse_ws text) as Hclean.
  { unfold Header.clean_text_for_kits, Py.collapse_ws.
    unfold Header.PAT_COUNTER, Header.PAT_SHIPPER, Header.PAT_ALC, Header.PAT_NONALC.
    cbn [String.list_ascii_of_string].
    rewrite (sub_spaced_star_free _ KIT_COUNTER _ Hc).
    rewrite (sub_spaced_star_free _ KIT_SHIPPER _ Hc).
    rewrite (sub_spaced_star_free _ KIT_ALC _ Hc).
    apply (sub_spaced_star_free _ KIT_NONALC _ Hc). }
  split; [done|]. unfold Header.classify_store. rewrite Hclean.
  unfold KIT_COUNTER, KIT_SHIPPER, KIT_ALC, KIT_NONALC.
  by rewrite !(contains_star_free _ _ Hc).
Qed.

Lemma classify_store_no_asterisk_witness :
  Header.cl_store_type (Header.classify_store "Store: A1234 Class: 10 Banner Sign 2")
  = "No Counter/Shipper".
Proof.
  by rewrite (proj2 (classify_store_no_asterisk "Store: A1234 Class: 10 Banner Sign 2"
                       eq_refl)).
Defined.

(** ** The header fields of a store *)












(** *** Lines *)

Lemma splitlines_cons_ne (c : ascii) (s : string) : Header.splitlines (String c s) ≠ [].
Proof.
  cbn [Header.splitlines]. destruct (Header.is_linebreak c); [done|].
  by destruct (Header.splitlines s).
Qed.

Lemma splitlines_LF (s : string) : Header.splitlines (String LF s) = "" :: Header.splitlines s.
Proof. by destruct s. Qed.

(** An induction that looks two characters ahead, as [splitlines] does at
    a carriage return. *)
Lemma string_ind2 (P : string → Prop) :
  P "" → (∀ c, P (String c "")) →
  (∀ c d s, P s → P (String d s) → P (String c (String d s))) →
  ∀ s, P s.
Proof.
  intros H0 H1 H2 s.
  assert (P s ∧ ∀ c, P (String c s)) as [? _]; [|done].
  induction s as [|d s [IHs IHc]]; [by split|].
  split; [apply IHc|]. intros c. by apply H2.
Qed.

Lemma splitlines_one_line (line rest : string) :
  one_line line = true →
  Header.splitlines (line +:+ String LF rest) = line :: Header.splitlines rest.
Proof.
  unfold one_line. induction line as [|c line IH]; [intros _; apply splitlines_LF|].
  cbn [Py.all_chars]. intros [Hc Hl]%andb_true_iff.
  change (String c line +:+ String LF rest) with (String c (line +:+ String LF rest)).
  cbn [Header.splitlines]. apply negb_true_iff in Hc. rewrite Hc. by rewrite (IH Hl).
Qed.

Lemma splitlines_cons2 (c d : ascii) (s : string) :
  Header.splitlines (String c (String d s)) =
  if Header.is_linebreak c then
    "" :: (if (Py.code c =? 13)%N && (Py.code d =? 10)%N
           then Header.splitlines s else Header.splitlines (String d s))
  else
    match Header.splitlines (String d s) with
    | [] => [String c ""]
    | line :: lines => String c line :: lines
    end.
Proof. reflexivity. Qed.

Lemma splitlines_cons1 (c : ascii) :
  Header.splitlines (String c "") = if Header.is_linebreak c then [""] else [String c ""].
Proof. reflexivity. Qed.

Lemma splitlines_app_LF (a b : string) :
  Header.splitlines (a +:+ String LF b)
  = Header.splitlines (a +:+ String LF "") ++ Header.splitlines b.
Proof.
  induction a as [|c|c d a IHa IHd] using string_ind2.
  - change ("" +:+ ?x) with x. by rewrite !splitlines_LF.
  - change (String c "" +:+ ?x) with (String c x).
    rewrite !splitlines_cons2, !splitlines_LF.
    change (Py.code LF =? 10)%N with true. rewrite andb_true_r.
    change (Header.splitlines "") with (@nil string).
    destruct (Header.is_linebreak c); [|done].
    by destruct (Py.code c =? 13)%N.
  - change (String c (String d a) +:+ ?x) with (String c (String d (a +:+ x))).
    rewrite !splitlines_cons2.
    change (String d (a +:+ ?x)) with (String d a +:+ x). rewrite IHd, IHa.
    pose proof (splitlines_cons_ne d (a +:+ String LF "")) as Hne.
    change (String d (a +:+ String LF "")) with (String d a +:+ String LF "") in Hne.
    destruct (Header.is_linebreak c).
    + by destruct ((Py.code c =? 13)%N && (Py.code d =? 10)%N).
    + by destruct (Header.splitlines (String d a +:+ String LF "")).
Qed.

Lemma splitlines_LF_end (a : string) :
  Header.splitlines (a +:+ String LF "") = Header.splitlines a ∨
  Header.splitlines (a +:+ String LF "") = Header.splitlines a ++ [""].
Proof.
  induction a as [|c|c d a IHa IHd] using string_ind2.
  - by right.
  - change (String c "" +:+ ?x) with (String c x).
    rewrite splitlines_cons2, (splitlines_cons1 c), splitlines_LF.
    change (Py.code LF =? 10)%N with true. rewrite andb_true_r.
    change (Header.splitlines "") with (@nil string).
    destruct (Header.is_linebreak c); [|by left].
    destruct (Py.code c =? 13)%N; [by left|by right].
  - change (String c (String d a) +:+ ?x) with (String c (String d (a +:+ x))).
    rewrite !splitlines_cons2.
    change (String d (a +:+ ?x)) with (String d a +:+ x).
    pose proof (splitlines_cons_ne d a) as Hne.
    destruct (Header.is_linebreak c).
    + destruct ((Py.code c =? 13)%N && (Py.code d =? 10)%N).
      * destruct IHa as [-> | ->]; [by left|by right].
      * destruct IHd as [-> | ->]; [by left|by right].
    + destruct IHd as [-> | ->]; [by left|].
      right. by destruct (Header.splitlines (String d a)).
Qed.

Lemma info_lines_stop (line : string) (l1 l2 : list string) : ∀ out,
  Py.contains "Sign Type" line = true →
  Header.info_lines out (l1 ++ line :: l2) = Header.info_lines out l1.
Proof.
  induction l1 as [|l l1 IH]; intros out Hline; simpl.
  - by rewrite Hline.
  - destruct (Py.contains "Sign Type" l); [done|]. by apply IH.
Qed.

Lemma info_lines_blank (l : list string) : ∀ out,
  Header.info_lines out (l ++ [""]) = Header.info_lines out l.
Proof.
  induction l as [|l1 l IH]; intros out; [done|]. simpl.
  destruct (Py.contains "Sign Type" l1); [done|]. apply IH.
Qed.

(** X24: [extract_store_info] reads nothing from the first line that holds
    ['Sign Type'] on: a text followed by such a line and by anything else
    gives what the text alone gives. *)
Theorem extract_store_info_stops (head line rest : string) :
  one_line line = true → Py.contains "Sign Type" line = true →
  Header.extract_store_info (head +:+ String LF (line +:+ String LF rest))
  = Header.extract_store_info head.
Proof.
  intros Hone Hsign. unfold Header.extract_store_info.
  rewrite splitlines_app_LF, (splitlines_one_line line rest Hone).
  rewrite (info_lines_stop line _ _ ∅ Hsign).
  destruct (splitlines_LF_end head) as [-> | ->]; [done|apply info_lines_blank].
Qed.

Lemma extract_store_info_stops_witness :
  Header.extract_store_info
    ("Store: A1234" +:+ String LF ("Sign Type Promotion Name" +:+ String LF "Class: 9"))
  = Header.extract_store_info "Store: A1234".
Proof. by apply extract_store_info_stops. Defined.

(** ** The stores of a document, with the two text analyses of the program *)






(** ** Blackout of rows *)

Lemma canon_map_snoc (cfg : BlackoutConfig) (e : string * list string) :
  canon_map (cfg ++ [e]) = <[canon e.1 := list_to_set (canon <$> e.2)]> (canon_map cfg).
Proof. unfold canon_map. by rewrite fold_left_app. Qed.

Lemma canon_map_lookup (cfg : BlackoutConfig) (st : string) :
  canon_map cfg !! st
  = (λ vs, list_to_set (canon <$> vs)) <$> rule_for cfg st.
Proof.
  unfold rule_for. induction cfg as [|e cfg IH] using rev_ind.
  - unfold canon_map. simpl. by rewrite lookup_empty.
  - rewrite canon_map_snoc, filter_app, filter_cons, filter_nil.
    destruct (decide (canon e.1 = st)) as [<-|Hne].
    + by rewrite lookup_insert_eq, last_snoc.
    + rewrite lookup_insert_ne by done. by rewrite app_nil_r.
Qed.

(** The sign type carried into a row by a loop that starts with
    [last_type]. *)
Lemma carried_type_cons (row : Row) (rows : list Row) (i : nat) :
  carried_type (row :: rows) (S i) =
  match carried_type rows i with
  | Some t => Some t
  | None => if String.eqb (canon (type_text row)) "" then None
            else Some (canon (type_text row))
  end.
Proof.
  unfold carried_type. rewrite firstn_cons, fmap_cons, filter_cons.
  destruct (String.eqb_spec (canon (type_text row)) "") as [He|Hne].
  - rewrite decide_False by (by intros ?). by destruct (last _).
  - rewrite decide_True by done. by rewrite last_cons.
Qed.

Lemma carried_type_0 (row : Row) (rows : list Row) :
  carried_type (row :: rows) 0 =
  if String.eqb (canon (type_text row)) "" then None else Some (canon (type_text row)).
Proof.
  unfold carried_type. simpl. rewrite filter_cons, filter_nil.
  destruct (String.eqb_spec (canon (type_text row)) "") as [He|Hne].
  - by rewrite decide_False by (by intros ?).
  - by rewrite decide_True by done.
Qed.

Lemma carried_type_ne (rows : list Row) (i : nat) (st : string) :
  carried_type rows i = Some st → st ≠ "".
Proof.
  unfold carried_type. intros Hl.
  assert (st ∈ filter (λ t, t ≠ "") ((λ r, canon (type_text r)) <$> take (S i) rows)) as Hin.
  { apply last_Some in Hl as [l' ->]. apply elem_of_app. right. left. }
  by apply list_elem_of_filter in Hin as [? _].
Qed.

Lemma blackout_rows_lookup (cm : gmap string (gset string)) (rows : list Row) :
  ∀ last_type i row, rows !! i = Some row →
  blackout_rows cm last_type rows !! i =
  Some match (match carried_type rows i with Some t => Some t | None => last_type end) with
       | None => false
       | Some st =>
           if String.eqb st "" || String.eqb (canon (promo_text row)) "" then false
           else match cm !! st with
                | Some pvs => bool_decide (canon (promo_text row) ∈ pvs)
                | None => false
                end
       end.
Proof.
  induction rows as [|r rows IH]; intros last_type i row; [done|].
  destruct i as [|i]; cbn [blackout_rows].
  - intros [= ->]. rewrite carried_type_0. simpl.
    by destruct (String.eqb (canon (type_text row)) "").
  - intros Hrow. change ((?x :: ?l) !! S i) with (l !! i). rewrite (IH _ i row Hrow), carried_type_cons.
    destruct (carried_type rows i); [done|].
    by destruct (String.eqb (canon (type_text r)) "").
Qed.

Lemma blackout_nonalc_rows_lookup (rows : list Row) :
  ∀ last_type i row, rows !! i = Some row →
  blackout_nonalc_rows last_type rows !! i =
  Some match (match carried_type rows i with Some t => Some t | None => last_type end) with
       | None => false
       | Some st =>
           if String.eqb st "" || String.eqb (canon (promo_text row)) "" then false
           else String.eqb st TYPE_SHELF_WOBBLER_CANON
                && (String.eqb (canon (promo_text row)) PROMO_WOBBLER_NONALC_CANON
                    || (Py.contains "non" (canon (promo_text row))
                        && Py.contains "alcohol" (canon (promo_text row))
                        && Py.contains "wobbler" (canon (promo_text row))))
       end.
Proof.
  induction rows as [|r rows IH]; intros last_type i row; [done|].
  destruct i as [|i]; cbn [blackout_nonalc_rows].
  - intros [= ->]. rewrite carried_type_0. simpl.
    by destruct (String.eqb (canon (type_text row)) "").
  - intros Hrow. change ((?x :: ?l) !! S i) with (l !! i). rewrite (IH _ i row Hrow), carried_type_cons.
    destruct (carried_type rows i); [done|].
    by destruct (String.eqb (canon (type_text r)) "").
Qed.

(** X26: [blackout_rows_on_page] decides for every row, and draws over a
    row exactly when the row has a promotion and stands under a sign type
    (its own, or the last one given above it) for which the configuration
    has an entry that lists the promotion, all compared in canonical form;
    of several entries whose sign types have the same canonical form only
    the last one counts. *)
Theorem blackout_rows_on_page_spec (blackout_cfg : BlackoutConfig) (rows : list Row)
    (i : nat) (row : Row) :
  rows !! i = Some row →
  ∃ b, blackout_rows_on_page blackout_cfg rows !! i = Some b ∧
       (b = true ↔
        ∃ st vs, carried_type rows i = Some st ∧ rule_for blackout_cfg st = Some vs ∧
                 canon (promo_text row) ≠ "" ∧
                 canon (promo_text row) ∈ canon <$> vs).
Proof.
  intros Hrow. unfold blackout_rows_on_page.
  destruct blackout_cfg as [|e cfg].
  { exists false. rewrite list_lookup_fmap, Hrow. split; [done|].
    split; [done|]. intros (st & vs & _ & Hr & _). discriminate Hr. }
  generalize (e :: cfg). clear e cfg. intros cfg.
  eexists. split; [by apply blackout_rows_lookup|].
  destruct (carried_type rows i) as [st|] eqn:Ec.
  2:{ split; [done|]. by intros (st & vs & ? & _). }
  pose proof (carried_type_ne _ _ _ Ec) as Hst.
  apply String.eqb_neq in Hst. rewrite Hst. simpl.
  destruct (String.eqb_spec (canon (promo_text row)) "") as [Hp|Hp].
  { split; [done|]. by intros (st' & vs & _ & _ & ? & _). }
  rewrite canon_map_lookup.
  destruct (rule_for cfg st) as [vs|] eqn:Er; simpl.
  - rewrite bool_decide_eq_true, elem_of_list_to_set. split.
    + intros Hin. by exists st, vs.
    + intros (st' & vs' & [= <-] & Hr & _ & Hin). rewrite Er in Hr. by injection Hr as <-.
  - split; [done|]. intros (st' & vs' & [= <-] & Hr & _). rewrite Er in Hr. discriminate Hr.
Qed.

Lemma blackout_rows_on_page_spec_witness :
  ∃ b, blackout_rows_on_page
         [("Shelf Wobbler", ["soda"]); ("*SHELF  wobbler*", ["Widget Promo"])]
         [mkRow "Shelf Wobbler" "Soda" "2"; mkRow "" "widget  promo" "5"] !! 1 = Some b ∧
       b = true.
Proof.
  destruct (blackout_rows_on_page_spec
              [("Shelf Wobbler", ["soda"]); ("*SHELF  wobbler*", ["Widget Promo"])]
              [mkRow "Shelf Wobbler" "Soda" "2"; mkRow "" "widget  promo" "5"]
              1 (mkRow "" "widget  promo" "5") eq_refl) as (b & Hb & Hiff).
  exists b. split; [exact Hb|]. apply Hiff.
  exists "shelf wobbler", ["Widget Promo"].
  split; [reflexivity|]. split; [reflexivity|]. split; [by vm_compute|].
  vm_compute. left.
Defined.

(** X27: [blackout_nonalc_wobbler_row_on_page] draws over a row exactly
    when the row stands under the sign type "shelf wobbler" and its
    canonical promotion holds the three words "non", "alcohol" and
    "wobbler"; the comparison with the canonical non-alcohol kit adds
    nothing to that, and the row of the alcohol kit is never drawn
    over. *)
Theorem blackout_nonalc_rows_spec (rows : list Row) (i : nat) (row : Row) :
  rows !! i = Some row →
  ∃ b, blackout_nonalc_wobbler_row_on_page rows !! i = Some b ∧
       (b = true ↔
        carried_type rows i = Some TYPE_SHELF_WOBBLER_CANON ∧
        Py.contains "non" (canon (promo_text row)) = true ∧
        Py.contains "alcohol" (canon (promo_text row)) = true ∧
        Py.contains "wobbler" (canon (promo_text row)) = true) ∧
       (canon (promo_text row) = PROMO_WOBBLER_ALC_CANON → b = false).
Proof.
  intros Hrow. unfold blackout_nonalc_wobbler_row_on_page.
  eexists. split; [by apply blackout_nonalc_rows_lookup|].
  destruct (carried_type rows i) as [st|] eqn:Ec.
  2:{ split; [|done]. split; [done|]. by intros [? _]. }
  pose proof (carried_type_ne _ _ _ Ec) as Hst.
  apply String.eqb_neq in Hst. rewrite Hst. simpl.
  generalize (canon (promo_text row)). intros pv.
  destruct (String.eqb_spec pv "") as [->|Hp].
  { split; [|done]. split; [done|]. by intros (_ & ? & _). }
  split.
  - rewrite andb_true_iff, String.eqb_eq, orb_true_iff, !andb_true_iff, String.eqb_eq.
    split.
    + intros [-> [-> | [[? ?] ?]]]; [by vm_compute|done].
    + intros ([= ->] & ? & ? & ?). split; [done|]. by right.
  - intros ->. destruct (String.eqb st TYPE_SHELF_WOBBLER_CANON); [|done].
    by vm_compute.
Qed.

Lemma blackout_nonalc_rows_spec_witness :
  ∃ b, blackout_nonalc_wobbler_row_on_page
         [mkRow "Shelf Wobbler" "*Shelf Wobbler Kit; Alcohol Version*" "1";
          mkRow "" "*Shelf Wobbler Kit; Non-Alcohol Version*" "1"] !! 1 = Some b ∧
       b = true.
Proof.
  destruct (blackout_nonalc_rows_spec
              [mkRow "Shelf Wobbler" "*Shelf Wobbler Kit; Alcohol Version*" "1";
               mkRow "" "*Shelf Wobbler Kit; Non-Alcohol Version*" "1"]
              1 (mkRow "" "*Shelf Wobbler Kit; Non-Alcohol Version*" "1") eq_refl)
    as (b & Hb & Hiff & _).
  exists b. split; [exact Hb|]. apply Hiff. by vm_compute.
Defined.

(** ** The pages of a group of stores *)

Lemma copied_pages_app (a b : list RenderOp) :
  copied_pages (a ++ b) = copied_pages a ++ copied_pages b.
Proof. apply omap_app. Qed.

Lemma type_headings_app (a b : list RenderOp) :
  type_headings (a ++ b) = type_headings a ++ type_headings b.
Proof. apply omap_app. Qed.

Lemma render_page_ops (drop : option bool) (kit_name : option string) (pgs : list nat) :
  copied_pages (pgs ≫= render_page drop kit_name) = pgs ∧
  type_headings (pgs ≫= render_page drop kit_name) = [].
Proof.
  induction pgs as [|p pgs [IH1 IH2]]; [done|].
  rewrite bind_cons, copied_pages_app, type_headings_app, IH1, IH2.
  unfold render_page.
  destruct (bool_decide (drop = Some true)), kit_name as [k|];
    try destruct (String.eqb k ""); done.
Qed.

Lemma render_stores_ops (kit_by_store_id : gmap string string) (stores : list StoreRecord) :
  ∀ current_type,
  copied_pages (render_stores kit_by_store_id current_type stores)
    = concat (pages <$> stores) ∧
  type_headings (render_stores kit_by_store_id current_type stores)
    = heading_text <$> run_heads current_type (store_type <$> stores).
Proof.
  induction stores as [|s stores IH]; intros current_type; [done|].
  cbn [render_stores]. rewrite !copied_pages_app, !type_headings_app.
  destruct (render_page_ops (drop_nonalc_wobbler s) (kit_by_store_id !! store_id s) (pages s))
    as [-> ->].
  destruct (IH (Some (store_type s))) as [-> ->].
  rewrite !fmap_cons. cbn [run_heads concat]. rewrite fmap_app.
  split.
  - by destruct (decide (Some (store_type s) = current_type)).
  - by destruct (decide (Some (store_type s) = current_type)).
Qed.

Lemma type_rank_inj (a b : string) :
  a ∈ STORE_TYPE_ORDER → b ∈ STORE_TYPE_ORDER → type_rank a = type_rank b → a = b.
Proof.
  assert (NoDup STORE_TYPE_ORDER) as Hnd by (apply (bool_decide_unpack _); by vm_compute).
  intros [i Hi]%list_elem_of_lookup [j Hj]%list_elem_of_lookup.
  unfold type_rank, STORE_TYPE_RANK.
  rewrite (proj2 (rank_of_lookup _ _ _ Hnd) Hi), (proj2 (rank_of_lookup _ _ _ Hnd) Hj).
  simpl. intros Heq%Nat2Z.inj. subst j. congruence.
Qed.

Lemma run_heads_increasing (l : list string) : ∀ prev,
  StronglySorted (λ a b, (type_rank a ≤ type_rank b)%Z) l →
  Forall (λ t, t ∈ STORE_TYPE_ORDER) l →
  (∀ p, prev = Some p → p ∈ STORE_TYPE_ORDER ∧ Forall (λ x, (type_rank p ≤ type_rank x)%Z) l) →
  StronglySorted (λ a b, (type_rank a < type_rank b)%Z) (run_heads prev l) ∧
  Forall (λ x, ∀ p, prev = Some p → (type_rank p < type_rank x)%Z) (run_heads prev l).
Proof.
  induction l as [|x l IH]; intros prev Hs Hk Hp; [by split; constructor|].
  apply StronglySorted_inv in Hs as [Hs Hx]. apply Forall_cons in Hk as [Hkx Hk].
  destruct (IH (Some x) Hs Hk) as [IHs IHp].
  { by intros p [= <-]. }
  cbn [run_heads]. destruct (decide (Some x = prev)) as [<-|Hne]; [by split|].
  simpl. split.
  - constructor; [done|]. eapply Forall_impl; [exact IHp|]. intros y Hy. by apply Hy.
  - assert (∀ p, prev = Some p → (type_rank p < type_rank x)%Z) as Hlt.
    { intros p ->. destruct (Hp p eq_refl) as [Hkp Hle].
      apply Forall_cons in Hle as [Hle _].
      destruct (decide (type_rank p = type_rank x)) as [Heq|]; [|lia].
      destruct Hne. f_equal. symmetry. by apply type_rank_inj. }
    constructor; [done|]. eapply Forall_impl; [exact IHp|].
    intros y Hy p Hprev. specialize (Hy x eq_refl). specialize (Hlt p Hprev). lia.
Qed.

Lemma sort_stores_ranks (stores : list StoreRecord) :
  StronglySorted (λ a b, (type_rank a ≤ type_rank b)%Z) (store_type <$> sort_stores stores).
Proof.
  assert (StronglySorted (λ a b, key_lt (store_sort_key b) (store_sort_key a) = false)
                         (sort_stores stores)) as Hs.
  { apply Sorted_StronglySorted.
    - intros a b c. apply key_not_above_trans.
    - apply (sorted_Sorted (λ a b, key_lt (store_sort_key a) (store_sort_key b))).
      intros x y. apply key_lt_asym. }
  induction Hs as [|s l Hl IH Hx]; [constructor|].
  rewrite fmap_cons. constructor; [done|].
  apply Forall_fmap. eapply Forall_impl; [exact Hx|]. intros y Hy. simpl.
  apply key_lt_false_iff in Hy as [? | [? _]]; unfold type_rank; simpl in *; lia.
Qed.

(** X28: [render_store_group] does nothing for an empty group; for any
    other it copies the pages of its stores, each page once, store after
    store and in the order of each store's page list; and it announces a
    store type at the start of every run of stores of one type.  When the
    stores are sorted by [store_sort_key] and all their types are entries
    of [STORE_TYPE_ORDER], no store type is announced twice. *)
Theorem render_store_group_spec (stores : list StoreRecord)
    (kit_by_store_id : gmap string string) (section_title : string) :
  render_store_group [] kit_by_store_id section_title = [] ∧
  copied_pages (render_store_group stores kit_by_store_id section_title)
    = concat (pages <$> stores) ∧
  type_headings (render_store_group stores kit_by_store_id section_title)
    = heading_text <$> run_heads None (store_type <$> stores) ∧
  ((∀ s, s ∈ stores → store_type s ∈ STORE_TYPE_ORDER) →
   NoDup (run_heads None (store_type <$> sort_stores stores))).
Proof.
  split; [done|].
  destruct (render_stores_ops kit_by_store_id stores None) as [Hc Ht].
  split; [by destruct stores|]. split; [by destruct stores|].
  intros Hknown.
  destruct (run_heads_increasing (store_type <$> sort_stores stores) None) as [Hs _].
  - apply sort_stores_ranks.
  - apply Forall_fmap, Forall_forall. intros s Hs. simpl. apply Hknown.
    unfold sort_stores in Hs. by rewrite sorted_perm in Hs.
  - done.
  - clear -Hs. induction Hs as [|x l Hl IH Hx]; constructor; [|done].
    intros Hin. rewrite Forall_forall in Hx. specialize (Hx x Hin). lia.
Qed.

(** ** Layout of a list of names *)

Lemma grid_cells_elem_of (rows_fit columns n r c idx : nat) :
  (r, c, idx) ∈ grid_cells rows_fit columns n ↔
  r < rows_fit ∧ c < columns ∧ idx = r + c * rows_fit ∧ idx < n.
Proof.
  unfold grid_cells. rewrite list_elem_of_bind. split.
  - intros (r' & Hin & Hr). apply elem_of_seq in Hr.
    apply list_elem_of_bind in Hin as (c' & Hin & Hc). apply elem_of_seq in Hc.
    destruct (decide (n ≤ r' + c' * rows_fit)); [by apply elem_of_nil in Hin|].
    apply list_elem_of_singleton in Hin as [= -> -> ->]. lia.
  - intros (Hr & Hc & -> & Hn). exists r. split; [|apply elem_of_seq; lia].
    apply list_elem_of_bind. exists c. split; [|apply elem_of_seq; lia].
    rewrite decide_False by lia. left.
Qed.

Lemma grid_cells_NoDup (rows_fit columns n : nat) : NoDup (grid_cells rows_fit columns n).
Proof.
  unfold grid_cells. apply NoDup_bind; [| |apply NoDup_seq].
  - intros r1 r2 [[r c] idx] _ _ H1 H2.
    apply list_elem_of_bind in H1 as (c1 & H1 & _).
    apply list_elem_of_bind in H2 as (c2 & H2 & _).
    destruct (decide _); [by apply elem_of_nil in H1|].
    destruct (decide _); [by apply elem_of_nil in H2|].
    apply list_elem_of_singleton in H1 as [= -> _ _].
    by apply list_elem_of_singleton in H2 as [= -> _ _].
  - intros r _. apply NoDup_bind; [| |apply NoDup_seq].
    + intros c1 c2 [[r' c] idx] _ _ H1 H2.
      destruct (decide _); [by apply elem_of_nil in H1|].
      destruct (decide _); [by apply elem_of_nil in H2|].
      apply list_elem_of_singleton in H1 as [= _ -> _].
      by apply list_elem_of_singleton in H2 as [= _ -> _].
    + intros c _. destruct (decide _); [constructor|apply NoDup_singleton].
Qed.

(** X29: when a chunk has at most [rows_fit * columns] names, the loops of
    [draw_multicolumn_list] draw every name of the chunk exactly once, the
    name at index [idx] in row [idx mod rows_fit] of column
    [idx / rows_fit]: the names run down the first column, then down the
    second, and so on. *)
Theorem grid_cells_spec (rows_fit columns n : nat) :
  n ≤ rows_fit * columns →
  (grid_cells rows_fit columns n).*2 ≡ₚ seq 0 n ∧
  ∀ r c idx, (r, c, idx) ∈ grid_cells rows_fit columns n ↔
             idx < n ∧ r = idx mod rows_fit ∧ c = idx / rows_fit.
Proof.
  intros Hn.
  assert (∀ r c idx, (r, c, idx) ∈ grid_cells rows_fit columns n ↔
                     idx < n ∧ r = idx mod rows_fit ∧ c = idx / rows_fit) as Hcell.
  { intros r c idx. rewrite grid_cells_elem_of. split.
    - intros (Hr & Hc & -> & Hlt). split; [done|].
      rewrite Nat.Div0.mod_add, Nat.div_add by lia.
      rewrite Nat.mod_small, Nat.div_small by done. lia.
    - intros (Hlt & -> & ->).
      assert (rows_fit ≠ 0) as Hne by (intros ->; lia).
      split; [by apply Nat.mod_upper_bound|].
      split; [apply Nat.Div0.div_lt_upper_bound; lia|].
      split; [|done]. rewrite (Nat.div_mod idx rows_fit Hne) at 1. lia. }
  split; [|done].
  apply NoDup_Permutation.
  - apply NoDup_fmap_2_strong; [|apply grid_cells_NoDup].
    intros [[r1 c1] i1] [[r2 c2] i2] [_ [-> ->]]%Hcell [_ [-> ->]]%Hcell. simpl.
    by intros ->.
  - apply NoDup_seq.
  - intros idx. rewrite list_elem_of_fmap, elem_of_seq. split.
    + intros ([[r c] i] & -> & [? _]%Hcell). simpl. lia.
    + intros [_ Hlt]. exists (idx mod rows_fit, idx / rows_fit, idx). split; [done|].
      apply Hcell. simpl in Hlt. done.
Qed.

Lemma grid_cells_spec_witness :
  (grid_cells 3 4 10).*2 ≡ₚ seq 0 10 ∧ (1, 2, 7) ∈ grid_cells 3 4 10.
Proof.
  destruct (grid_cells_spec 3 4 10) as [Hp Hc]; [lia|].
  split; [exact Hp|]. apply Hc. split; [lia|]. by vm_compute.
Defined.

(** ** Texts cut to a width *)

Lemma string_of_list_ascii_app (a b : list ascii) :
  String.string_of_list_ascii (a ++ b)
  = String.string_of_list_ascii a +:+ String.string_of_list_ascii b.
Proof. induction a as [|c a IH]; simpl; [done|]. by rewrite IH. Qed.

Lemma list_ascii_of_string_app (a b : string) :
  String.list_ascii_of_string (a +:+ b)
  = String.list_ascii_of_string a ++ String.list_ascii_of_string b.
Proof. induction a as [|c a IH]; simpl; [done|]. by rewrite IH. Qed.

Lemma list_ascii_of_string_length (a : string) :
  length (String.list_ascii_of_string a) = String.length a.
Proof. induction a as [|c a IH]; simpl; [done|]. by rewrite IH. Qed.

Section EllipsizeProperties.

Variable get_text_length : string → float.
Variable ellipsis : string.

Lemma trim_to_width_spec (max_width : float) (rt : list ascii) :
  (∃ d, rt = d ++ trim_to_width get_text_length ellipsis max_width rt) ∧
  (trim_to_width get_text_length ellipsis max_width rt ≠ [] →
   PrimFloat.ltb max_width
     (get_text_length
        (text_of_rev (trim_to_width get_text_length ellipsis max_width rt) +:+ ellipsis))
   = false) ∧
  ∀ y x, rt = y ++ x →
    length (trim_to_width get_text_length ellipsis max_width rt) < length x →
    PrimFloat.ltb max_width (get_text_length (text_of_rev x +:+ ellipsis)) = true.
Proof.
  induction rt as [|c rt (IHd & IHf & IHl)].
  - split; [by exists []|]. split; [done|].
    intros y x Hyx. symmetry in Hyx. apply app_eq_nil in Hyx as [_ ->]. simpl. lia.
  - cbn [trim_to_width].
    destruct (PrimFloat.ltb max_width
                (get_text_length (text_of_rev (c :: rt) +:+ ellipsis))) eqn:E.
    + split; [destruct IHd as [d Hd]; exists (c :: d); simpl; by f_equal|].
      split; [done|]. intros y x Hyx Hlen.
      destruct y as [|c' y]; simpl in Hyx.
      * by subst x.
      * injection Hyx as _ Hyx. by apply (IHl y x).
    + split; [by exists []|]. split; [done|].
      intros y x Hyx Hlen. apply (f_equal length) in Hyx.
      rewrite length_app in Hyx. lia.
Qed.

(** X30: [_ellipsize_to_width] leaves a text that is not wider than
    [max_width] as it is, and gives the empty text when not even the
    ellipsis fits.  Otherwise it gives a beginning of the text followed by
    the ellipsis, which is not wider than [max_width], and it is the
    longest such beginning: every longer one is too wide with the
    ellipsis. *)
Theorem ellipsize_to_width_spec (text : string) (max_width : float) :
  let r := _ellipsize_to_width get_text_length ellipsis text max_width in
  if PrimFloat.leb (get_text_length text) max_width then r = text
  else if PrimFloat.ltb max_width (get_text_length ellipsis) then r = ""
  else ∃ p q, text = p +:+ q ∧ r = p +:+ ellipsis ∧
         PrimFloat.ltb max_width (get_text_length r) = false ∧
         ∀ p' q', text = p' +:+ q' → String.length p < String.length p' →
           PrimFloat.ltb max_width (get_text_length (p' +:+ ellipsis)) = true.
Proof.
  intros r. subst r. unfold _ellipsize_to_width.
  destruct (PrimFloat.leb (get_text_length text) max_width); [done|].
  destruct (PrimFloat.ltb max_width (get_text_length ellipsis)) eqn:Ee; [done|].
  destruct (trim_to_width_spec max_width (rev (String.list_ascii_of_string text)))
    as ([d Hd] & Hfit & Hlong).
  set (t := trim_to_width get_text_length ellipsis max_width
              (rev (String.list_ascii_of_string text))) in *.
  exists (text_of_rev t), (text_of_rev d).
  split.
  { unfold text_of_rev. rewrite <- string_of_list_ascii_app, <- rev_app_distr, <- Hd.
    by rewrite rev_involutive, String.string_of_list_ascii_of_string. }
  split; [done|]. split.
  { destruct t as [|c t'] eqn:Et; [exact Ee|]. by apply Hfit. }
  intros p' q' Htext Hlen.
  specialize (Hlong (rev (String.list_ascii_of_string q'))
                    (rev (String.list_ascii_of_string p'))).
  unfold text_of_rev in Hlong at 1.
  rewrite rev_involutive, String.string_of_list_ascii_of_string in Hlong.
  apply Hlong.
  - by rewrite Htext, list_ascii_of_string_app, rev_app_distr.
  - rewrite length_rev, list_ascii_of_string_length.
    unfold text_of_rev in Hlen.
    rewrite <- list_ascii_of_string_length, String.list_ascii_of_string_of_list_ascii,
      length_rev in Hlen. done.
Qed.

End EllipsizeProperties.
